(** * scaffoldfitter: the step pipeline, alignment solver, penalty assignment
      and settings persistence of [scaffoldfitter.fitter] and
      [scaffoldfitter.fitterstepalign], embedded and verified.

    Conventions of the embedding.
    - A Python method that mutates [self] and may raise is a function
      [state -> result * state]: the state reached is kept also when an
      exception is raised, because the object outlives the exception.
    - Python floats on which the code computes are kept abstract
      ([FloatOps]): a theorem that needs a property of their arithmetic
      states it as a hypothesis.  The exact rationals ([QFloat]) are the
      instance without rounding.  Floats that are only stored or compared
      with zero (settings, penalty tensors) are rationals.
    - Calls into the Zinc library (regions, fields, optimisation) are either
      parameters of a [Section] or small explicit models, documented where
      they occur. *)

From Stdlib Require Import Ascii String ZArith QArith Qround Lia Lqa Sorted.
From stdpp Require Import base option list gmap strings pretty.

#[local] Set Warnings "-clear-no-such-hyp".

Local Open Scope string_scope.
Local Open Scope list_scope.
Local Open Scope nat_scope.

(** ** Exceptions and the state-and-exception monad *)

Inductive exn : Type :=
| AssertionError (msg : string)
| ValueError (msg : string)
| KeyError (key : string)
| IndexError
| AttributeError (msg : string)
| TypeError (msg : string)
| NameError (msg : string)
| ZeroDivisionError.

Inductive result (A : Type) : Type :=
| Return (a : A)
| Raise (e : exn).
Arguments Return {A} a.
Arguments Raise {A} e.

Definition M (S A : Type) : Type := S -> result A * S.

Definition ret {S A : Type} (a : A) : M S A := fun s => (Return a, s).
Definition raise {S A : Type} (e : exn) : M S A := fun s => (Raise e, s).
Definition bind {S A B : Type} (m : M S A) (k : A -> M S B) : M S B :=
  fun s => match m s with
           | (Return a, s') => k a s'
           | (Raise e, s') => (Raise e, s')
           end.
Definition get {S : Type} : M S S := fun s => (Return s, s).
Definition put {S : Type} (s : S) : M S unit := fun _ => (Return tt, s).
Definition modify {S : Type} (f : S -> S) : M S unit := fun s => (Return tt, f s).

Notation "'let!' x ':=' m 'in' k" := (bind m (fun x => k))
  (at level 10, x name, m at level 200, k at level 200,
   format "'[v' 'let!'  x  ':='  m  'in' '/' k ']'").
Notation "'run!' m 'in' k" := (bind m (fun _ => k))
  (at level 10, m at level 200, k at level 200,
   format "'[v' 'run!'  m  'in' '/' k ']'").

(** [for x in xs: body x] *)
Fixpoint for_each {S A : Type} (xs : list A) (body : A -> M S unit) : M S unit :=
  match xs with
  | [] => ret tt
  | x :: xs' => bind (body x) (fun _ => for_each xs' body)
  end.

Definition is_raise {A : Type} (r : result A) : bool :=
  match r with Raise _ => true | Return _ => false end.

(** ** Python dicts as insertion-ordered association lists *)

Module PyDict.

Fixpoint dictGet {V : Type} (key : string) (d : list (string * V)) : option V :=
  match d with
  | [] => None
  | (k, v) :: d' => if String.eqb k key then Some v else dictGet key d'
  end.

(** [key in d] *)
Definition dictHas {V : Type} (key : string) (d : list (string * V)) : bool :=
  match dictGet key d with Some _ => true | None => false end.

(** [d[key] = value] *)
Fixpoint dictSet {V : Type} (key : string) (value : V) (d : list (string * V))
    : list (string * V) :=
  match d with
  | [] => [(key, value)]
  | (k, v) :: d' =>
      if String.eqb k key then (k, value) :: d' else (k, v) :: dictSet key value d'
  end.

(** [d.update(other)] *)
Definition dictUpdate {V : Type} (d other : list (string * V)) : list (string * V) :=
  fold_left (fun acc kv => dictSet (fst kv) (snd kv) acc) other d.

(** [d.pop(key)] for a key that is present *)
Fixpoint dictPop {V : Type} (key : string) (d : list (string * V)) : list (string * V) :=
  match d with
  | [] => []
  | (k, v) :: d' => if String.eqb k key then d' else (k, v) :: dictPop key d'
  end.

End PyDict.

(** ** 4.1 Step pipeline: [Fitter.run], [Fitter.load] *)

Module Pipeline.

(** The three step classes. *)
Inductive StepKind : Type := Config | Align | Fit.

(** A step object: its identity (Python object identity, which
    [list.index] compares), its class and its [_hasRun] flag. *)
Record FitterStep : Type := mkStep {
  stepId : nat;
  kind : StepKind;
  hasRun : bool
}.

Definition setHasRun (b : bool) (s : FitterStep) : FitterStep :=
  {| stepId := stepId s; kind := kind s; hasRun := b |}.

(** What happens to the shared geometry is recorded as a log of events:
    [EvReload] is the body of [load] up to the loop clearing the flags
    ([_clearFields], a fresh region, [_loadModel], [_loadData],
    [_defineDataProjectionFields], data centre and scale); [EvRun index stem]
    is a call of [self._fitterSteps[index].run(stem)]. *)
Inductive Event : Type :=
| EvReload
| EvRun (index : nat) (fileNameStem : option string).

Record Fitter : Type := mkFitter {
  fitterSteps : list FitterStep;
  log : list Event
}.

(** [self._fitterSteps.index(step)]: position of the first element that is
    the object [step]. *)
Fixpoint index (id : nat) (steps : list FitterStep) : option nat :=
  match steps with
  | [] => None
  | s :: steps' => if Nat.eqb (stepId s) id then Some 0 else S <$> index id steps'
  end.

(** [modelFileNameStem + str(index) if modelFileNameStem else None]; the
    empty string is falsy. *)
Definition stemFor (stem : option string) (index : nat) : option string :=
  match stem with
  | Some s => if String.eqb s "" then None else Some (s +:+ pretty index)
  | None => None
  end.

Definition hasRunAt (ft : Fitter) (i : nat) : bool :=
  match fitterSteps ft !! i with
  | Some s => hasRun s
  | None => false
  end.

(** The condition of the [if] guarding the reload in [Fitter.run]. *)
Definition reloadNeeded (ft : Fitter) (endIndex : nat) : bool :=
  hasRunAt ft endIndex
  && (endIndex <? length (fitterSteps ft) - 1)
  && hasRunAt ft (endIndex + 1).

Section Running.

(** Whether the body of [load] raises before its loop over the steps: the
    asserts of [_loadModel] and [_loadData] on a file that cannot be read,
    or a failure in defining the fields.  The files and the Zinc region are
    not part of the state, so the outcome is given for the events so far
    (each call happens after a different list of events). *)
Variable loadOutcome : list Event -> option exn.

(** Whether [step.run(stem)] raises before its last statement
    [self.setHasRun(True)] (FitterStepAlign.run: a missing model coordinates
    field, a failure in [_doAutoAlign], a failed field assignment), for the
    step and the events so far. *)
Variable stepOutcome : FitterStep -> list Event -> option exn.

(** [self._fitterSteps[index].run(stem)].  Every step class finishes its
    [run] with [self.setHasRun(True)] (FitterStepAlign.run, last line), which
    is not reached when the step raises; the geometry work of the step, done
    or begun, is the logged event. *)
Definition stepRun (index : nat) (stem : option string) : M Fitter unit :=
  fun ft =>
    match fitterSteps ft !! index with
    | None => (Raise IndexError, ft)
    | Some s =>
        match stepOutcome s (log ft) with
        | Some e =>
            (Raise e, {| fitterSteps := fitterSteps ft;
                         log := log ft ++ [EvRun index stem] |})
        | None =>
            (Return tt,
             {| fitterSteps := alter (setHasRun true) index (fitterSteps ft);
                log := log ft ++ [EvRun index stem] |})
        end
    end.

(** [Fitter.load]: when the reading of the files raises, the flags of the
    steps are as they were. *)
Definition load : M Fitter unit :=
  fun ft =>
    match loadOutcome (log ft) with
    | Some e =>
        (Raise e, {| fitterSteps := fitterSteps ft; log := log ft ++ [EvReload] |})
    | None =>
        stepRun 0 None
          {| fitterSteps := setHasRun false <$> fitterSteps ft;
             log := log ft ++ [EvReload] |}
    end.

(** [Fitter.run(endStep, modelFileNameStem)]; [endStep] is given by the
    identity of the step object, [None] meaning run all. *)
Definition run (endStep : option nat) (stem : option string) : M Fitter bool :=
  fun ft =>
    let endStepId :=
      match endStep with
      | Some id => Some id
      | None => stepId <$> last (fitterSteps ft)
      end in
    match endStepId with
    | None => (Raise IndexError, ft)
    | Some id =>
        match index id (fitterSteps ft) with
        | None => (Raise (ValueError "step is not in list"), ft)
        | Some endIndex =>
            if reloadNeeded ft endIndex then
              (run! load in
               run! for_each (seq 1 endIndex) (fun i => stepRun i (stemFor stem i)) in
               ret true) ft
            else if Nat.eqb endIndex 0 then
              (run! stepRun 0 None in ret false) ft
            else
              (run! for_each (seq 1 endIndex) (fun i =>
                      let! ft' := get in
                      if negb (hasRunAt ft' i) then stepRun i (stemFor stem i) else ret tt) in
               ret false) ft
        end
    end.

End Running.

(** [Fitter.addFitterStep(fitterStep, refFitterStep)]: the step is inserted
    after [refFitterStep], or appended.  [assert fitterStep.getFitter() is
    None]: the fitter of a step is set here and cleared by
    [removeFitterStep], so a step has a fitter when it is in the list (other
    fitters are not modelled). *)
Definition addFitterStep (s : FitterStep) (refStep : option nat) : M Fitter unit :=
  fun ft =>
    if bool_decide (stepId s ∈ stepId <$> fitterSteps ft) then
      (Raise (AssertionError ""), ft)
    else
      match refStep with
      | Some r =>
          match index r (fitterSteps ft) with
          | None => (Raise (ValueError "step is not in list"), ft)
          | Some i =>
              (Return tt,
               {| fitterSteps :=
                    take (i + 1) (fitterSteps ft) ++ s :: drop (i + 1) (fitterSteps ft);
                  log := log ft |})
          end
      | None =>
          (Return tt, {| fitterSteps := fitterSteps ft ++ [s]; log := log ft |})
      end.

(** [Fitter.getInitialFitterStepConfig] *)
Definition getInitialFitterStepConfig (ft : Fitter) : result FitterStep :=
  match fitterSteps ft with
  | s :: _ => Return s
  | [] => Raise IndexError
  end.

Definition sameKind (a b : StepKind) : bool :=
  match a, b with
  | Config, Config | Align, Align | Fit, Fit => true
  | _, _ => false
  end.

(** The backward loops [for index in range(start, -1, -1)] of the three
    lookups below, over the indices in the order visited: the first step
    that passes the test. *)
Fixpoint scanBack (test : FitterStep -> bool) (steps : list FitterStep)
    (indices : list nat) : result (option FitterStep) :=
  match indices with
  | [] => Return None
  | i :: indices' =>
      match steps !! i with
      | None => Raise IndexError
      | Some s => if test s then Return (Some s) else scanBack test steps indices'
      end
  end.

(** [Fitter.getInheritFitterStep(refFitterStep)] *)
Definition getInheritFitterStep (refStep : nat) (ft : Fitter) : result (option FitterStep) :=
  match index refStep (fitterSteps ft) with
  | None => Raise (ValueError "step is not in list")
  | Some i =>
      match fitterSteps ft !! i with
      | None => Raise IndexError
      | Some r =>
          scanBack (fun s => sameKind (kind s) (kind r)) (fitterSteps ft) (rev (seq 0 i))
      end
  end.

(** [Fitter.getInheritFitterStepConfig(refFitterStep)] *)
Definition getInheritFitterStepConfig (refStep : nat) (ft : Fitter)
    : result (option FitterStep) :=
  match index refStep (fitterSteps ft) with
  | None => Raise (ValueError "step is not in list")
  | Some i =>
      scanBack (fun s => sameKind (kind s) Config) (fitterSteps ft) (rev (seq 0 i))
  end.

(** [Fitter.getActiveFitterStepConfig(refFitterStep)] *)
Definition getActiveFitterStepConfig (refStep : nat) (ft : Fitter) : result FitterStep :=
  match index refStep (fitterSteps ft) with
  | None => Raise (ValueError "step is not in list")
  | Some i =>
      match scanBack (fun s => sameKind (kind s) Config) (fitterSteps ft)
              (rev (seq 0 (i + 1))) with
      | Return (Some s) => Return s
      | Return None =>
          Raise (AssertionError "getActiveFitterStepConfig.  Could not find config.")
      | Raise e => Raise e
      end
  end.

(** [Fitter.removeFitterStep(fitterStep)]; returns the step that follows
    the removed one, or the last step when there is none. *)
Definition removeFitterStep (step : nat) : M Fitter FitterStep :=
  fun ft =>
    match getInitialFitterStepConfig ft with
    | Raise e => (Raise e, ft)
    | Return initial =>
        if Nat.eqb (stepId initial) step then (Raise (AssertionError ""), ft)
        else
          match index step (fitterSteps ft) with
          | None => (Raise (ValueError "step is not in list"), ft)
          | Some i =>
              let steps' := delete i (fitterSteps ft) in
              let ft' := {| fitterSteps := steps'; log := log ft |} in
              let i' := if Nat.leb (length steps') i then length steps' - 1 else i in
              match steps' !! i' with
              | Some s => (Return s, ft')
              | None => (Raise IndexError, ft')
              end
          end
    end.

End Pipeline.

(** ** Python floats *)

(** The float operations the code uses, kept abstract: Python's floats are
    binary64 numbers and their operations round.  [fdiv] is [None] for a zero
    divisor (Python raises ZeroDivisionError); [flt] is [<] and [fle] is [<=]
    (both false when an operand is NaN); [ofNat] is the conversion of the
    loop index in [0.5 * math.pi * z]. *)
Class FloatOps (F : Type) : Type := mkFloatOps {
  fzero : F;
  fone : F;
  fhalf : F;
  fpi : F;
  fadd : F -> F -> F;
  fsub : F -> F -> F;
  fmul : F -> F -> F;
  fdiv : F -> F -> option F;
  flt : F -> F -> bool;
  fle : F -> F -> bool;
  ofNat : nat -> F
}.

(** Arithmetic without rounding: the rationals, with 355/113 for pi. *)
#[global] Instance QFloat : FloatOps Q :=
  {| fzero := 0%Q; fone := 1%Q; fhalf := (1 # 2)%Q; fpi := (355 # 113)%Q;
     fadd := Qplus; fsub := Qminus; fmul := Qmult;
     fdiv := fun a b => if Qeq_bool b 0 then None else Some (a / b)%Q;
     flt := fun a b => negb (Qle_bool b a);
     fle := Qle_bool;
     ofNat := fun n => inject_Z (Z.of_nat n) |}.

(** ** 4.2 Data-proportion subsampling in [Fitter.calculateGroupDataProjections] *)

Module Sampling.

Section ProjectionLoop.
Context {F : Type} {ops : FloatOps F} {Node Location : Type}.

(** [findLocation.evaluateMeshLocation(fieldcache, highestDimension)] at the
    node set in the cache; [None] stands for an invalid element. *)
Variable evaluateMeshLocation : Node -> option Location.

(** State of the [while node.isValid()] loop: the counter (a float), the
    nodes for which the [if dataProportionCounter >= 1.0] branch was
    entered, and the nodes added to the projection nodeset group with their
    location. *)
Record LoopState : Type := mkLoopState {
  dataProportionCounter : F;
  accepted : list Node;
  projected : list (Node * Location)
}.

(** [dataProportionCounter = 0.5] *)
Definition initialState : LoopState :=
  {| dataProportionCounter := fhalf; accepted := []; projected := [] |}.

(** One pass through the loop body: [dataProportionCounter +=
    dataProportion], the test [dataProportionCounter >= 1.0] and
    [dataProportionCounter -= 1.0]. *)
Definition visit (dataProportion : F) (st : LoopState) (node : Node) : LoopState :=
  let counter := fadd (dataProportionCounter st) dataProportion in
  if fle fone counter then
    {| dataProportionCounter := fsub counter fone;
       accepted := accepted st ++ [node];
       projected :=
         match evaluateMeshLocation node with
         | Some location => projected st ++ [(node, location)]
         | None => projected st
         end |}
  else
    {| dataProportionCounter := counter;
       accepted := accepted st;
       projected := projected st |}.

Definition projectLoop (dataProportion : F) (nodes : list Node) : LoopState :=
  fold_left (visit dataProportion) nodes initialState.

End ProjectionLoop.

(** Python's [round] on a rational: nearest integer, ties to even. *)
Definition pyround (x : Q) : Z :=
  let f := Qfloor x in
  match ((x - inject_Z f) ?= (1 # 2))%Q with
  | Lt => f
  | Gt => (f + 1)%Z
  | Eq => if Z.even f then f else (f + 1)%Z
  end.

End Sampling.

(** ** 4.4 Penalty assignment: [Fitter.assignDeformationPenalties] *)

Module Penalty.

(** A Zinc group as this method sees it: its name and, for the highest
    dimension mesh, its element group ([None] when
    [getFieldElementGroup(mesh)] is not valid), given by the identifiers of
    the elements of its mesh group. *)
Record Group : Type := mkGroup {
  groupName : string;
  elementGroup : option (gset nat)
}.

(** [FitterStepFit.getGroupStrainPenalty] and [getGroupCurvaturePenalty]
    return [(value, setLocally, inheritable)]; [setLocally] is [True],
    [False] or [None]. *)
Definition GroupSetting : Type := (list Q * option bool * bool)%type.

Record FitterStepFit : Type := mkFit {
  getGroupStrainPenalty : option string -> nat -> GroupSetting;
  getGroupCurvaturePenalty : option string -> nat -> GroupSetting
}.

(** The fields made by [_defineCommonMeshFields]: the per-element constant
    penalty fields and the three active mesh groups. *)
Record PenaltyFields : Type := mkPenaltyFields {
  strainPenaltyField : gmap nat (list Q);
  curvaturePenaltyField : gmap nat (list Q);
  deformActiveMeshGroup : gset nat;
  strainActiveMeshGroup : gset nat;
  curvatureActiveMeshGroup : gset nat
}.

(** The part of the fitter this method reads and writes.  [mesh] holds, by
    dimension minus one, the element identifiers of each mesh in iterator
    order; [groupList] is [getGroupList(self._fieldmodule)];
    [penaltyFields] is [None] while the fields are not defined (they are
    not for a model of dimension below 2). *)
Record Fitter : Type := mkFitter {
  mesh : list (list nat);
  groupList : list Group;
  penaltyFields : option PenaltyFields;
  diagnosticLevel : Z
}.

(** [Fitter.getHighestDimensionMesh]: dimension and elements of the highest
    dimension mesh that has elements. *)
Definition getHighestDimensionMesh (ft : Fitter) : option (nat * list nat) :=
  let candidate d :=
    match mesh ft !! d with
    | Some (e :: es) => Some (d + 1, e :: es)
    | _ => None
    end in
  match candidate 2 with
  | Some m => Some m
  | None => match candidate 1 with
            | Some m => Some m
            | None => candidate 0
            end
  end.

(** [any((s > 0.0) for s in penalty)] *)
Definition anyPositive (penalty : list Q) : bool :=
  existsb (fun s => negb (Qle_bool s 0)) penalty.

(** [setLocally or ((setLocally is False) and inheritable)] *)
Definition isSet (setLocally : option bool) (inheritable : bool) : bool :=
  match setLocally with
  | Some true => true
  | Some false => inheritable
  | None => false
  end.

(** An entry of the local list [groups]; [entryMeshGroup] is [None] for the
    default entry, for which [group] is [None] in the source. *)
Record GroupEntry : Type := mkEntry {
  entryName : option string;
  entryMeshGroup : option (gset nat);
  groupStrainPenalty : list Q;
  groupStrainPenaltyNonZero : bool;
  groupStrainSet : bool;
  groupCurvaturePenalty : list Q;
  groupCurvaturePenaltyNonZero : bool;
  groupCurvatureSet : bool
}.

Definition makeEntry (fit : FitterStepFit) (strainComponents curvatureComponents : nat)
    (name : option string) (meshGroup : option (gset nat)) : GroupEntry :=
  let '(strain, strainLocal, strainInheritable) :=
    getGroupStrainPenalty fit name strainComponents in
  let '(curvature, curvatureLocal, curvatureInheritable) :=
    getGroupCurvaturePenalty fit name curvatureComponents in
  {| entryName := name;
     entryMeshGroup := meshGroup;
     groupStrainPenalty := strain;
     groupStrainPenaltyNonZero := anyPositive strain;
     groupStrainSet := isSet strainLocal strainInheritable;
     groupCurvaturePenalty := curvature;
     groupCurvaturePenaltyNonZero := anyPositive curvature;
     groupCurvatureSet := isSet curvatureLocal curvatureInheritable |}.

(** The first loop: named groups with a valid, non-empty element group in
    the mesh, then the default entry. *)
Definition buildGroups (fit : FitterStepFit) (strainComponents curvatureComponents : nat)
    (groups : list Group) : list GroupEntry :=
  omap (fun g =>
          match elementGroup g with
          | None => None
          | Some meshGroup =>
              if Nat.eqb (size meshGroup) 0 then None
              else Some (makeEntry fit strainComponents curvatureComponents
                           (Some (groupName g)) (Some meshGroup))
          end) groups
  ++ [makeEntry fit strainComponents curvatureComponents None None].

(** Python truthiness of a variable holding [None] or a list. *)
Definition truthy (v : option (list Q)) : bool :=
  match v with
  | Some (_ :: _) => true
  | _ => false
  end.

(** The four locals of the element loop. *)
Record Resolved : Type := mkResolved {
  strainPenalty : option (list Q);
  strainPenaltyNonZero : bool;
  curvaturePenalty : option (list Q);
  curvaturePenaltyNonZero : bool
}.

Definition unresolved : Resolved :=
  {| strainPenalty := None; strainPenaltyNonZero := false;
     curvaturePenalty := None; curvaturePenaltyNonZero := false |}.

Definition containsElement (entry : GroupEntry) (element : nat) : bool :=
  match entryMeshGroup entry with
  | None => true
  | Some meshGroup => bool_decide (element ∈ meshGroup)
  end.

Definition isDefault (entry : GroupEntry) : bool :=
  match entryMeshGroup entry with None => true | Some _ => false end.

(** Body of the inner [for ... in groups] loop. *)
Definition resolveStep (element : nat) (r : Resolved) (entry : GroupEntry) : Resolved :=
  if containsElement entry element then
    let r1 :=
      if negb (truthy (strainPenalty r)) && (groupStrainSet entry || isDefault entry) then
        {| strainPenalty := Some (groupStrainPenalty entry);
           strainPenaltyNonZero := groupStrainPenaltyNonZero entry;
           curvaturePenalty := curvaturePenalty r;
           curvaturePenaltyNonZero := curvaturePenaltyNonZero r |}
      else r in
    if negb (truthy (curvaturePenalty r1)) && (groupCurvatureSet entry || isDefault entry) then
      {| strainPenalty := strainPenalty r1;
         strainPenaltyNonZero := strainPenaltyNonZero r1;
         curvaturePenalty := Some (groupCurvaturePenalty entry);
         curvaturePenaltyNonZero := groupCurvaturePenaltyNonZero entry |}
    else r1
  else r.

Definition resolve (groups : list GroupEntry) (element : nat) : Resolved :=
  fold_left (resolveStep element) groups unresolved.

(** Body of the [while element.isValid()] loop: resolve, assign both
    fields, add to the active groups.  [assignReal] with [None] is an
    error. *)
Definition assignElement (groups : list GroupEntry) (element : nat) : M PenaltyFields unit :=
  fun pf =>
    let r := resolve groups element in
    match strainPenalty r, curvaturePenalty r with
    | Some strain, Some curvature =>
        (Return tt,
         {| strainPenaltyField := <[element := strain]> (strainPenaltyField pf);
            curvaturePenaltyField := <[element := curvature]> (curvaturePenaltyField pf);
            deformActiveMeshGroup :=
              if strainPenaltyNonZero r || curvaturePenaltyNonZero r
              then {[element]} ∪ deformActiveMeshGroup pf
              else deformActiveMeshGroup pf;
            strainActiveMeshGroup :=
              if strainPenaltyNonZero r
              then {[element]} ∪ strainActiveMeshGroup pf
              else strainActiveMeshGroup pf;
            curvatureActiveMeshGroup :=
              if curvaturePenaltyNonZero r
              then {[element]} ∪ curvatureActiveMeshGroup pf
              else curvatureActiveMeshGroup pf |})
    | _, _ => (Raise (TypeError "assignReal: values is None"), pf)
    end.

Definition removeAllElements (pf : PenaltyFields) : PenaltyFields :=
  {| strainPenaltyField := strainPenaltyField pf;
     curvaturePenaltyField := curvaturePenaltyField pf;
     deformActiveMeshGroup := ∅;
     strainActiveMeshGroup := ∅;
     curvatureActiveMeshGroup := ∅ |}.

Definition setPenaltyFields (ft : Fitter) (pf : PenaltyFields) : Fitter :=
  {| mesh := mesh ft; groupList := groupList ft;
     penaltyFields := Some pf; diagnosticLevel := diagnosticLevel ft |}.

(** [Fitter.assignDeformationPenalties(fitterStepFit)]; returns the deform,
    strain and curvature active mesh groups. *)
Definition assignDeformationPenalties (fit : FitterStepFit)
    : M Fitter (gset nat * gset nat * gset nat) :=
  fun ft =>
    match getHighestDimensionMesh ft with
    | None => (Raise (AttributeError "NoneType has no attribute getDimension"), ft)
    | Some (dimension, elements) =>
        let strainComponents := if Nat.eqb dimension 3 then 9 else 4 in
        let curvatureComponents := if Nat.eqb dimension 3 then 27 else 8 in
        let groups := buildGroups fit strainComponents curvatureComponents (groupList ft) in
        match penaltyFields ft with
        | None => (Raise (AttributeError "NoneType has no attribute removeAllElements"), ft)
        | Some pf =>
            match for_each elements (assignElement groups) (removeAllElements pf) with
            | (Return _, pf') =>
                (Return (deformActiveMeshGroup pf', strainActiveMeshGroup pf',
                         curvatureActiveMeshGroup pf'),
                 setPenaltyFields ft pf')
            | (Raise e, pf') => (Raise e, setPenaltyFields ft pf')
            end
        end
    end.

End Penalty.

(** ** 4.3 Alignment: [FitterStepAlign._doAutoAlign] and [_optimiseAlignment] *)

Module Align.
Import PyDict.

(** *** Marker name matching: [name.strip().casefold()] on ASCII names *)

Definition isSpace (c : ascii) : bool :=
  let n := nat_of_ascii c in
  Nat.eqb n 32 || (Nat.leb 9 n && Nat.leb n 13) || (Nat.leb 28 n && Nat.leb n 31).

Fixpoint lstrip (s : string) : string :=
  match s with
  | String c s' => if isSpace c then lstrip s' else s
  | EmptyString => EmptyString
  end.

Fixpoint rstrip (s : string) : string :=
  match s with
  | String c s' =>
      match rstrip s' with
      | EmptyString => if isSpace c then EmptyString else String c EmptyString
      | t => String c t
      end
  | EmptyString => EmptyString
  end.

Definition strip (s : string) : string := rstrip (lstrip s).

Definition foldChar (c : ascii) : ascii :=
  let n := nat_of_ascii c in
  if Nat.leb 65 n && Nat.leb n 90 then ascii_of_nat (n + 32) else c.

Fixpoint casefold (s : string) : string :=
  match s with
  | String c s' => String (foldChar c) (casefold s')
  | EmptyString => EmptyString
  end.

Section AutoAlign.
(** The type of a coordinate triple; nothing is computed on it here. *)
Context {Vec : Type}.

(** A group as [_doAutoAlign] sees it.  [dataMean] is [None] when
    [getGroupDataProjectionNodesetGroup] returns None, otherwise the result
    of [evaluate_field_nodeset_mean]; [modelMean] is [None] when
    [getGroupDataProjectionMeshGroup] returns None, otherwise the quotient
    of the two mesh integrals. *)
Record GroupInfo : Type := mkGroupInfo {
  infoName : string;
  dataMean : option Vec;
  modelMean : option Vec
}.

(** What [_doAutoAlign] reads from the fitter.  [modelMarkers] and
    [dataMarkers] are the dicts returned by [getNodeNameCentres], [None]
    when one of the marker group, coordinates or name fields is missing. *)
Record AlignInputs : Type := mkAlignInputs {
  groups : list GroupInfo;
  markerGroup : bool;
  modelMarkers : option (list (string * Vec));
  dataMarkers : option (list (string * Vec))
}.

Definition PointMap : Type := list (string * (Vec * Vec)).

(** State of the marker matching loops: the map being built, the data
    marker dict (entries are popped from it) and the lines printed. *)
Record MatchState : Type := mkMatchState {
  pointMap : PointMap;
  remainingData : list (string * Vec);
  printed : list string
}.

(** [if self._alignGroups:] block *)
Definition addGroups (gs : list GroupInfo) (pm : PointMap) : PointMap :=
  fold_left (fun pm g =>
               match dataMean g, modelMean g with
               | Some d, Some m => dictSet (infoName g) (m, d) pm
               | _, _ => pm
               end) gs pm.

(** The inner [for dataName in dataMarkers] loop with its [break]: the
    first data marker whose folded name equals [matchName]. *)
Fixpoint findData (matchName : string) (d : list (string * Vec)) : option (string * Vec) :=
  match d with
  | [] => None
  | (dataName, x) :: d' =>
      if String.eqb (casefold (strip dataName)) matchName then Some (dataName, x)
      else findData matchName d'
  end.

(** Body of [for modelName in modelMarkers]. *)
Definition matchMarker (writeDiagnostics : bool) (st : MatchState)
    (m : string * Vec) : MatchState :=
  let '(modelName, modelx) := m in
  let matchName := casefold (strip modelName) in
  match findData matchName (remainingData st) with
  | Some (dataName, datax) =>
      {| pointMap := dictSet modelName (modelx, datax) (pointMap st);
         remainingData :=
           if writeDiagnostics then dictPop dataName (remainingData st)
           else remainingData st;
         printed :=
           if writeDiagnostics then
             printed st ++
               ["Align:  Model marker '" +:+ modelName +:+ "' found in data" +:+
                  (if String.eqb dataName modelName then ""
                   else " as '" +:+ dataName +:+ "'")]
           else printed st |}
  | None =>
      {| pointMap := pointMap st;
         remainingData := remainingData st;
         printed :=
           if writeDiagnostics then
             printed st ++ ["Align:  Model marker '" +:+ modelName +:+ "' not found in data"]
           else printed st |}
  end.

(** The part of [_doAutoAlign] before the call of [_optimiseAlignment]:
    the point map and the lines printed. *)
Definition buildPointMap (alignGroups alignMarkers : bool) (diagnosticLevel : Z)
    (inp : AlignInputs) : result (PointMap * list string) :=
  let pm := if alignGroups then addGroups (groups inp) [] else [] in
  if alignMarkers then
    if negb (markerGroup inp) then Raise (AssertionError "Align:  No marker group to align with")
    else
      match modelMarkers inp with
      | None => Raise (AssertionError "Align:  No marker group, coordinates or name fields")
      | Some mm =>
          match dataMarkers inp with
          | None => Raise (AssertionError "Align:  No marker data group, coordinates or name fields")
          | Some dm =>
              let writeDiagnostics := (0 <? diagnosticLevel)%Z in
              let st := fold_left (matchMarker writeDiagnostics) mm
                          {| pointMap := pm; remainingData := dm; printed := [] |} in
              Return (pointMap st,
                      if writeDiagnostics then
                        printed st ++
                          map (fun d => "Align:  Data marker '" +:+ fst d +:+ "' not found in model")
                              (remainingData st)
                      else printed st)
          end
      end
  else Return (pm, []).

End AutoAlign.
Arguments GroupInfo : clear implicits.
Arguments AlignInputs : clear implicits.
Arguments PointMap : clear implicits.
Arguments MatchState : clear implicits.

End Align.

Module AlignSolver.

(** What the solver calls outside this repository: the Euler-angle rotation
    matrix of [opencmiss.maths.vectorops], the value of the Zinc objective
    field (per component, the sum over the correspondence nodes of the
    squared difference between data and transformed model coordinates) for
    given rotation, scale and translation constants, and the Zinc
    least-squares optimisation started from such constants ([None] when
    [optimise] does not return RESULT_OK). *)
Class Zinc (F : Type) : Type := mkZinc {
  euler_to_rotation_matrix : F * F * F -> (F * F * F) * (F * F * F) * (F * F * F);
  evaluateObjective :
    list ((F * F * F) * (F * F * F)) -> F * F * F -> F -> F * F * F -> F * F * F;
  optimise :
    list ((F * F * F) * (F * F * F)) -> F * F * F -> F -> F * F * F
    -> option ((F * F * F) * F * (F * F * F))
}.

Section Solver.
Context {F : Type} {ops : FloatOps F} {zinc : Zinc F}.

Definition Vec3 : Type := (F * F * F)%type.
Definition Mat3 : Type := (Vec3 * Vec3 * Vec3)%type.

(** [vectorops.sub], [vectorops.mult], [vectorops.matrix_vector_mult] on
    three components. *)
Definition sub (u v : Vec3) : Vec3 :=
  let '(u0, u1, u2) := u in
  let '(v0, v1, v2) := v in
  (fsub u0 v0, fsub u1 v1, fsub u2 v2).

Definition mult (u : Vec3) (c : F) : Vec3 :=
  let '(u0, u1, u2) := u in (fmul u0 c, fmul u1 c, fmul u2 c).

Definition add3 (u v : Vec3) : Vec3 :=
  let '(u0, u1, u2) := u in
  let '(v0, v1, v2) := v in
  (fadd u0 v0, fadd u1 v1, fadd u2 v2).

Definition dot (r v : Vec3) : F :=
  let '(r0, r1, r2) := r in
  let '(v0, v1, v2) := v in
  fadd (fadd (fadd fzero (fmul r0 v0)) (fmul r1 v1)) (fmul r2 v2).

Definition matrix_vector_mult (m : Mat3) (v : Vec3) : Vec3 :=
  let '(r0, r1, r2) := m in (dot r0 v, dot r1 v, dot r2 v).

(** Python's [min(a, b)] and [max(a, b)]: the first argument unless the
    second is strictly smaller (larger). *)
Definition pymin (a b : F) : F := if flt b a then b else a.
Definition pymax (a b : F) : F := if flt a b then b else a.

Definition min3 (u v : Vec3) : Vec3 :=
  let '(u0, u1, u2) := u in
  let '(v0, v1, v2) := v in
  (pymin u0 v0, pymin u1 v1, pymin u2 v2).

Definition max3 (u v : Vec3) : Vec3 :=
  let '(u0, u1, u2) := u in
  let '(v0, v1, v2) := v in
  (pymax u0 v0, pymax u1 v1, pymax u2 v2).

(** [max(span)] and [sum(values)] of a three-element list *)
Definition maxOf (u : Vec3) : F :=
  let '(u0, u1, u2) := u in pymax (pymax u0 u1) u2.

Definition sumOf (u : Vec3) : F :=
  let '(u0, u1, u2) := u in fadd (fadd (fadd fzero u0) u1) u2.

(** The settings of a [FitterStepAlign] object. *)
Record FitterStepAlign : Type := mkAlign {
  alignGroups : bool;
  alignMarkers : bool;
  rotation : Vec3;
  scale : F;
  translation : Vec3
}.

(** The closed-form seed computed before the search. *)
Record Seed : Type := mkSeed {
  modelCM : Vec3;
  dataCM : Vec3;
  translationOffset : Vec3;
  scaleFactor : F
}.

(** Locals of the [for name, positions in pointMap.items()] loop. *)
Record Sums : Type := mkSums {
  modelsum : Vec3; datasum : Vec3;
  modelMin : Vec3; modelMax : Vec3;
  dataMin : Vec3; dataMax : Vec3
}.

Definition accumulate (s : Sums) (positions : Vec3 * Vec3) : Sums :=
  let '(modelx, datax) := positions in
  {| modelsum := add3 (modelsum s) modelx;
     datasum := add3 (datasum s) datax;
     modelMin := min3 modelx (modelMin s);
     modelMax := max3 modelx (modelMax s);
     dataMin := min3 datax (dataMin s);
     dataMax := max3 datax (dataMax s) |}.

Definition computeSeed (points : list (Vec3 * Vec3)) : result Seed :=
  match points with
  | [] => Raise IndexError
  | (model0, data0) :: _ =>
      let s := fold_left accumulate points
                 {| modelsum := (fzero, fzero, fzero); datasum := (fzero, fzero, fzero);
                    modelMin := model0; modelMax := model0;
                    dataMin := data0; dataMax := data0 |} in
      match fdiv fone (ofNat (length points)) with
      | None => Raise ZeroDivisionError
      | Some groupScale =>
          let modelCM := mult (modelsum s) groupScale in
          let dataCM := mult (datasum s) groupScale in
          let modelSpan := sub (modelMax s) (modelMin s) in
          let dataSpan := sub (dataMax s) (dataMin s) in
          match fdiv (maxOf dataSpan) (maxOf modelSpan) with
          | None => Raise ZeroDivisionError
          | Some scaleFactor =>
              Return {| modelCM := modelCM; dataCM := dataCM;
                        translationOffset := sub dataCM modelCM;
                        scaleFactor := scaleFactor |}
          end
      end
  end.

(** *** The discrete rotation search *)

(** The loop indices [(x, y, z)] in iteration order. *)
Definition grid : list (nat * nat * nat) :=
  x ← seq 0 2;
  y ← (if Nat.eqb x 0 then seq 0 4 else [0; 2]);
  z ← seq 0 4;
  [(x, y, z)].

(** [rotationAngles = [azimuth, elevation, roll]] *)
Definition rotationAnglesAt (xyz : nat * nat * nat) : Vec3 :=
  let '(x, y, z) := xyz in
  (fmul (fmul fhalf fpi) (ofNat z),
   fmul (fmul fhalf fpi) (ofNat y),
   fmul (fmul fhalf fpi) (ofNat x)).

(** One evaluation of the objective: the indices, the constants assigned to
    the rotation and translation fields, and the summed objective. *)
Record Evaluation : Type := mkEvaluation {
  evalIndex : nat * nat * nat;
  evalRotation : Vec3;
  evalTranslation : Vec3;
  objectiveValue : F
}.

Definition evaluateAt (points : list (Vec3 * Vec3)) (seed : Seed)
    (xyz : nat * nat * nat) : Evaluation :=
  let rotationAngles := rotationAnglesAt xyz in
  let rotationMatrix := euler_to_rotation_matrix rotationAngles in
  let translationFix :=
    mult (sub (matrix_vector_mult rotationMatrix (modelCM seed)) (modelCM seed))
         (scaleFactor seed) in
  let translation := sub (translationOffset seed) translationFix in
  {| evalIndex := xyz;
     evalRotation := rotationAngles;
     evalTranslation := translation;
     objectiveValue :=
       sumOf (evaluateObjective points rotationAngles (scaleFactor seed) translation) |}.

(** State of the search loops: [best] is [None] while [first] is true,
    afterwards it holds [minObjectiveValue], [minRotationAngles] and
    [minTranslation]; [evaluated] lists the evaluations made so far. *)
Record SearchState : Type := mkSearchState {
  best : option Evaluation;
  evaluated : list Evaluation
}.

Definition searchStep (points : list (Vec3 * Vec3)) (seed : Seed)
    (st : SearchState) (xyz : nat * nat * nat) : SearchState :=
  let e := evaluateAt points seed xyz in
  {| best :=
       match best st with
       | None => Some e
       | Some b => if flt (objectiveValue e) (objectiveValue b) then Some e else Some b
       end;
     evaluated := evaluated st ++ [e] |}.

Definition search (points : list (Vec3 * Vec3)) (seed : Seed) : SearchState :=
  fold_left (searchStep points seed) grid {| best := None; evaluated := [] |}.

(** [FitterStepAlign._optimiseAlignment(pointMap)] *)
Definition _optimiseAlignment (pointMap : list (string * (Vec3 * Vec3)))
    : M FitterStepAlign unit :=
  fun step =>
    if length pointMap <? 3 then
      (Raise (AssertionError ("Align:  Only " +:+ pretty (length pointMap)
                               +:+ " points - need at least 3")), step)
    else
      let points := snd <$> pointMap in
      match computeSeed points with
      | Raise e => (Raise e, step)
      | Return seed =>
          match best (search points seed) with
          | None => (Raise (NameError "minRotationAngles"), step)
          | Some start =>
              match optimise points (evalRotation start) (scaleFactor seed)
                      (evalTranslation start) with
              | None =>
                  (Raise (AssertionError "Align:  Alignment to markers optimisation failed"),
                   step)
              | Some (rotation', scale', translation') =>
                  (Return tt,
                   {| alignGroups := alignGroups step;
                      alignMarkers := alignMarkers step;
                      rotation := rotation';
                      scale := scale';
                      translation := mult translation' fone |})
              end
          end
      end.

(** [FitterStepAlign._doAutoAlign]; the lines printed are returned. *)
Definition _doAutoAlign (diagnosticLevel : Z) (inp : Align.AlignInputs Vec3)
    : M FitterStepAlign (list string) :=
  fun step =>
    match Align.buildPointMap (alignGroups step) (alignMarkers step) diagnosticLevel inp with
    | Raise e => (Raise e, step)
    | Return (pointMap, printed) =>
        match _optimiseAlignment pointMap step with
        | (Return _, step') => (Return printed, step')
        | (Raise e, step') => (Raise e, step')
        end
    end.

End Solver.
Arguments FitterStepAlign F : clear implicits.
Arguments Seed F : clear implicits.
Arguments Evaluation F : clear implicits.
Arguments SearchState F : clear implicits.

End AlignSolver.

(** ** 6. Settings persistence: [encodeSettingsJSON], [decodeSettingsJSON] *)

Module Settings.
Import PyDict.

(** Python values that settings hold and JSON documents denote.  [PStep i]
    is a reference to the step object at position [i] of
    [fitter._fitterSteps]; it is what a decoder returns for a step record
    and is not a JSON value. *)
#[local] Set Warnings "-register-all".
Inductive pyval : Type :=
| PNone
| PBool (b : bool)
| PInt (n : Z)
| PFloat (q : Q)
| PStr (s : string)
| PList (l : list pyval)
| PDict (d : list (string * pyval))
| PStep (index : nat).

(** Settings of a [FitterStepAlign], as assigned in its [__init__] and
    [decodeSettingsJSONDict]: any Python value. *)
Record AlignSettings : Type := mkAlignSettings {
  _alignGroups : pyval;
  _alignMarkers : pyval;
  _rotation : pyval;
  _scale : pyval;
  _translation : pyval
}.

Inductive FitterStep : Type :=
| FitterStepConfig
| FitterStepAlign (a : AlignSettings)
| FitterStepFit.

Definition isConfig (s : FitterStep) : bool :=
  match s with FitterStepConfig => true | _ => false end.

(** [FitterStepAlign.__init__] *)
Definition newAlign : AlignSettings :=
  {| _alignGroups := PBool false;
     _alignMarkers := PBool false;
     _rotation := PList [PFloat 0; PFloat 0; PFloat 0];
     _scale := PFloat 1;
     _translation := PList [PFloat 0; PFloat 0; PFloat 0] |}.

(** The settings held by a [Fitter]. *)
Record Fitter : Type := mkFitter {
  _modelCoordinatesFieldName : pyval;
  _dataCoordinatesFieldName : pyval;
  _fibreFieldName : pyval;
  _markerGroupName : pyval;
  _diagnosticLevel : pyval;
  _fitterSteps : list FitterStep
}.

(** [getJsonTypeId]: ["_FitterStepAlign"] is in the source; the other two
    classes are named alike. *)
Definition getJsonTypeId (s : FitterStep) : string :=
  match s with
  | FitterStepConfig => "_FitterStepConfig"
  | FitterStepAlign _ => "_FitterStepAlign"
  | FitterStepFit => "_FitterStepFit"
  end.

(** Modelled from the spec: [FitterStep.encodeSettingsJSONDict] of the base
    class (scaffoldfitter/fitterstep.py is not among the sources).  Each
    step record carries a type discriminator; the base class contributes
    that entry. *)
Definition baseEncodeSettingsJSONDict (s : FitterStep) : list (string * pyval) :=
  [(getJsonTypeId s, PBool true)].

(** [FitterStepAlign.encodeSettingsJSONDict] and, for the two classes whose
    source is absent, the base dict alone. *)
Definition encodeSettingsJSONDict (s : FitterStep) : list (string * pyval) :=
  match s with
  | FitterStepAlign a =>
      dictUpdate (baseEncodeSettingsJSONDict s)
        [("alignGroups", _alignGroups a);
         ("alignMarkers", _alignMarkers a);
         ("rotation", _rotation a);
         ("scale", _scale a);
         ("translation", _translation a)]
  | _ => baseEncodeSettingsJSONDict s
  end.

(** [Fitter.encodeSettingsJSON]: the dict handed to [json.dumps].  A JSON
    text is represented by the value it denotes. *)
Definition encodeSettingsJSON (ft : Fitter) : pyval :=
  PDict
    [("modelCoordinatesField", _modelCoordinatesFieldName ft);
     ("dataCoordinatesField", _dataCoordinatesFieldName ft);
     ("fibreField", _fibreFieldName ft);
     ("markerGroup", _markerGroupName ft);
     ("diagnosticLevel", _diagnosticLevel ft);
     ("fitterSteps", PList (PDict ∘ encodeSettingsJSONDict <$> _fitterSteps ft))].

(** A JSON text in which no object repeats a key.  Such a text is
    represented below by the value it denotes; of a repeated key
    [json.loads] keeps the last value, which the representation does not
    follow. *)
Fixpoint distinctKeys (v : pyval) : bool :=
  match v with
  | PList l => forallb distinctKeys l
  | PDict d =>
      bool_decide (NoDup (fst <$> d)) && forallb (fun kv => distinctKeys (snd kv)) d
  | _ => true
  end.

(** [json.loads(s, object_hook=hook)] on a text without repeated keys: every
    JSON object, innermost first and in document order, is replaced by the
    result of the hook.  [loadsItems] and [loadsMembers] decode the elements
    of an array and the members of an object with the decoder [rec] for
    values. *)
Definition loadsItems (rec : pyval -> M Fitter pyval) : list pyval -> M Fitter (list pyval) :=
  fix items (l : list pyval) : M Fitter (list pyval) :=
    match l with
    | [] => ret []
    | x :: l' =>
        let! x' := rec x in
        let! l'' := items l' in
        ret (x' :: l'')
    end.

Definition loadsMembers (rec : pyval -> M Fitter pyval)
    : list (string * pyval) -> M Fitter (list (string * pyval)) :=
  fix members (d : list (string * pyval)) : M Fitter (list (string * pyval)) :=
    match d with
    | [] => ret []
    | (k, x) :: d' =>
        let! x' := rec x in
        let! d'' := members d' in
        ret ((k, x') :: d'')
    end.

Fixpoint loads (object_hook : list (string * pyval) -> M Fitter pyval) (v : pyval)
    : M Fitter pyval :=
  match v with
  | PList l =>
      let! l' := loadsItems (loads object_hook) l in
      ret (PList l')
  | PDict d =>
      let! d' := loadsMembers (loads object_hook) d in
      object_hook d'
  | _ => ret v
  end.

Definition setFitterSteps (steps : list FitterStep) (ft : Fitter) : Fitter :=
  {| _modelCoordinatesFieldName := _modelCoordinatesFieldName ft;
     _dataCoordinatesFieldName := _dataCoordinatesFieldName ft;
     _fibreFieldName := _fibreFieldName ft;
     _markerGroupName := _markerGroupName ft;
     _diagnosticLevel := _diagnosticLevel ft;
     _fitterSteps := steps |}.

(** [d[key]] *)
Definition dictItem (key : string) (d : list (string * pyval)) : result pyval :=
  match dictGet key d with
  | Some v => Return v
  | None => Raise (KeyError key)
  end.

(** The statements of [FitterStepAlign.decodeSettingsJSONDict(dctIn)] that
    follow the call of the base class method, on a step holding [a]. *)
Definition decodeAlign (a : AlignSettings) (dctIn : list (string * pyval))
    : result AlignSettings :=
  let dct := dictUpdate (encodeSettingsJSONDict (FitterStepAlign a)) dctIn in
  match dictItem "alignGroups" dct, dictItem "alignMarkers" dct,
        dictItem "rotation" dct, dictItem "scale" dct, dictItem "translation" dct with
  | Return g, Return m, Return r, Return s, Return t =>
      Return {| _alignGroups := g; _alignMarkers := m; _rotation := r;
                _scale := s; _translation := t |}
  | Raise e, _, _, _, _ => Raise e
  | _, Raise e, _, _, _ => Raise e
  | _, _, Raise e, _, _ => Raise e
  | _, _, _, Raise e, _ => Raise e
  | _, _, _, _, Raise e => Raise e
  end.

(** [FitterStepAlign.decodeSettingsJSONDict(dctIn)].  Its first statement
    is [super().decodeSettingsJSONDict(dctIn)], a method of the base class
    whose source is absent: [baseDecodeSettingsJSONDict] tells whether that
    call raises.  What the call decodes (the group settings) is state of the
    base class that the align step does not read. *)
Definition decodeSettingsJSONDict
    (baseDecodeSettingsJSONDict : list (string * pyval) -> option exn)
    (a : AlignSettings) (dctIn : list (string * pyval)) : result AlignSettings :=
  match baseDecodeSettingsJSONDict dctIn with
  | Some e => Raise e
  | None => decodeAlign a dctIn
  end.

(** [Fitter.addFitterStep(step)] with no reference step, returning the
    reference to the added step. *)
Definition addFitterStep (s : FitterStep) : M Fitter pyval :=
  fun ft => (Return (PStep (length (_fitterSteps ft))),
             setFitterSteps (_fitterSteps ft ++ [s]) ft).

(** Modelled from the spec: the decoder passed to [decodeSettingsJSON]
    (it is not among the sources).  A record that carries the type
    discriminator of a step class is decoded as a new step of that class,
    which is added to the fitter and then decodes its own fields (for such a
    record the base class part of the decoding is taken to return); any
    other JSON object is returned as it is. *)
Definition decodeJSONFitterSteps (dct : list (string * pyval)) : M Fitter pyval :=
  if dictHas "_FitterStepAlign" dct then
    match decodeAlign newAlign dct with
    | Return a => addFitterStep (FitterStepAlign a)
    | Raise e => run! addFitterStep (FitterStepAlign newAlign) in raise e
    end
  else if dictHas "_FitterStepConfig" dct then addFitterStep FitterStepConfig
  else if dictHas "_FitterStepFit" dct then addFitterStep FitterStepFit
  else ret (PDict dct).

(** [settings.get(key)] *)
Definition settingsGet (key : string) (settings : pyval) : result pyval :=
  match settings with
  | PDict d => Return (default PNone (dictGet key d))
  | _ => Raise (AttributeError "object has no attribute 'get'")
  end.

(** [settings[key]]; indexing a list with a string is a TypeError. *)
Definition settingsItem (key : string) (settings : pyval) : result pyval :=
  match settings with
  | PDict d => dictItem key d
  | _ => Raise (TypeError "indices must be integers")
  end.

Definition liftResult {A : Type} (r : result A) : M Fitter A := fun ft => (r, ft).

(** [Fitter.decodeSettingsJSON(s, decoder)] *)
Definition decodeSettingsJSON (s : pyval)
    (decoder : list (string * pyval) -> M Fitter pyval) : M Fitter unit :=
  let! old := get in
  let oldFitterSteps := _fitterSteps old in
  run! modify (setFitterSteps []) in
  let! settings := loads decoder s in
  let! ft := get in
  match _fitterSteps ft with
  | first :: _ =>
      if isConfig first then
        let! v := liftResult (settingsGet "modelCoordinatesField" settings) in
        run! modify (fun ft => {| _modelCoordinatesFieldName := v;
                                  _dataCoordinatesFieldName := _dataCoordinatesFieldName ft;
                                  _fibreFieldName := _fibreFieldName ft;
                                  _markerGroupName := _markerGroupName ft;
                                  _diagnosticLevel := _diagnosticLevel ft;
                                  _fitterSteps := _fitterSteps ft |}) in
        let! v := liftResult (settingsGet "dataCoordinatesField" settings) in
        run! modify (fun ft => {| _modelCoordinatesFieldName := _modelCoordinatesFieldName ft;
                                  _dataCoordinatesFieldName := v;
                                  _fibreFieldName := _fibreFieldName ft;
                                  _markerGroupName := _markerGroupName ft;
                                  _diagnosticLevel := _diagnosticLevel ft;
                                  _fitterSteps := _fitterSteps ft |}) in
        let! v := liftResult (settingsGet "fibreField" settings) in
        run! modify (fun ft => {| _modelCoordinatesFieldName := _modelCoordinatesFieldName ft;
                                  _dataCoordinatesFieldName := _dataCoordinatesFieldName ft;
                                  _fibreFieldName := v;
                                  _markerGroupName := _markerGroupName ft;
                                  _diagnosticLevel := _diagnosticLevel ft;
                                  _fitterSteps := _fitterSteps ft |}) in
        let! v := liftResult (settingsGet "markerGroup" settings) in
        run! modify (fun ft => {| _modelCoordinatesFieldName := _modelCoordinatesFieldName ft;
                                  _dataCoordinatesFieldName := _dataCoordinatesFieldName ft;
                                  _fibreFieldName := _fibreFieldName ft;
                                  _markerGroupName := v;
                                  _diagnosticLevel := _diagnosticLevel ft;
                                  _fitterSteps := _fitterSteps ft |}) in
        let! v := liftResult (settingsItem "diagnosticLevel" settings) in
        modify (fun ft => {| _modelCoordinatesFieldName := _modelCoordinatesFieldName ft;
                             _dataCoordinatesFieldName := _dataCoordinatesFieldName ft;
                             _fibreFieldName := _fibreFieldName ft;
                             _markerGroupName := _markerGroupName ft;
                             _diagnosticLevel := v;
                             _fitterSteps := _fitterSteps ft |})
      else
        run! modify (setFitterSteps oldFitterSteps) in
        raise (AssertionError "Missing initial config step")
  | [] =>
      run! modify (setFitterSteps oldFitterSteps) in
      raise (AssertionError "Missing initial config step")
  end.

End Settings.

(** ** 6. Fitted-geometry export: [Fitter.writeModel] *)

Module ModelExport.

(** A request handed to [region.write]: the file of the file resource and
    the field names set on it. *)
Record WriteRequest : Type := mkWriteRequest {
  fileName : string;
  resourceFieldNames : list string
}.

(** The fitter as [writeModel] sees it: its settings, the model coordinates
    field (a field identifier, [None] before a load), the names of the
    fields of the region's field module, and the requests written so far. *)
Record Fitter : Type := mkFitter {
  settings : Settings.Fitter;
  _modelCoordinatesField : option nat;
  fieldNames : gmap nat string;
  written : list WriteRequest
}.

(** Zinc's [Field.setName]: a name in use by another field of the field
    module is refused and the field keeps its name; the result code is not
    looked at by [writeModel]. *)
Definition nameInUse (names : gmap nat string) (field : nat) (name : string) : bool :=
  bool_decide (map_Exists (fun g n => g ≠ field ∧ n = name) names).

Definition setName (field : nat) (name : string) (names : gmap nat string)
    : gmap nat string :=
  if nameInUse names field name then names else <[field := name]> names.

Section WriteModel.
(** [self._region.write(sir) == RESULT_OK], for the field names at the time
    of the call and the request. *)
Variable regionWrite : gmap nat string -> WriteRequest -> bool.

(** [Fitter.writeModel(modelFileName)] *)
Definition writeModel (modelFileName : string) : M Fitter unit :=
  fun ft =>
    match Settings._modelCoordinatesFieldName (settings ft) with
    | Settings.PStr name =>
        let outputCoordinatesFieldName := "fitted " +:+ name in
        match _modelCoordinatesField ft with
        | None => (Raise (AttributeError "NoneType has no attribute setName"), ft)
        | Some field =>
            let names1 := setName field outputCoordinatesFieldName (fieldNames ft) in
            let request := {| fileName := modelFileName;
                              resourceFieldNames := [outputCoordinatesFieldName] |} in
            let ok := regionWrite names1 request in
            let ft' := {| settings := settings ft;
                          _modelCoordinatesField := _modelCoordinatesField ft;
                          fieldNames := setName field name names1;
                          written := written ft ++ [request] |} in
            if ok then (Return tt, ft') else (Raise (AssertionError ""), ft')
        end
    | _ => (Raise (TypeError "can only concatenate str to str"), ft)
    end.

End WriteModel.

End ModelExport.

(** ** Datapoint identifiers in [Fitter._loadData] *)

Module DataIdentifiers.

(** [getMaximumNodeIdentifier(nodeset)]: the greatest identifier, -1 for an
    empty nodeset. *)
Definition getMaximumNodeIdentifier (identifiers : list Z) : Z :=
  fold_right Z.max (-1)%Z identifiers.

(** The loop [while (maximumDatapointIdentifier > identifierOffset) or
    (maximumNodeIdentifier > identifierOffset)], with its assertion; [fuel]
    bounds the number of tests of the loop condition, and the result is
    [None] when it is used up. *)
Fixpoint offsetLoop (fuel : nat) (maximumDatapointIdentifier maximumNodeIdentifier
    identifierOffset : Z) : option (result Z) :=
  match fuel with
  | 0 => None
  | S fuel' =>
      if (identifierOffset <? maximumDatapointIdentifier)%Z
         || (identifierOffset <? maximumNodeIdentifier)%Z then
        if (identifierOffset <? 1000000000)%Z then
          offsetLoop fuel' maximumDatapointIdentifier maximumNodeIdentifier
            (identifierOffset * 10)%Z
        else Some (Raise (AssertionError "Invalid node and datapoint identifier ranges"))
      else Some (Return identifierOffset)
  end.

(** [datapoint.setIdentifier(identifier)] on a nodeset held in identifier
    order, for the datapoint just taken from its front. *)
Fixpoint insertSorted (identifier : Z) (identifiers : list Z) : list Z :=
  match identifiers with
  | [] => [identifier]
  | y :: identifiers' =>
      if (identifier <? y)%Z then identifier :: identifiers
      else y :: insertSorted identifier identifiers'
  end.

(** The loop [while True] that offsets the datapoint identifiers.  The
    datapoints are given by their identifiers in identifier order, which is
    the order of the node iterator; [setIdentifier] fails for an identifier
    in use.  The result is [None] when [fuel] passes are not enough. *)
Fixpoint shiftLoop (fuel : nat) (identifierOffset : Z) (datapoints : list Z)
    : option (result (list Z)) :=
  match fuel with
  | 0 => None
  | S fuel' =>
      match datapoints with
      | [] => Some (Raise (AssertionError "Failed to offset datapoint identifier"))
      | identifier :: others =>
          if (identifierOffset <=? identifier)%Z then Some (Return datapoints)
          else if bool_decide ((identifier + identifierOffset)%Z ∈ others) then
            Some (Raise (AssertionError "Failed to offset datapoint identifier"))
          else shiftLoop fuel' identifierOffset
                 (insertSorted (identifier + identifierOffset)%Z others)
      end
  end.

(** The block under [if datapoints.getSize() > 0], for the identifiers of
    the nodes and of the datapoints of the raw data region: the offset
    chosen and the datapoint identifiers afterwards. *)
Definition offsetDatapoints (nodes datapoints : list Z) : option (result (Z * list Z)) :=
  let maximumDatapointIdentifier := Z.max 0 (getMaximumNodeIdentifier datapoints) in
  let maximumNodeIdentifier := Z.max 0 (getMaximumNodeIdentifier nodes) in
  match offsetLoop 5 maximumDatapointIdentifier maximumNodeIdentifier 100000 with
  | None => None
  | Some (Raise e) => Some (Raise e)
  | Some (Return identifierOffset) =>
      match shiftLoop (length datapoints + 1) identifierOffset datapoints with
      | None => None
      | Some (Raise e) => Some (Raise e)
      | Some (Return shifted) => Some (Return (identifierOffset, shifted))
      end
  end.

End DataIdentifiers.

(** ** Renaming the data groups in [Fitter._loadData] *)

Module GroupNames.

(** How the inner loop over [modelGroupNames] ends for a data group: at a
    model group of exactly its name, at the first model group of its name up
    to case and white space, or without a match.  The names are compared
    with [Align.strip] and [Align.casefold], which are Python's on ASCII
    names. *)
Inductive Match : Type :=
| Exact
| Rename (modelGroupName : string)
| NotFound.

Fixpoint findModelGroup (dataGroupName : string) (modelGroupNames : list string) : Match :=
  match modelGroupNames with
  | [] => NotFound
  | modelGroupName :: rest =>
      if String.eqb modelGroupName dataGroupName then Exact
      else if String.eqb (Align.casefold (Align.strip modelGroupName))
                (Align.casefold (Align.strip dataGroupName))
      then Rename modelGroupName
      else findModelGroup dataGroupName rest
  end.

(** State of the loop over the data groups: the names of the fields of the
    raw data region and the lines printed. *)
Record RenameState : Type := mkRenameState {
  names : gmap nat string;
  printed : list string
}.

(** Body of [for dataGroup in getGroupList(fieldmodule)]; a data group is
    given by the identifier of its field. *)
Definition renameGroup (modelGroupNames : list string) (writeDiagnostics : bool)
    (st : RenameState) (dataGroup : nat) : RenameState :=
  match names st !! dataGroup with
  | None => st
  | Some dataGroupName =>
      let say (line : string) :=
        if writeDiagnostics then printed st ++ [line] else printed st in
      match findModelGroup dataGroupName modelGroupNames with
      | Exact =>
          {| names := names st;
             printed := say ("Load data: Data group '" +:+ dataGroupName
                             +:+ "' found in model") |}
      | Rename modelGroupName =>
          if ModelExport.nameInUse (names st) dataGroup modelGroupName then
            {| names := names st;
               printed :=
                 printed st
                 ++ ["Error: Load data: Data group '" +:+ dataGroupName
                     +:+ "' found in model as '" +:+ modelGroupName
                     +:+ "'. Renaming to match FAILED.";
                     "    Reason: field of that name already exists."] |}
          else
            {| names := <[dataGroup := modelGroupName]> (names st);
               printed := say ("Load data: Data group '" +:+ dataGroupName
                               +:+ "' found in model as '" +:+ modelGroupName
                               +:+ "'. Renaming to match.") |}
      | NotFound =>
          {| names := names st;
             printed := say ("Load data: Data group '" +:+ dataGroupName
                             +:+ "' not found in model") |}
      end
  end.

(** The renaming loop of [_loadData]. *)
Definition renameDataGroups (modelGroupNames : list string) (diagnosticLevel : Z)
    (dataGroups : list nat) (fieldNames : gmap nat string) : RenameState :=
  fold_left (renameGroup modelGroupNames (0 <? diagnosticLevel)%Z) dataGroups
    {| names := fieldNames; printed := [] |}.

End GroupNames.

(** * Verification *)

(** ** The monad *)

Lemma bind_return {S A B : Type} (m : M S A) (k : A -> M S B) (s s' : S) (a : A) :
  m s = (Return a, s') -> bind m k s = k a s'.
Proof. intros E. unfold bind. now rewrite E. Qed.

Lemma bind_raise {S A B : Type} (m : M S A) (k : A -> M S B) (s s' : S) (e : exn) :
  m s = (Raise e, s') -> bind m k s = (Raise e, s').
Proof. intros E. unfold bind. now rewrite E. Qed.

(** ** Step pipeline *)

Section PipelineFacts.
Import Pipeline.

(** The index [run] works with: that of [endStep], or of the last step. *)
Definition endIndexOf (ft : Fitter) (endStep : option nat) : option nat :=
  match endStep with
  | Some id => index id (fitterSteps ft)
  | None =>
      match last (fitterSteps ft) with
      | Some s => index (stepId s) (fitterSteps ft)
      | None => None
      end
  end.

(** The claim's reading of the reload condition: the target has run and
    some step after it has run. *)
Definition someLaterStepHasRun (ft : Fitter) (endIndex : nat) : bool :=
  hasRunAt ft endIndex
  && existsb (hasRunAt ft) (seq (endIndex + 1) (length (fitterSteps ft) - (endIndex + 1))).

(** Steps that have run form an initial segment of the step list. *)
Definition runsAreInitial (ft : Fitter) : Prop :=
  forall i j, i <= j -> hasRunAt ft j = true -> hasRunAt ft i = true.

Definition runEvent (stem : option string) (i : nat) : Event := EvRun i (stemFor stem i).

Lemma index_lt (id : nat) (steps : list FitterStep) (i : nat) :
  index id steps = Some i -> i < length steps.
Proof.
  revert i. induction steps as [|s steps IH]; intros i; simpl; [discriminate|].
  destruct (Nat.eqb (stepId s) id).
  - intros [= <-]. lia.
  - destruct (index id steps) as [k|]; simpl; [|discriminate].
    intros [= <-]. specialize (IH k eq_refl). lia.
Qed.

Lemma endIndexOf_lt (ft : Fitter) (endStep : option nat) (i : nat) :
  endIndexOf ft endStep = Some i -> i < length (fitterSteps ft).
Proof.
  unfold endIndexOf. destruct endStep as [id|].
  - apply index_lt.
  - destruct (last (fitterSteps ft)); [apply index_lt | discriminate].
Qed.

Lemma hasRunAt_ge (ft : Fitter) (j : nat) :
  length (fitterSteps ft) <= j -> hasRunAt ft j = false.
Proof.
  intros H. unfold hasRunAt. now rewrite lookup_ge_None_2.
Qed.

Lemma hasRunAt_alter (steps : list FitterStep) (l : list Event) (i j : nat) :
  i < length steps ->
  hasRunAt {| fitterSteps := alter (setHasRun true) i steps; log := l |} j
  = if Nat.eqb i j then true else hasRunAt {| fitterSteps := steps; log := l |} j.
Proof.
  intros H. unfold hasRunAt. simpl.
  destruct (Nat.eqb_spec i j) as [->|Hne].
  - rewrite list_lookup_alter_eq.
    destruct (lookup_lt_is_Some_2 _ _ H) as [s ->]. reflexivity.
  - now rewrite list_lookup_alter_ne.
Qed.

Lemma hasRunAt_cleared (steps : list FitterStep) (l : list Event) (j : nat) :
  hasRunAt {| fitterSteps := setHasRun false <$> steps; log := l |} j = false.
Proof.
  unfold hasRunAt. simpl. rewrite list_lookup_fmap.
  destruct (steps !! j); reflexivity.
Qed.

Lemma ids_alter (b : bool) (i : nat) (steps : list FitterStep) :
  stepId <$> alter (setHasRun b) i steps = stepId <$> steps.
Proof.
  revert i. induction steps as [|s steps IH]; intros [|i]; cbn; try reflexivity.
  f_equal. apply IH.
Qed.

Lemma ids_cleared (steps : list FitterStep) :
  stepId <$> (setHasRun false <$> steps) = stepId <$> steps.
Proof. induction steps as [|s steps IH]; cbn; [reflexivity | now f_equal]. Qed.

Variable loadOutcome : list Event -> option exn.
Variable stepOutcome : FitterStep -> list Event -> option exn.

(** A step's [run] that returns has set the flag of the step and nothing
    else. *)
Lemma stepRun_return (i : nat) (stem : option string) (ft ft' : Fitter) :
  stepRun stepOutcome i stem ft = (Return tt, ft') ->
  i < length (fitterSteps ft)
  /\ ft' = {| fitterSteps := alter (setHasRun true) i (fitterSteps ft);
              log := log ft ++ [EvRun i stem] |}.
Proof.
  unfold stepRun. destruct (fitterSteps ft !! i) as [s|] eqn:Hs; [|discriminate].
  destruct (stepOutcome s (log ft)); [discriminate|].
  intros [= <-]. split; [|reflexivity]. now apply lookup_lt_Some in Hs.
Qed.

(** A [load] that returns has cleared every flag and run the initial
    step. *)
Lemma load_return (ft ft' : Fitter) :
  load loadOutcome stepOutcome ft = (Return tt, ft') ->
  0 < length (fitterSteps ft)
  /\ ft' = {| fitterSteps := alter (setHasRun true) 0 (setHasRun false <$> fitterSteps ft);
              log := log ft ++ [EvReload; EvRun 0 None] |}.
Proof.
  unfold load. destruct (loadOutcome (log ft)); [discriminate|].
  intros Hrun. apply stepRun_return in Hrun as [Hlen ->].
  cbn [fitterSteps log] in *. rewrite length_fmap in Hlen.
  split; [exact Hlen|]. now rewrite <- app_assoc.
Qed.

(** The replay loop after a reload, when it returns: every step from [a] on
    has been run. *)
Lemma replay_all (stem : option string) (k a : nat) (ft ft' : Fitter) :
  for_each (seq a k) (fun i => stepRun stepOutcome i (stemFor stem i)) ft = (Return tt, ft') ->
  log ft' = log ft ++ (runEvent stem <$> seq a k)
  /\ length (fitterSteps ft') = length (fitterSteps ft)
  /\ stepId <$> fitterSteps ft' = stepId <$> fitterSteps ft
  /\ forall j, hasRunAt ft' j = bool_decide (a <= j < a + k) || hasRunAt ft j.
Proof.
  revert a ft. induction k as [|k IH]; intros a ft.
  - cbn. intros [= <-]. rewrite app_nil_r. repeat split; try reflexivity.
    intros j. case_bool_decide; [lia | reflexivity].
  - cbn [seq for_each]. unfold bind at 1.
    destruct (stepRun stepOutcome a (stemFor stem a) ft) as [[[]|e] ft1] eqn:Hstep;
      [|discriminate].
    apply stepRun_return in Hstep as [Ha ->]. intros Hrest.
    apply IH in Hrest as (Hlog & Hl & Hids & Hflags). cbn [fitterSteps log] in *.
    split; [|split; [|split]].
    + rewrite Hlog. cbn. now rewrite <- app_assoc.
    + rewrite Hl. apply length_alter.
    + rewrite Hids. apply ids_alter.
    + intros j. rewrite Hflags, hasRunAt_alter by exact Ha.
      change (hasRunAt _ j) with (hasRunAt ft j) at 1.
      destruct (Nat.eqb_spec a j); repeat case_bool_decide;
        cbn [orb]; try reflexivity; lia.
Qed.

(** The loop of the incremental path, when it returns: the steps from [a]
    on that had not run have been run, the others skipped. *)
Lemma run_pending (stem : option string) (k a : nat) (ft ft' : Fitter) :
  for_each (seq a k)
    (fun i => bind get (fun ft' =>
                if negb (hasRunAt ft' i) then stepRun stepOutcome i (stemFor stem i)
                else ret tt)) ft
  = (Return tt, ft') ->
  a + k <= length (fitterSteps ft) ->
  log ft' = log ft
            ++ (runEvent stem <$> List.filter (fun i => negb (hasRunAt ft i)) (seq a k))
  /\ length (fitterSteps ft') = length (fitterSteps ft)
  /\ stepId <$> fitterSteps ft' = stepId <$> fitterSteps ft
  /\ forall j, hasRunAt ft' j = bool_decide (a <= j < a + k) || hasRunAt ft j.
Proof.
  revert a ft. induction k as [|k IH]; intros a ft.
  - cbn. intros [= <-] _. rewrite app_nil_r. repeat split; try reflexivity.
    intros j. case_bool_decide; [lia | reflexivity].
  - intros Hfor Hlen. assert (Ha : a < length (fitterSteps ft)) by lia.
    cbn [seq for_each List.filter] in Hfor |- *.
    unfold bind at 1 in Hfor. unfold bind at 1 in Hfor. unfold get at 1 in Hfor.
    destruct (hasRunAt ft a) eqn:Hrun; cbn [negb] in Hfor |- *.
    + unfold ret at 1 in Hfor.
      apply IH in Hfor as (Hlog & Hl & Hids & Hflags); [|lia].
      split; [exact Hlog|]. split; [exact Hl|]. split; [exact Hids|].
      intros j. rewrite Hflags.
      destruct (Nat.eqb_spec a j) as [->|Hne].
      * rewrite Hrun. now rewrite !orb_true_r.
      * repeat case_bool_decide; cbn [orb]; try reflexivity; lia.
    + destruct (stepRun stepOutcome a (stemFor stem a) ft) as [[[]|e] ft1] eqn:Hstep;
        [|discriminate].
      apply stepRun_return in Hstep as [_ ->].
      apply IH in Hfor as (Hlog & Hl & Hids & Hflags);
        [|cbn [fitterSteps]; rewrite length_alter; lia].
      cbn [fitterSteps log] in *.
      split; [|split; [|split]].
      * rewrite Hlog. rewrite <- app_assoc. cbn.
        do 3 f_equal. apply filter_ext_in. intros i Hi. apply in_seq in Hi.
        f_equal. rewrite (hasRunAt_alter _ _ a i Ha).
        destruct (Nat.eqb_spec a i); [lia|]. reflexivity.
      * rewrite Hl. apply length_alter.
      * rewrite Hids. apply ids_alter.
      * intros j. rewrite Hflags. rewrite (hasRunAt_alter _ _ a j Ha).
        change (hasRunAt _ j) with (hasRunAt ft j) at 1.
        destruct (Nat.eqb_spec a j); repeat case_bool_decide;
          cbn [orb]; try reflexivity; lia.
Qed.

(** When every step of the range has run, the loop of the incremental path
    calls no step. *)
Lemma run_pending_noop (stem : option string) (k a : nat) (ft : Fitter) :
  (forall i, a <= i < a + k -> hasRunAt ft i = true) ->
  for_each (seq a k)
    (fun i => bind get (fun ft' =>
       if negb (hasRunAt ft' i) then stepRun stepOutcome i (stemFor stem i) else ret tt)) ft
  = (Return tt, ft).
Proof.
  revert a. induction k as [|k IH]; intros a Hall; [reflexivity|].
  cbn [seq for_each]. unfold bind at 1. unfold bind at 1. unfold get at 1.
  rewrite (Hall a) by lia. cbn [negb]. unfold ret at 1.
  apply IH. intros i Hi. apply Hall. lia.
Qed.

Lemma run_unfold (ft : Fitter) (endStep : option nat) (stem : option string) (endIndex : nat) :
  endIndexOf ft endStep = Some endIndex ->
  run loadOutcome stepOutcome endStep stem ft =
    if reloadNeeded ft endIndex then
      bind (load loadOutcome stepOutcome) (fun _ =>
        bind (for_each (seq 1 endIndex) (fun i => stepRun stepOutcome i (stemFor stem i)))
             (fun _ => ret true)) ft
    else if Nat.eqb endIndex 0 then
      bind (stepRun stepOutcome 0 None) (fun _ => ret false) ft
    else
      bind (for_each (seq 1 endIndex)
              (fun i => bind get (fun ft' =>
                 if negb (hasRunAt ft' i) then stepRun stepOutcome i (stemFor stem i)
                 else ret tt)))
           (fun _ => ret false) ft.
Proof.
  unfold endIndexOf, run. destruct endStep as [id|].
  - intros ->. reflexivity.
  - destruct (last (fitterSteps ft)) as [s|]; [|discriminate].
    simpl. intros ->. reflexivity.
Qed.

(** Under the usual discipline (the steps that have run form an initial
    segment) looking at the next step is looking at all later steps. *)
Lemma reloadNeeded_initial (ft : Fitter) (endIndex : nat) :
  runsAreInitial ft ->
  reloadNeeded ft endIndex = someLaterStepHasRun ft endIndex.
Proof.
  intros Hinit. unfold reloadNeeded, someLaterStepHasRun.
  destruct (hasRunAt ft endIndex); cbn [andb]; [|reflexivity].
  destruct (existsb _ _) eqn:Hex.
  - apply existsb_exists in Hex as (j & Hj & Hrun). apply in_seq in Hj.
    assert (Hnext : hasRunAt ft (endIndex + 1) = true)
      by (apply (Hinit _ j); [lia | exact Hrun]).
    rewrite Hnext, andb_true_r. apply Nat.ltb_lt. lia.
  - destruct (Nat.ltb_spec endIndex (length (fitterSteps ft) - 1)) as [Hlt|Hge];
      cbn [andb]; [|reflexivity].
    destruct (hasRunAt ft (endIndex + 1)) eqn:Hnext; [|reflexivity].
    rewrite <- Hex. symmetry. apply existsb_exists.
    exists (endIndex + 1). split; [apply in_seq; lia | exact Hnext].
Qed.

(** What a [run] that returns has done to the flags: the value returned
    tells whether it reloaded. *)
Lemma run_flags (ft : Fitter) (endStep : option nat) (stem : option string) (K : nat)
    (reloaded : bool) (ft1 : Fitter) :
  endIndexOf ft endStep = Some K ->
  run loadOutcome stepOutcome endStep stem ft = (Return reloaded, ft1) ->
  reloaded = reloadNeeded ft K
  /\ length (fitterSteps ft1) = length (fitterSteps ft)
  /\ stepId <$> fitterSteps ft1 = stepId <$> fitterSteps ft
  /\ forall j, hasRunAt ft1 j
               = if reloadNeeded ft K then bool_decide (j <= K)
                 else if Nat.eqb K 0 then bool_decide (j = 0) || hasRunAt ft j
                 else bool_decide (1 <= j < 1 + K) || hasRunAt ft j.
Proof.
  intros Hend. pose proof (endIndexOf_lt _ _ _ Hend) as Hlt.
  rewrite (run_unfold _ _ _ _ Hend).
  destruct (reloadNeeded ft K) eqn:Hreload.
  - unfold bind at 1.
    destruct (load loadOutcome stepOutcome ft) as [[[]|e] ft0] eqn:Hload; [|discriminate].
    apply load_return in Hload as [Hpos ->].
    unfold bind at 1.
    destruct (for_each _ _ _) as [[[]|e] ft'] eqn:Hfor; [|discriminate].
    unfold ret. intros [= <- <-].
    apply replay_all in Hfor as (_ & Hl & Hids & Hflags). cbn [fitterSteps log] in *.
    split; [reflexivity|]. split; [|split].
    + now rewrite Hl, length_alter, length_fmap.
    + now rewrite Hids, ids_alter, ids_cleared.
    + intros j. rewrite Hflags.
      rewrite hasRunAt_alter by (rewrite length_fmap; lia).
      rewrite hasRunAt_cleared.
      destruct (Nat.eqb_spec 0 j); repeat case_bool_decide; cbn [orb]; try reflexivity; lia.
  - destruct (Nat.eqb_spec K 0) as [->|Hnz].
    + unfold bind at 1.
      destruct (stepRun stepOutcome 0 None ft) as [[[]|e] ft'] eqn:Hstep; [|discriminate].
      apply stepRun_return in Hstep as [_ ->]. unfold ret. intros [= <- <-].
      cbn [fitterSteps]. split; [reflexivity|].
      split; [apply length_alter|]. split; [apply ids_alter|].
      intros j. rewrite hasRunAt_alter by exact Hlt.
      change (hasRunAt _ j) with (hasRunAt ft j).
      destruct (Nat.eqb_spec 0 j); case_bool_decide; cbn [orb]; try reflexivity; lia.
    + unfold bind at 1.
      destruct (for_each _ _ _) as [[[]|e] ft'] eqn:Hfor; [|discriminate].
      unfold ret. intros [= <- <-].
      apply run_pending in Hfor as (_ & Hl & Hids & Hflags); [|lia].
      split; [reflexivity|]. split; [exact Hl|]. split; [exact Hids|]. exact Hflags.
Qed.

End PipelineFacts.

(** C1.  The code does not do what the claim says.  Take a pipeline in
    which every step up to the target has run, the step right after the
    target has not (it was added since) and some later step has run: the
    target has run and a step after it has run, so the claim calls for a
    reload and a replay.  [run] instead performs no reload and runs no step:
    it returns False and leaves the fitter as it is, the later step still
    marked as run.  This holds whatever [load] and the steps would do, since
    none of them is called. *)
Theorem run_keeps_later_step_without_reload
    (loadOutcome : list Pipeline.Event -> option exn)
    (stepOutcome : Pipeline.FitterStep -> list Pipeline.Event -> option exn)
    (ft : Pipeline.Fitter) (endStep : option nat) (stem : option string)
    (endIndex later : nat) :
  endIndexOf ft endStep = Some endIndex ->
  0 < endIndex ->
  (forall i, i <= endIndex -> Pipeline.hasRunAt ft i = true) ->
  Pipeline.hasRunAt ft (endIndex + 1) = false ->
  endIndex + 1 < later ->
  Pipeline.hasRunAt ft later = true ->
  Pipeline.run loadOutcome stepOutcome endStep stem ft = (Return false, ft).
Proof.
  intros Hend Hpos Hdone Hnext _ _.
  rewrite (run_unfold _ _ _ _ _ _ Hend).
  unfold Pipeline.reloadNeeded. rewrite Hnext, andb_false_r.
  destruct (Nat.eqb_spec endIndex 0); [lia|].
  rewrite (bind_return _ _ _ _ _ (run_pending_noop stepOutcome stem endIndex 1 ft
                                    ltac:(intros i Hi; apply Hdone; lia))).
  reflexivity.
Qed.

(** The failing input, reached through the interface: a pipeline of a
    config, an align and a fit step is loaded and run to the end; a new fit
    step is added after the align step; [run] up to the align step then
    returns False and changes nothing, although the last step has run. *)
Lemma run_keeps_later_step_without_reload_witness :
  let loads := fun _ : list Pipeline.Event => @None exn in
  let runs := fun (_ : Pipeline.FitterStep) (_ : list Pipeline.Event) => @None exn in
  let ft0 := {| Pipeline.fitterSteps :=
                  [Pipeline.mkStep 10 Pipeline.Config false;
                   Pipeline.mkStep 11 Pipeline.Align false;
                   Pipeline.mkStep 12 Pipeline.Fit false];
                Pipeline.log := [] |} in
  let ft1 := snd (Pipeline.load loads runs ft0) in
  let ft2 := snd (Pipeline.run loads runs None None ft1) in
  let ft3 := snd (Pipeline.addFitterStep (Pipeline.mkStep 14 Pipeline.Fit false) (Some 11) ft2) in
  Pipeline.hasRun <$> Pipeline.fitterSteps ft3 = [true; true; false; true]
  /\ Pipeline.run loads runs (Some 11) None ft3 = (Return false, ft3).
Proof.
  intros loads runs ft0 ft1 ft2 ft3. split; [reflexivity|].
  apply (run_keeps_later_step_without_reload loads runs ft3 (Some 11) None 1 3).
  - reflexivity.
  - lia.
  - intros [|[|i]] Hi; [reflexivity | reflexivity | lia].
  - reflexivity.
  - lia.
  - reflexivity.
Defined.

(** ** Data-proportion subsampling *)

Section SamplingFacts.
Import Sampling.
Context {F : Type} {ops : FloatOps F} {Node Location : Type}.

(** What the proofs about the counter use of float arithmetic.  [finite]
    tells the floats that are numbers (not NaN, not an infinity), [toQ]
    gives their value and [u] bounds the rounding error of a sum of at most
    2.  For binary64 with rounding to nearest [u] is 2^-53: a sum in [0, 2]
    is rounded to a multiple of 2^-52 at most, rounding is monotone and 0,
    1 and 2 are floats, and [x - 1.0] is exact for [1 <= x <= 2]. *)
Record floatModel (toQ : F -> Q) (finite : F -> Prop) (u : Q) : Prop := {
  half_finite : finite fhalf;
  half_value : (toQ fhalf == 1 # 2)%Q;
  one_finite : finite fone;
  one_value : (toQ fone == 1)%Q;
  fle_value : forall a b, finite a -> finite b -> (fle a b = true <-> (toQ a <= toQ b)%Q);
  fadd_rounds : forall a b,
      finite a -> finite b ->
      (0 <= toQ a)%Q -> (0 <= toQ b)%Q -> (toQ a + toQ b <= 2)%Q ->
      finite (fadd a b)
      /\ (toQ a <= toQ (fadd a b))%Q /\ (toQ (fadd a b) <= 2)%Q
      /\ (- u <= toQ (fadd a b) - (toQ a + toQ b))%Q
      /\ (toQ (fadd a b) - (toQ a + toQ b) <= u)%Q;
  fsub_one_exact : forall a,
      finite a -> (1 <= toQ a)%Q -> (toQ a <= 2)%Q ->
      finite (fsub a fone) /\ (toQ (fsub a fone) == toQ a - 1)%Q
}.

Lemma inject_Z_S (k : nat) : (inject_Z (Z.of_nat (S k)) == inject_Z (Z.of_nat k) + 1)%Q.
Proof. rewrite Nat2Z.inj_succ. unfold Z.succ. rewrite inject_Z_plus. reflexivity. Qed.

(** Whether a pass accepts does not depend on what the mesh search
    returns. *)
Lemma accepted_any_search {Location' : Type} (eval : Node -> option Location)
    (eval' : Node -> option Location') (p : F) (nodes : list Node) :
  forall (st : LoopState (Location := Location)) (st' : LoopState (Location := Location')),
    dataProportionCounter st = dataProportionCounter st' ->
    accepted st = accepted st' ->
    accepted (fold_left (visit eval p) nodes st)
    = accepted (fold_left (visit eval' p) nodes st').
Proof.
  induction nodes as [|node nodes IH]; intros st st' Hc Ha; [exact Ha|].
  cbn [fold_left]. apply IH; unfold visit; rewrite Hc;
    destruct (fle fone _); cbn [dataProportionCounter accepted];
    congruence.
Qed.

Section Counting.
Variables (toQ : F -> Q) (finite : F -> Prop) (u : Q).
Hypothesis model : floatModel toQ finite u.
Variable eval : Node -> option Location.
Variable p : F.
Hypothesis p_finite : finite p.
Hypothesis p_positive : (0 < toQ p)%Q.
Hypothesis p_at_most_one : (toQ p <= 1)%Q.

(** One pass: the counter stays a number between 0 and 1, and counter plus
    number of accepted points grows by [p], up to the rounding error. *)
Lemma visit_count (st : LoopState) (node : Node) :
  finite (dataProportionCounter st) ->
  (0 <= toQ (dataProportionCounter st))%Q -> (toQ (dataProportionCounter st) <= 1)%Q ->
  let st' := visit eval p st node in
  finite (dataProportionCounter st')
  /\ (0 <= toQ (dataProportionCounter st'))%Q /\ (toQ (dataProportionCounter st') <= 1)%Q
  /\ exists chosen,
       accepted st' = accepted st ++ chosen
       /\ sublist chosen [node]
       /\ (- u <= toQ (dataProportionCounter st') + inject_Z (Z.of_nat (length chosen))
                  - toQ (dataProportionCounter st) - toQ p)%Q
       /\ (toQ (dataProportionCounter st') + inject_Z (Z.of_nat (length chosen))
           - toQ (dataProportionCounter st) - toQ p <= u)%Q.
Proof using model p_finite p_positive p_at_most_one.
  intros Hfin H0 H1. cbv zeta. unfold visit.
  destruct (fadd_rounds _ _ _ model (dataProportionCounter st) p Hfin p_finite H0)
    as (Hfin1 & Hlow & Hhigh & Herr1 & Herr2); [lra | lra |].
  pose proof (fle_value _ _ _ model fone _ (one_finite _ _ _ model) Hfin1) as Hle.
  pose proof (one_value _ _ _ model) as Hone.
  destruct (fle fone (fadd (dataProportionCounter st) p)) eqn:Htest;
    cbn [dataProportionCounter accepted].
  - assert (Hge : (1 <= toQ (fadd (dataProportionCounter st) p))%Q)
      by (rewrite <- Hone; now apply Hle).
    destruct (fsub_one_exact _ _ _ model _ Hfin1 Hge Hhigh) as (Hfin2 & Hexact).
    split; [exact Hfin2|]. rewrite Hexact.
    split; [lra|]. split; [lra|].
    exists [node]. split; [reflexivity|]. split; [reflexivity|].
    cbn [length]. change (inject_Z (Z.of_nat 1)) with 1%Q. split; lra.
  - assert (Hlt : (toQ (fadd (dataProportionCounter st) p) < 1)%Q).
    { apply Qnot_le_lt. intros H. rewrite <- Hone in H. apply Hle in H. discriminate H. }
    split; [exact Hfin1|]. split; [lra|]. split; [lra|].
    exists []. split; [now rewrite app_nil_r|]. split; [apply sublist_nil_l|].
    cbn [length]. change (inject_Z (Z.of_nat 0)) with 0%Q. split; lra.
Qed.

(** The whole loop from any state whose counter is a number in [0, 1]. *)
Lemma loop_count (nodes : list Node) :
  forall st : LoopState,
    finite (dataProportionCounter st) ->
    (0 <= toQ (dataProportionCounter st))%Q -> (toQ (dataProportionCounter st) <= 1)%Q ->
    let st' := fold_left (visit eval p) nodes st in
    let m := inject_Z (Z.of_nat (length nodes)) in
    finite (dataProportionCounter st')
    /\ (0 <= toQ (dataProportionCounter st'))%Q /\ (toQ (dataProportionCounter st') <= 1)%Q
    /\ exists chosen,
         accepted st' = accepted st ++ chosen
         /\ sublist chosen nodes
         /\ (- (m * u) <= toQ (dataProportionCounter st') + inject_Z (Z.of_nat (length chosen))
                          - toQ (dataProportionCounter st) - m * toQ p)%Q
         /\ (toQ (dataProportionCounter st') + inject_Z (Z.of_nat (length chosen))
             - toQ (dataProportionCounter st) - m * toQ p <= m * u)%Q.
Proof using model p_finite p_positive p_at_most_one.
  induction nodes as [|node nodes IH]; intros st Hfin H0 H1; cbv zeta.
  - cbn [fold_left length]. split; [exact Hfin|]. split; [exact H0|]. split; [exact H1|].
    exists []. split; [now rewrite app_nil_r|]. split; [constructor|].
    cbn [length]. change (inject_Z (Z.of_nat 0)) with 0%Q. split; lra.
  - cbn [fold_left].
    destruct (visit_count st node Hfin H0 H1)
      as (Hfin1 & Ha & Hb & first & Hacc1 & Hsub1 & Hlo1 & Hhi1).
    cbv zeta in Hfin1, Ha, Hb, Hacc1, Hlo1, Hhi1.
    destruct (IH (visit eval p st node) Hfin1 Ha Hb)
      as (Hfin2 & Hc & Hd & rest & Hacc2 & Hsub2 & Hlo2 & Hhi2).
    cbv zeta in Hfin2, Hc, Hd, Hacc2, Hlo2, Hhi2.
    split; [exact Hfin2|]. split; [exact Hc|]. split; [exact Hd|].
    exists (first ++ rest). split; [now rewrite Hacc2, Hacc1, <- app_assoc|].
    split; [now apply (sublist_app first [node] rest nodes)|].
    rewrite length_app, Nat2Z.inj_add, inject_Z_plus.
    cbn [length]. rewrite inject_Z_S.
    set (M := inject_Z (Z.of_nat (length nodes))) in *.
    assert (Hexp1 : ((M + 1) * u == M * u + u)%Q) by ring.
    assert (Hexp2 : ((M + 1) * toQ p == M * toQ p + toQ p)%Q) by ring.
    rewrite Hexp1, Hexp2. split; lra.
Qed.

End Counting.

(** Python's [round] gives an integer at most one half away. *)
Lemma pyround_nearest (x : Q) :
  (x - (1 # 2) <= inject_Z (pyround x))%Q /\ (inject_Z (pyround x) <= x + (1 # 2))%Q.
Proof.
  pose proof (Qfloor_le x) as H1. pose proof (Qlt_floor x) as H2.
  rewrite inject_Z_plus in H2. change (inject_Z 1) with 1%Q in H2.
  unfold pyround.
  destruct (Qcompare_spec (x - inject_Z (Qfloor x)) (1 # 2)) as [Heq|Hlt|Hgt].
  - destruct (Z.even (Qfloor x)); [|rewrite inject_Z_plus; change (inject_Z 1) with 1%Q];
      split; lra.
  - split; lra.
  - rewrite inject_Z_plus. change (inject_Z 1) with 1%Q. split; lra.
Qed.

End SamplingFacts.

(** *** An arithmetic that rounds

    Numbers are counted in eighths; a sum of one or more is rounded up to
    the next quarter, so an addition is off by up to one eighth. *)
Definition eighths : FloatOps Z :=
  {| fzero := 0%Z; fone := 8%Z; fhalf := 4%Z; fpi := 25%Z;
     fadd := fun a b =>
               let x := (a + b)%Z in
               if (x <? 8)%Z then x else (2 * ((x + 1) / 2))%Z;
     fsub := Z.sub;
     fmul := fun a b => (a * b / 8)%Z;
     fdiv := fun a b => if (b =? 0)%Z then None else Some (8 * a / b)%Z;
     flt := Z.ltb;
     fle := Z.leb;
     ofNat := fun n => (8 * Z.of_nat n)%Z |}.

Definition eighthsValue (z : Z) : Q := inject_Z z * (1 # 8).

Lemma eighths_floatModel : @floatModel Z eighths eighthsValue (fun _ => True) (1 # 8).
Proof.
  constructor; try exact I.
  - reflexivity.
  - reflexivity.
  - intros a b _ _. cbn [fle eighths]. unfold eighthsValue.
    rewrite Z.leb_le, Zle_Qle. split; intros H; lra.
  - intros a b _ _ Ha Hb Hab. cbn [fadd eighths]. unfold eighthsValue in *.
    split; [exact I|].
    assert (Ha' : (0 <= a)%Z) by (rewrite Zle_Qle; change (inject_Z 0) with 0%Q; lra).
    assert (Hb' : (0 <= b)%Z) by (rewrite Zle_Qle; change (inject_Z 0) with 0%Q; lra).
    assert (Hab' : (a + b <= 16)%Z).
    { rewrite Zle_Qle, inject_Z_plus. change (inject_Z 16) with 16%Q. lra. }
    set (r := if (a + b <? 8)%Z then (a + b)%Z else (2 * ((a + b + 1) / 2))%Z).
    assert (Hr : (a + b <= r <= a + b + 1)%Z /\ (r <= 16)%Z).
    { subst r. destruct (Z.ltb_spec (a + b) 8); [lia|].
      pose proof (Z.div_mod (a + b + 1) 2 ltac:(lia)) as Hdiv.
      pose proof (Z.mod_pos_bound (a + b + 1) 2 ltac:(lia)) as Hmod. lia. }
    destruct Hr as [[Hlo Hhi] Hmax].
    rewrite Zle_Qle in Hlo, Hhi, Hmax.
    repeat rewrite inject_Z_plus in Hlo. repeat rewrite inject_Z_plus in Hhi.
    change (inject_Z 1) with 1%Q in Hhi. change (inject_Z 16) with 16%Q in Hmax.
    repeat split; lra.
  - intros a _ Hlo Hhi. cbn [fsub fone eighths]. unfold eighthsValue in *.
    split; [exact I|]. unfold Z.sub. rewrite inject_Z_plus, inject_Z_opp.
    change (inject_Z 8) with 8%Q. lra.
Qed.

(** C3.  For every ordered list of N data points and every proportion
    [0 < p <= 1], the running-accumulator scheme (counter from 0.5, [p] added
    per point, a point accepted when the counter reaches 1.0, then 1.0
    subtracted) accepts [round(p N)] points give or take one, and which
    points it accepts does not depend on what the mesh search returns: they
    are the same on every run over the same ordered input.  The counter is a
    float: the theorem holds for every float arithmetic that rounds a sum of
    at most 2 with an error of at most [u], for lists of fewer than [1/u]
    points (2^53 for binary64; a Zinc nodeset holds fewer than 2^31). *)
Theorem sampling_accepts_round_within_one
    {F : Type} {ops : FloatOps F} {Node Location : Type}
    (toQ : F -> Q) (finite : F -> Prop) (u : Q)
    (evaluateMeshLocation : Node -> option Location) (p : F) (nodes : list Node) :
  floatModel toQ finite u ->
  finite p -> (0 < toQ p)%Q -> (toQ p <= 1)%Q ->
  (inject_Z (Z.of_nat (length nodes)) * u < 1)%Q ->
  let st := Sampling.projectLoop evaluateMeshLocation p nodes in
  let count := Z.of_nat (length (Sampling.accepted st)) in
  let N := inject_Z (Z.of_nat (length nodes)) in
  (Sampling.pyround (N * toQ p) - 1 <= count <= Sampling.pyround (N * toQ p) + 1)%Z
  /\ forall other : Node -> option Location,
       Sampling.accepted (Sampling.projectLoop other p nodes) = Sampling.accepted st.
Proof.
  intros Hmodel Hfin Hp0 Hp1 Hsize. cbv zeta. split.
  - unfold Sampling.projectLoop.
    pose proof (half_value _ _ _ Hmodel) as Hhalf.
    destruct (loop_count toQ finite u Hmodel evaluateMeshLocation p Hfin Hp0 Hp1 nodes
                Sampling.initialState)
      as (_ & Hc0 & Hc1 & chosen & Hacc & _ & Hlo & Hhi);
      cbn [Sampling.dataProportionCounter Sampling.initialState];
      [exact (half_finite _ _ _ Hmodel) | lra | lra |].
    cbv zeta in Hc0, Hc1, Hacc, Hlo, Hhi.
    cbn [Sampling.dataProportionCounter Sampling.accepted Sampling.initialState app]
      in Hacc, Hlo, Hhi.
    rewrite Hacc.
    set (st := fold_left _ nodes _) in *.
    set (M := inject_Z (Z.of_nat (length nodes))) in *.
    destruct (pyround_nearest (M * toQ p)) as [Hr1 Hr2].
    set (r := Sampling.pyround (M * toQ p)) in *.
    set (n := Z.of_nat (length chosen)) in *.
    assert (Hup : (inject_Z n < inject_Z (r + 2))%Q).
    { rewrite inject_Z_plus. change (inject_Z 2) with 2%Q. lra. }
    assert (Hdown : (inject_Z (r - 2) < inject_Z n)%Q).
    { unfold Z.sub. rewrite inject_Z_plus, inject_Z_opp. change (inject_Z 2) with 2%Q. lra. }
    rewrite <- Zlt_Qlt in Hup, Hdown. lia.
  - intros other. unfold Sampling.projectLoop.
    now apply accepted_any_search.
Qed.

(** The theorem for the arithmetic in eighths, at [p = 3/8] on seven
    points: three points are accepted, as [round(21/8)] says, although two
    of the seven additions are rounded. *)
Lemma sampling_accepts_round_within_one_witness :
  let st := @Sampling.projectLoop Z eighths nat nat (fun n => Some n) 3%Z (seq 0 7) in
  let count := Z.of_nat (length (Sampling.accepted st)) in
  (Sampling.pyround (inject_Z 7 * eighthsValue 3) - 1 <= count
   <= Sampling.pyround (inject_Z 7 * eighthsValue 3) + 1)%Z
  /\ Sampling.accepted st = [1; 3; 6]
  /\ Sampling.pyround (inject_Z 7 * eighthsValue 3) = 3%Z.
Proof.
  split; [|split; reflexivity].
  apply (@sampling_accepts_round_within_one Z eighths nat nat eighthsValue (fun _ => True)
           (1 # 8) (fun n => Some n) 3%Z (seq 0 7) eighths_floatModel I);
    reflexivity || (intros H; discriminate H).
Defined.

(** ** Penalty assignment *)

Section PenaltyFacts.
Import Penalty.

(** The claim's rule, stated on the group list itself.  [tensorOf s] is the
    value of a setting, [settingIsSet s] tells whether it is set locally or
    inheritable. *)
Definition tensorOf (s : GroupSetting) : list Q := fst (fst s).
Definition settingIsSet (s : GroupSetting) : bool := isSet (snd (fst s)) (snd s).

Definition groupContains (g : Group) (element : nat) : bool :=
  match elementGroup g with
  | Some meshGroup => bool_decide (element ∈ meshGroup)
  | None => false
  end.

(** The tensor of the first named group that contains the element and has
    the setting set or inheritable, otherwise that of the default. *)
Definition firstMatching (setting : option string -> GroupSetting)
    (groups : list Group) (element : nat) : list Q :=
  match List.find (fun g => groupContains g element
                            && settingIsSet (setting (Some (groupName g)))) groups with
  | Some g => tensorOf (setting (Some (groupName g)))
  | None => tensorOf (setting None)
  end.



Definition entryFlagsAgree (entry : GroupEntry) : Prop :=
  groupStrainPenaltyNonZero entry = anyPositive (groupStrainPenalty entry)
  /\ groupCurvaturePenaltyNonZero entry = anyPositive (groupCurvaturePenalty entry).

Lemma makeEntry_fields (fit : FitterStepFit) (sc cc : nat) (name : option string)
    (meshGroup : option (gset nat)) :
  let entry := makeEntry fit sc cc name meshGroup in
  entryMeshGroup entry = meshGroup
  /\ groupStrainPenalty entry = tensorOf (getGroupStrainPenalty fit name sc)
  /\ groupStrainSet entry = settingIsSet (getGroupStrainPenalty fit name sc)
  /\ groupCurvaturePenalty entry = tensorOf (getGroupCurvaturePenalty fit name cc)
  /\ groupCurvatureSet entry = settingIsSet (getGroupCurvaturePenalty fit name cc)
  /\ entryFlagsAgree entry.
Proof.
  unfold makeEntry, tensorOf, settingIsSet, entryFlagsAgree.
  destruct (getGroupStrainPenalty fit name sc) as [[s sl] si].
  destruct (getGroupCurvaturePenalty fit name cc) as [[c cl] ci].
  cbn. repeat split.
Qed.




(** The default entry, last in the list, leaves both tensors set. *)
Lemma resolve_default_last (fit : FitterStepFit) (sc cc : nat) (groups : list Group)
    (element : nat) :
  is_Some (strainPenalty (resolve (buildGroups fit sc cc groups) element))
  /\ is_Some (curvaturePenalty (resolve (buildGroups fit sc cc groups) element)).
Proof.
  unfold resolve, buildGroups. rewrite fold_left_app. cbn [fold_left].
  set (r := fold_left _ _ unresolved).
  destruct (makeEntry_fields fit sc cc None None) as (Hm & _).
  cbv zeta in Hm. unfold resolveStep, containsElement, isDefault. rewrite Hm.
  rewrite !orb_true_r, !andb_true_r.
  destruct (strainPenalty r) as [[|]|] eqn:Hs; destruct (curvaturePenalty r) as [[|]|] eqn:Hc;
    cbn; rewrite ?Hs, ?Hc; cbn; split; eauto.
Qed.







(** The element loop: both fields are written at each element of the mesh
    and the element is added to the active groups its flags ask for. *)
Lemma assign_elements (groups : list GroupEntry) (elements : list nat) :
  (forall element, is_Some (strainPenalty (resolve groups element))
                   /\ is_Some (curvaturePenalty (resolve groups element))) ->
  forall pf, exists pf',
    for_each elements (assignElement groups) pf = (Return tt, pf')
    /\ (forall e, strainPenaltyField pf' !! e
                  = if bool_decide (e ∈ elements) then strainPenalty (resolve groups e)
                    else strainPenaltyField pf !! e)
    /\ (forall e, curvaturePenaltyField pf' !! e
                  = if bool_decide (e ∈ elements) then curvaturePenalty (resolve groups e)
                    else curvaturePenaltyField pf !! e)
    /\ (forall e, e ∈ strainActiveMeshGroup pf'
                  <-> e ∈ strainActiveMeshGroup pf
                      \/ (e ∈ elements /\ strainPenaltyNonZero (resolve groups e) = true))
    /\ (forall e, e ∈ curvatureActiveMeshGroup pf'
                  <-> e ∈ curvatureActiveMeshGroup pf
                      \/ (e ∈ elements /\ curvaturePenaltyNonZero (resolve groups e) = true))
    /\ (forall e, e ∈ deformActiveMeshGroup pf'
                  <-> e ∈ deformActiveMeshGroup pf
                      \/ (e ∈ elements
                          /\ (strainPenaltyNonZero (resolve groups e) = true
                              \/ curvaturePenaltyNonZero (resolve groups e) = true))).
Proof.
  intros Htotal. induction elements as [|x elements IH]; intros pf.
  - exists pf. split; [reflexivity|].
    assert (Hnil : forall e : nat, bool_decide (e ∈ @nil nat) = false)
      by (intros e; apply bool_decide_eq_false_2, not_elem_of_nil).
    split; [intros e; now rewrite Hnil|]. split; [intros e; now rewrite Hnil|].
    repeat split; try (intros H; left; exact H);
      intros [H|[H _]]; try exact H; now apply not_elem_of_nil in H.
  - cbn [for_each]. unfold bind at 1. unfold assignElement at 1.
    destruct (Htotal x) as [[sx Hsx] [cx Hcx]]. rewrite Hsx, Hcx.
    match goal with |- context [for_each elements _ ?s] => set (pf1 := s) end.
    destruct (IH pf1) as (pf' & Hrun & Hsf & Hcf & Hsa & Hca & Hda).
    exists pf'. split; [exact Hrun|].
    assert (Hhead : bool_decide (x ∈ x :: elements) = true)
      by apply bool_decide_eq_true_2, list_elem_of_here.
    assert (Htail : forall e, e <> x ->
                      bool_decide (e ∈ x :: elements) = bool_decide (e ∈ elements)).
    { intros e Hne. apply bool_decide_ext. rewrite elem_of_cons. tauto. }
    split; [|split; [|split; [|split]]].
    + intros e. rewrite Hsf. subst pf1. cbn [strainPenaltyField].
      destruct (decide (e = x)) as [->|Hne].
      * rewrite lookup_insert_eq, Hhead, Hsx.
        destruct (bool_decide (x ∈ elements)); reflexivity.
      * rewrite lookup_insert_ne by congruence. now rewrite Htail.
    + intros e. rewrite Hcf. subst pf1. cbn [curvaturePenaltyField].
      destruct (decide (e = x)) as [->|Hne].
      * rewrite lookup_insert_eq, Hhead, Hcx.
        destruct (bool_decide (x ∈ elements)); reflexivity.
      * rewrite lookup_insert_ne by congruence. now rewrite Htail.
    + intros e. rewrite Hsa. subst pf1. cbn [strainActiveMeshGroup].
      clear. destruct (strainPenaltyNonZero (resolve groups x)) eqn:Hx;
        rewrite ?elem_of_union, ?elem_of_singleton, elem_of_cons;
        intuition (subst; auto; congruence).
    + intros e. rewrite Hca. subst pf1. cbn [curvatureActiveMeshGroup].
      clear. destruct (curvaturePenaltyNonZero (resolve groups x)) eqn:Hx;
        rewrite ?elem_of_union, ?elem_of_singleton, elem_of_cons;
        intuition (subst; auto; congruence).
    + intros e. rewrite Hda. subst pf1. cbn [deformActiveMeshGroup].
      clear. destruct (strainPenaltyNonZero (resolve groups x)) eqn:Hx;
        destruct (curvaturePenaltyNonZero (resolve groups x)) eqn:Hy; cbn [orb];
        rewrite ?elem_of_union, ?elem_of_singleton, elem_of_cons;
        intuition (subst; auto; congruence).
Qed.










End PenaltyFacts.



(** A surface model of two elements and two overlapping groups: G1 holds
    element 1, G2 holds both.  G1 has priority and sets strain 1 but no
    curvature; G2 sets strain 2 and curvature 3; the defaults are zero. *)
Definition leadingThenZeros (x : Q) (n : nat) : list Q :=
  match n with
  | 0 => []
  | S m => x :: repeat 0%Q m
  end.

Definition isNamed (name : option string) (s : string) : bool :=
  match name with
  | Some n => String.eqb n s
  | None => false
  end.

Definition exampleFit : Penalty.FitterStepFit :=
  {| Penalty.getGroupStrainPenalty := fun name n =>
       if isNamed name "G1" then (leadingThenZeros 1 n, Some true, false)
       else if isNamed name "G2" then (leadingThenZeros 2 n, Some true, false)
       else (leadingThenZeros 0 n, Some false, false);
     Penalty.getGroupCurvaturePenalty := fun name n =>
       if isNamed name "G2" then (leadingThenZeros 3 n, Some true, false)
       else (leadingThenZeros 0 n, Some false, false) |}.

Definition examplePenaltyFields : Penalty.PenaltyFields :=
  {| Penalty.strainPenaltyField := ∅;
     Penalty.curvaturePenaltyField := ∅;
     Penalty.deformActiveMeshGroup := {[7]};
     Penalty.strainActiveMeshGroup := {[7]};
     Penalty.curvatureActiveMeshGroup := ∅ |}.

Definition exampleModel : Penalty.Fitter :=
  {| Penalty.mesh := [[]; [1; 2]; []];
     Penalty.groupList :=
       [Penalty.mkGroup "G1" (Some {[1]}); Penalty.mkGroup "G2" (Some {[1; 2]})];
     Penalty.penaltyFields := Some examplePenaltyFields;
     Penalty.diagnosticLevel := 0 |}.




(** At the example, element 1 takes its strain tensor from G1, although G2
    contains it too, and its curvature tensor from G2; element 2 takes both
    from G2. *)
Example penalty_priority_example :
  firstMatching (fun name => Penalty.getGroupStrainPenalty exampleFit name 4)
    (Penalty.groupList exampleModel) 1 = [1; 0; 0; 0]%Q
  /\ firstMatching (fun name => Penalty.getGroupCurvaturePenalty exampleFit name 8)
       (Penalty.groupList exampleModel) 1 = [3; 0; 0; 0; 0; 0; 0; 0]%Q
  /\ firstMatching (fun name => Penalty.getGroupStrainPenalty exampleFit name 4)
       (Penalty.groupList exampleModel) 2 = [2; 0; 0; 0]%Q.
Proof. vm_compute. repeat split. Qed.

(** ** Alignment solver *)

Section SolverFacts.
Import AlignSolver.
Context {F : Type} {ops : FloatOps F} {zinc : Zinc F}.

(** [<] on floats is irreflexive and transitive (also in the presence of
    NaN, which compares false with everything). *)
Definition strictOrder (lt : F -> F -> bool) : Prop :=
  (forall a, lt a a = false)
  /\ (forall a b c, lt a b = true -> lt b c = true -> lt a c = true).

(** The invariant of the search loops. *)
Definition searchInvariant (st : SearchState F) : Prop :=
  match best st with
  | None => evaluated st = []
  | Some b =>
      In b (evaluated st)
      /\ Forall (fun e => flt (objectiveValue e) (objectiveValue b) = false) (evaluated st)
  end.

Lemma searchStep_invariant (points : list (Vec3 * Vec3)) (seed : Seed F)
    (st : SearchState F) (xyz : nat * nat * nat) :
  strictOrder flt -> searchInvariant st ->
  searchInvariant (searchStep points seed st xyz).
Proof.
  intros [Hirr Htrans]. unfold searchInvariant, searchStep. cbn [best evaluated].
  set (e := evaluateAt points seed xyz).
  destruct (best st) as [b|].
  - intros [Hin Hall].
    destruct (flt (objectiveValue e) (objectiveValue b)) eqn:Hlt.
    + split; [apply in_or_app; right; left; reflexivity|].
      apply Forall_app. split; [|constructor; [apply Hirr | constructor]].
      eapply Forall_impl; [exact Hall|]. cbv beta. intros e' He'.
      destruct (flt (objectiveValue e') (objectiveValue e)) eqn:Hlt'; [|reflexivity].
      rewrite (Htrans _ _ _ Hlt' Hlt) in He'. discriminate He'.
    + split; [apply in_or_app; left; exact Hin|].
      apply Forall_app. split; [exact Hall | constructor; [exact Hlt | constructor]].
  - intros ->. cbn. split; [left; reflexivity|].
    constructor; [apply Hirr | constructor].
Qed.

Lemma search_loop (points : list (Vec3 * Vec3)) (seed : Seed F)
    (indices : list (nat * nat * nat)) (st : SearchState F) :
  strictOrder flt -> searchInvariant st ->
  let st' := fold_left (searchStep points seed) indices st in
  searchInvariant st'
  /\ evaluated st' = evaluated st ++ (evaluateAt points seed <$> indices).
Proof.
  intros Hord. revert st. induction indices as [|xyz indices IH]; intros st Hinv.
  - cbn. split; [exact Hinv | now rewrite app_nil_r].
  - cbn [fold_left]. cbv zeta.
    destruct (IH (searchStep points seed st xyz)) as [Hinv' Hev].
    { now apply searchStep_invariant. }
    split; [exact Hinv'|]. cbv zeta in Hev. rewrite Hev. cbn. now rewrite <- app_assoc.
Qed.


Lemma grid_NoDup : NoDup grid.
Proof. apply (bool_decide_unpack _). vm_compute. exact I. Qed.




End SolverFacts.


(** C6.  The alignment optimisation needs at least three correspondence
    pairs: with fewer, [_optimiseAlignment], and so [_doAutoAlign] when the
    map it builds has fewer, raises an AssertionError and the rotation,
    scale and translation of the step (indeed the whole step) are as they
    were before the call. *)
Theorem optimiseAlignment_requires_three_points
    {F : Type} {ops : FloatOps F} {zinc : AlignSolver.Zinc F}
    (pointMap : list (string * (AlignSolver.Vec3 * AlignSolver.Vec3)))
    (step : AlignSolver.FitterStepAlign F) :
  length pointMap < 3 ->
  AlignSolver._optimiseAlignment pointMap step
  = (Raise (AssertionError ("Align:  Only " +:+ pretty (length pointMap)
                             +:+ " points - need at least 3")), step)
  /\ forall diagnosticLevel inp printed,
       Align.buildPointMap (AlignSolver.alignGroups step) (AlignSolver.alignMarkers step)
         diagnosticLevel inp = Return (pointMap, printed) ->
       AlignSolver._doAutoAlign diagnosticLevel inp step
       = (Raise (AssertionError ("Align:  Only " +:+ pretty (length pointMap)
                                  +:+ " points - need at least 3")), step).
Proof.
  intros Hlen.
  assert (Hopt : AlignSolver._optimiseAlignment pointMap step
                 = (Raise (AssertionError ("Align:  Only " +:+ pretty (length pointMap)
                                            +:+ " points - need at least 3")), step)).
  { unfold AlignSolver._optimiseAlignment.
    destruct (Nat.ltb_spec (length pointMap) 3); [reflexivity | lia]. }
  split; [exact Hopt|].
  intros diagnosticLevel inp printed Hbuild.
  unfold AlignSolver._doAutoAlign. now rewrite Hbuild, Hopt.
Qed.

(** *** A concrete instance: exact rationals, exact quarter turns *)

(** Cosine and sine of [k] quarter turns. *)
Definition cosQuarter (k : Z) : Q :=
  match (k mod 4)%Z with 0%Z => 1 | 2%Z => -1 | _ => 0 end%Q.
Definition sinQuarter (k : Z) : Q :=
  match (k mod 4)%Z with 1%Z => 1 | 3%Z => -1 | _ => 0 end%Q.

(** The rotation matrix of [vectorops.euler_to_rotation_matrix], exact on
    the angles of the search grid. *)
Definition quarterTurnMatrix (angles : Q * Q * Q) : (Q * Q * Q) * (Q * Q * Q) * (Q * Q * Q) :=
  let turns a := Qfloor (a / ((1 # 2) * (355 # 113)))%Q in
  let '(azimuth, elevation, roll) := angles in
  let ca := cosQuarter (turns azimuth) in let sa := sinQuarter (turns azimuth) in
  let ce := cosQuarter (turns elevation) in let se := sinQuarter (turns elevation) in
  let cr := cosQuarter (turns roll) in let sr := sinQuarter (turns roll) in
  ((ca * ce, ca * se * sr - sa * cr, ca * se * cr + sa * sr),
   (sa * ce, sa * se * sr + ca * cr, sa * se * cr - ca * sr),
   (- se, ce * sr, ce * cr))%Q.

(** Per component, the sum over the points of the squared difference between
    the data point and the rotated, scaled and translated model point. *)
Definition sumSquares (points : list ((Q * Q * Q) * (Q * Q * Q)))
    (angles : Q * Q * Q) (scale : Q) (translation : Q * Q * Q) : Q * Q * Q :=
  fold_left
    (fun acc p =>
       let '(model, data) := p in
       let moved :=
         @AlignSolver.add3 Q QFloat
           (@AlignSolver.mult Q QFloat
              (@AlignSolver.matrix_vector_mult Q QFloat (quarterTurnMatrix angles) model) scale)
           translation in
       let '(d0, d1, d2) := @AlignSolver.sub Q QFloat data moved in
       @AlignSolver.add3 Q QFloat acc (d0 * d0, d1 * d1, d2 * d2)%Q)
    points (0, 0, 0)%Q.

(** An optimiser that accepts its starting point. *)
Definition exampleZinc : AlignSolver.Zinc Q :=
  {| AlignSolver.euler_to_rotation_matrix := quarterTurnMatrix;
     AlignSolver.evaluateObjective := sumSquares;
     AlignSolver.optimise := fun _ rotation scale translation =>
                               Some (rotation, scale, translation) |}.

(** Three model points and the same points turned a quarter about z. *)
Definition examplePoints : list ((Q * Q * Q) * (Q * Q * Q)) :=
  [((1, 0, 0), (0, 1, 0)); ((0, 2, 0), (-2, 0, 0)); ((0, 0, 3), (0, 0, 3))]%Q.

Definition exampleSeed : AlignSolver.Seed Q :=
  match @AlignSolver.computeSeed Q QFloat examplePoints with
  | Return seed => seed
  | Raise _ => AlignSolver.mkSeed (0, 0, 0)%Q (0, 0, 0)%Q (0, 0, 0)%Q 1%Q
  end.

Lemma QFloat_strictOrder : strictOrder (@flt Q QFloat).
Proof.
  split.
  - intros a. cbn. rewrite (proj2 (Qle_bool_iff a a)); [reflexivity | apply Qle_refl].
  - intros a b c. cbn. rewrite !negb_true_iff. intros Hab Hbc.
    destruct (Qle_bool c a) eqn:Hca; [|reflexivity].
    apply Qle_bool_iff in Hca.
    assert (Hba : ~ (b <= a)%Q) by (intros H; apply Qle_bool_iff in H; congruence).
    assert (Hcb : ~ (c <= b)%Q) by (intros H; apply Qle_bool_iff in H; congruence).
    apply Qnot_le_lt in Hba, Hcb. lra.
Qed.



(** At the example the search retains the quarter turn about z, where the
    objective vanishes. *)
Example rotation_search_example :
  match AlignSolver.best
          (@AlignSolver.search Q QFloat exampleZinc examplePoints exampleSeed) with
  | Some b => AlignSolver.evalIndex b = (0, 0, 1)
              /\ (AlignSolver.objectiveValue b == 0)%Q
  | None => False
  end.
Proof. vm_compute. split; reflexivity. Qed.

(** The three-point requirement at a map of two entries. *)
Lemma optimiseAlignment_requires_three_points_witness :
  let pointMap := [("apex", ((1, 0, 0), (0, 1, 0))); ("base", ((0, 2, 0), (-2, 0, 0)))]%Q in
  let step := AlignSolver.mkAlign false true (0, 0, 0)%Q 1%Q (0, 0, 0)%Q in
  @AlignSolver._optimiseAlignment Q QFloat exampleZinc pointMap step
  = (Raise (AssertionError "Align:  Only 2 points - need at least 3"), step).
Proof.
  intros pointMap step.
  apply (@optimiseAlignment_requires_three_points Q QFloat exampleZinc pointMap step).
  cbn. lia.
Defined.

(** ** Automatic matching and the diagnostic level *)

(** Model markers "A", "a" and "b"; data markers "a" and "b". *)
Definition markerInputs : Align.AlignInputs (Q * Q * Q) :=
  {| Align.groups := [];
     Align.markerGroup := true;
     Align.modelMarkers := Some [("A", (1, 0, 0)); ("a", (0, 2, 0)); ("b", (0, 0, 3))]%Q;
     Align.dataMarkers := Some [("a", (0, 1, 0)); ("b", (0, 0, 3))]%Q |}.

(** C9 fails on the code.  With diagnostics off, the model markers "A" and
    "a" are both matched to the data marker "a" and the map has three
    entries, so the optimisation runs; with diagnostic level 1 the matched
    data marker is popped, "a" finds no partner, the map has two entries and
    the step raises. *)
Theorem autoalign_point_map_depends_on_diagnostic_level :
  let step := AlignSolver.mkAlign false true (0, 0, 0)%Q 1%Q (0, 0, 0)%Q in
  (exists printed0 printed1,
     Align.buildPointMap false true 0 markerInputs
     = Return ([("A", ((1, 0, 0), (0, 1, 0))); ("a", ((0, 2, 0), (0, 1, 0)));
                ("b", ((0, 0, 3), (0, 0, 3)))]%Q, printed0)
     /\ Align.buildPointMap false true 1 markerInputs
        = Return ([("A", ((1, 0, 0), (0, 1, 0))); ("b", ((0, 0, 3), (0, 0, 3)))]%Q, printed1))
  /\ is_raise (fst (@AlignSolver._doAutoAlign Q QFloat exampleZinc 0 markerInputs step)) = false
  /\ fst (@AlignSolver._doAutoAlign Q QFloat exampleZinc 1 markerInputs step)
     = Raise (AssertionError "Align:  Only 2 points - need at least 3").
Proof.
  cbv zeta. split; [|split].
  - eexists _, _. split; vm_compute; reflexivity.
  - vm_compute. reflexivity.
  - vm_compute. reflexivity.
Qed.

(** ** Fitted-geometry export *)

Section ExportFacts.
Import ModelExport.

(** No field other than [field] is called [name]. *)
Definition nameFree (names : gmap nat string) (field : nat) (name : string) : Prop :=
  forall g, names !! g = Some name -> g = field.

Lemma nameInUse_false (names : gmap nat string) (field : nat) (name : string) :
  nameFree names field name -> nameInUse names field name = false.
Proof.
  intros Hfree. unfold nameInUse. apply bool_decide_eq_false_2.
  intros (g & n & Hg & Hne & ->). apply Hne, Hfree, Hg.
Qed.

(** Renaming a field and renaming it back gives the names as they were,
    whether or not the first renaming is refused. *)
Lemma setName_restore (names : gmap nat string) (field : nat) (name other : string) :
  names !! field = Some name -> nameFree names field name ->
  setName field name (setName field other names) = names.
Proof.
  intros Hname Hfree. unfold setName at 2.
  destruct (nameInUse names field other).
  - unfold setName. rewrite nameInUse_false by exact Hfree. now apply insert_id.
  - unfold setName. rewrite nameInUse_false.
    + rewrite insert_insert_eq. now apply insert_id.
    + intros g Hg. destruct (decide (g = field)) as [->|Hne]; [reflexivity|].
      rewrite lookup_insert_ne in Hg by congruence. now apply Hfree.
Qed.

End ExportFacts.

(** When the fitter holds a model coordinates field whose name is the
    recorded model coordinates field name, after [writeModel], whether the
    write succeeded or not (it then raises), every field of the region has
    the name it had before and the fitter's settings are what they were:
    only the list of write requests has grown. *)
Lemma writeModel_restores_names
    (regionWrite : gmap nat string -> ModelExport.WriteRequest -> bool)
    (modelFileName : string) (ft : ModelExport.Fitter) (field : nat) (name : string) :
  Settings._modelCoordinatesFieldName (ModelExport.settings ft) = Settings.PStr name ->
  ModelExport._modelCoordinatesField ft = Some field ->
  ModelExport.fieldNames ft !! field = Some name ->
  nameFree (ModelExport.fieldNames ft) field name ->
  let request := {| ModelExport.fileName := modelFileName;
                    ModelExport.resourceFieldNames := ["fitted " +:+ name] |} in
  exists r,
    ModelExport.writeModel regionWrite modelFileName ft
    = (r, {| ModelExport.settings := ModelExport.settings ft;
             ModelExport._modelCoordinatesField := ModelExport._modelCoordinatesField ft;
             ModelExport.fieldNames := ModelExport.fieldNames ft;
             ModelExport.written := ModelExport.written ft ++ [request] |})
    /\ (r = Return tt \/ r = Raise (AssertionError "")).
Proof.
  intros Hrecorded Hfield Hname Hfree request.
  unfold ModelExport.writeModel. rewrite Hrecorded, Hfield.
  rewrite (setName_restore _ _ _ _ Hname Hfree). fold request.
  destruct (regionWrite _ request); eexists; split; eauto.
Qed.

(** C10.  The code does not do what the claim says in a region that already
    has a field called "fitted " followed by the model coordinates field
    name (a model file that holds an earlier output of [writeModel] along
    with the original coordinates has one).  The renaming of the model coordinates field is then refused and its result
    is not looked at: the region is written with the names it had, in which
    the name asked for, "fitted " and the name, is that of the other field
    and the model coordinates field is still called by its own name.  So
    the file holds the other field, not the model coordinates under the
    prefixed name.  The names are the same after the call. *)
Theorem writeModel_name_clash_writes_other_field
    (regionWrite : gmap nat string -> ModelExport.WriteRequest -> bool)
    (modelFileName : string) (ft : ModelExport.Fitter) (field other : nat) (name : string) :
  Settings._modelCoordinatesFieldName (ModelExport.settings ft) = Settings.PStr name ->
  ModelExport._modelCoordinatesField ft = Some field ->
  ModelExport.fieldNames ft !! field = Some name ->
  other <> field ->
  ModelExport.fieldNames ft !! other = Some ("fitted " +:+ name) ->
  let request := {| ModelExport.fileName := modelFileName;
                    ModelExport.resourceFieldNames := ["fitted " +:+ name] |} in
  ModelExport.writeModel regionWrite modelFileName ft
  = (if regionWrite (ModelExport.fieldNames ft) request then Return tt
     else Raise (AssertionError ""),
     {| ModelExport.settings := ModelExport.settings ft;
        ModelExport._modelCoordinatesField := ModelExport._modelCoordinatesField ft;
        ModelExport.fieldNames := ModelExport.fieldNames ft;
        ModelExport.written := ModelExport.written ft ++ [request] |}).
Proof.
  intros Hrecorded Hfield Hname Hother Hclash request.
  unfold ModelExport.writeModel. rewrite Hrecorded, Hfield. cbv zeta. fold request.
  assert (Hrefused : ModelExport.setName field ("fitted " +:+ name) (ModelExport.fieldNames ft)
                     = ModelExport.fieldNames ft).
  { unfold ModelExport.setName, ModelExport.nameInUse.
    rewrite bool_decide_eq_true_2; [reflexivity|].
    exists other, ("fitted " +:+ name). split; [exact Hclash|]. split; [exact Hother|reflexivity]. }
  rewrite Hrefused.
  assert (Hsame : ModelExport.setName field name (ModelExport.fieldNames ft)
                  = ModelExport.fieldNames ft).
  { unfold ModelExport.setName.
    destruct (ModelExport.nameInUse _ _ _); [reflexivity | now apply insert_id]. }
  rewrite Hsame. destruct (regionWrite _ request); reflexivity.
Qed.

(** The failing input: the region has the model coordinates field
    "coordinates" and a field "fitted coordinates".  The write request names
    "fitted coordinates" while field 1, the model coordinates, is called
    "coordinates": [regionWrite] below tells so by succeeding only then. *)
Lemma writeModel_name_clash_writes_other_field_witness :
  let ft :=
    {| ModelExport.settings :=
         Settings.mkFitter (Settings.PStr "coordinates") Settings.PNone Settings.PNone
           Settings.PNone (Settings.PInt 0) [Settings.FitterStepConfig];
       ModelExport._modelCoordinatesField := Some 1;
       ModelExport.fieldNames :=
         <[1 := "coordinates"]> (<[2 := "fitted coordinates"]> (∅ : gmap nat string));
       ModelExport.written := [] |} in
  let modelCoordinatesNotRenamed :=
    fun (names : gmap nat string) (request : ModelExport.WriteRequest) =>
      bool_decide (names !! 1 = Some "coordinates"
                   /\ names !! 2 = Some "fitted coordinates"
                   /\ ModelExport.resourceFieldNames request = ["fitted coordinates"]) in
  ModelExport.writeModel modelCoordinatesNotRenamed "fit1.exf" ft
  = (Return tt,
     {| ModelExport.settings := ModelExport.settings ft;
        ModelExport._modelCoordinatesField := Some 1;
        ModelExport.fieldNames := ModelExport.fieldNames ft;
        ModelExport.written :=
          [{| ModelExport.fileName := "fit1.exf";
              ModelExport.resourceFieldNames := ["fitted coordinates"] |}] |}).
Proof.
  intros ft observe.
  rewrite (writeModel_name_clash_writes_other_field observe "fit1.exf" ft 1 2 "coordinates");
    [reflexivity | reflexivity | reflexivity | reflexivity | lia | reflexivity].
Defined.

(** ** Settings persistence *)

Section PyvalInduction.
Import Settings.
Variable P : pyval -> Prop.
Hypothesis HNone : P PNone.
Hypothesis HBool : forall b, P (PBool b).
Hypothesis HInt : forall n, P (PInt n).
Hypothesis HFloat : forall q, P (PFloat q).
Hypothesis HStr : forall s, P (PStr s).
Hypothesis HList : forall l, Forall P l -> P (PList l).
Hypothesis HDict : forall d, Forall (fun kv => P (snd kv)) d -> P (PDict d).
Hypothesis HStep : forall i, P (PStep i).

(** Induction on Python values, with the hypothesis for every element of a
    list and every value of a dict. *)
Fixpoint pyval_nested_ind (v : pyval) : P v :=
  match v with
  | PNone => HNone
  | PBool b => HBool b
  | PInt n => HInt n
  | PFloat q => HFloat q
  | PStr s => HStr s
  | PList l =>
      HList l ((fix items (l : list pyval) : Forall P l :=
                  match l with
                  | [] => List.Forall_nil P
                  | x :: l' => @List.Forall_cons _ P x l' (pyval_nested_ind x) (items l')
                  end) l)
  | PDict d =>
      HDict d ((fix members (d : list (string * pyval)) : Forall (fun kv => P (snd kv)) d :=
                  match d with
                  | [] => List.Forall_nil _
                  | kv :: d' =>
                      @List.Forall_cons _ (fun kv => P (snd kv)) kv d'
                        (pyval_nested_ind (snd kv)) (members d')
                  end) d)
  | PStep i => HStep i
  end.

End PyvalInduction.

Section SettingsFacts.
Import PyDict Settings.

(** A dict that a decoder takes for a step record. *)
Definition hasDiscriminator (d : list (string * pyval)) : bool :=
  dictHas "_FitterStepAlign" d || dictHas "_FitterStepConfig" d || dictHas "_FitterStepFit" d.

(** JSON values that the decoder leaves alone: no step reference, and no
    object carrying a step discriminator.  Names, numbers, booleans and
    lists of them are such values. *)
Fixpoint plain (v : pyval) : bool :=
  match v with
  | PList l => forallb plain l
  | PDict d => negb (hasDiscriminator d) && forallb (fun kv => plain (snd kv)) d
  | PStep _ => false
  | _ => true
  end.

Definition plainStep (s : FitterStep) : bool :=
  match s with
  | FitterStepAlign a =>
      plain (_alignGroups a) && plain (_alignMarkers a) && plain (_rotation a)
      && plain (_scale a) && plain (_translation a)
  | _ => true
  end.

(** Settings as [encodeSettingsJSON] expects them: plain values, and an
    initial config step. *)
Definition wellFormed (ft : Fitter) : Prop :=
  plain (_modelCoordinatesFieldName ft) = true
  /\ plain (_dataCoordinatesFieldName ft) = true
  /\ plain (_fibreFieldName ft) = true
  /\ plain (_markerGroupName ft) = true
  /\ plain (_diagnosticLevel ft) = true
  /\ forallb plainStep (_fitterSteps ft) = true
  /\ exists rest, _fitterSteps ft = FitterStepConfig :: rest.

Lemma dictGet_dictSet {V : Type} (k k' : string) (v : V) (d : list (string * V)) :
  dictGet k (dictSet k' v d) = if String.eqb k' k then Some v else dictGet k d.
Proof.
  induction d as [|[k0 v0] d IH]; cbn.
  - reflexivity.
  - destruct (String.eqb_spec k0 k') as [->|Hne]; cbn.
    + destruct (String.eqb k' k); reflexivity.
    + rewrite IH. destruct (String.eqb_spec k0 k) as [->|Hne'].
      * destruct (String.eqb_spec k' k); [congruence | reflexivity].
      * reflexivity.
Qed.

Lemma dictHas_dictUpdate {V : Type} (k : string) (other d : list (string * V)) :
  dictHas k d = true -> dictHas k (dictUpdate d other) = true.
Proof.
  unfold dictUpdate. revert d. induction other as [|[k' v'] other IH]; intros d Hd.
  - exact Hd.
  - cbn [fold_left fst snd]. apply IH. unfold dictHas in *.
    rewrite dictGet_dictSet. destruct (String.eqb k' k); [reflexivity | exact Hd].
Qed.

Lemma dictItem_present (k : string) (d other : list (string * pyval)) :
  dictHas k d = true -> exists v, dictItem k (dictUpdate d other) = Return v.
Proof.
  intros Hd. apply (dictHas_dictUpdate k other) in Hd.
  unfold dictHas in Hd. unfold dictItem.
  destruct (dictGet k (dictUpdate d other)) as [v|]; [eauto | discriminate Hd].
Qed.

(** Decoding an align step never fails: the keys are all there after the
    update of the step's own encoding. *)
Lemma decodeAlign_total (a : AlignSettings) (dctIn : list (string * pyval)) :
  exists a', decodeAlign a dctIn = Return a'.
Proof.
  unfold decodeAlign.
  destruct (dictItem_present "alignGroups" (encodeSettingsJSONDict (FitterStepAlign a)) dctIn
              eq_refl) as [g ->].
  destruct (dictItem_present "alignMarkers" (encodeSettingsJSONDict (FitterStepAlign a)) dctIn
              eq_refl) as [m ->].
  destruct (dictItem_present "rotation" (encodeSettingsJSONDict (FitterStepAlign a)) dctIn
              eq_refl) as [r ->].
  destruct (dictItem_present "scale" (encodeSettingsJSONDict (FitterStepAlign a)) dctIn
              eq_refl) as [s ->].
  destruct (dictItem_present "translation" (encodeSettingsJSONDict (FitterStepAlign a)) dctIn
              eq_refl) as [t ->].
  eauto.
Qed.

(** The decoder returns, and all it changes in the fitter is the step list. *)
Lemma decoder_total (d : list (string * pyval)) (st : Fitter) :
  exists v steps,
    decodeJSONFitterSteps d st = (Return v, setFitterSteps steps st).
Proof.
  unfold decodeJSONFitterSteps.
  destruct (dictHas "_FitterStepAlign" d).
  - destruct (decodeAlign_total newAlign d) as [a ->]. unfold addFitterStep. eauto.
  - destruct (dictHas "_FitterStepConfig" d); [unfold addFitterStep; eauto|].
    destruct (dictHas "_FitterStepFit" d); [unfold addFitterStep; eauto|].
    exists (PDict d), (_fitterSteps st). unfold ret. destruct st; reflexivity.
Qed.

Lemma setFitterSteps_twice (s1 s2 : list FitterStep) (st : Fitter) :
  setFitterSteps s2 (setFitterSteps s1 st) = setFitterSteps s2 st.
Proof. reflexivity. Qed.

(** [json.loads] with this decoder returns for every document, and all it
    changes in the fitter is the step list. *)
Lemma loads_total (v : pyval) :
  forall st, exists v' steps,
    loads decodeJSONFitterSteps v st = (Return v', setFitterSteps steps st).
Proof.
  induction v as [| | | | |l IH|d IH|] using pyval_nested_ind; intros st;
    try (eexists _, (_fitterSteps st); cbn; unfold ret; destruct st; reflexivity).
  - cbn [loads].
    assert (Hitems : forall st, exists l' steps,
               loadsItems (loads decodeJSONFitterSteps) l st
               = (Return l', setFitterSteps steps st)).
    { clear st. induction IH as [|x l Hx _ IHl]; intros st.
      - exists [], (_fitterSteps st). cbn. unfold ret. destruct st; reflexivity.
      - cbn [loadsItems]. destruct (Hx st) as (x' & s1 & Hx').
        rewrite (bind_return _ _ _ _ _ Hx').
        destruct (IHl (setFitterSteps s1 st)) as (l' & s2 & Hl').
        rewrite (bind_return _ _ _ _ _ Hl'). unfold ret. eauto. }
    destruct (Hitems st) as (l' & steps & Hl).
    rewrite (bind_return _ _ _ _ _ Hl). unfold ret. eauto.
  - cbn [loads].
    assert (Hmembers : forall st, exists d' steps,
               loadsMembers (loads decodeJSONFitterSteps) d st
               = (Return d', setFitterSteps steps st)).
    { clear st. induction IH as [|[k x] d Hx _ IHd]; intros st.
      - exists [], (_fitterSteps st). cbn. unfold ret. destruct st; reflexivity.
      - cbn [loadsMembers]. cbn [snd] in Hx. destruct (Hx st) as (x' & s1 & Hx').
        rewrite (bind_return _ _ _ _ _ Hx').
        destruct (IHd (setFitterSteps s1 st)) as (d' & s2 & Hd').
        rewrite (bind_return _ _ _ _ _ Hd'). unfold ret. eauto. }
    destruct (Hmembers st) as (d' & steps & Hd).
    rewrite (bind_return _ _ _ _ _ Hd).
    destruct (decoder_total d' (setFitterSteps steps st)) as (v' & steps' & Hv).
    rewrite Hv. eauto.
Qed.

(** A plain value is decoded to itself and the fitter is not touched. *)
Lemma loads_plain (v : pyval) :
  plain v = true ->
  forall st, loads decodeJSONFitterSteps v st = (Return v, st).
Proof.
  induction v as [| | | | |l IH|d IH|] using pyval_nested_ind; intros Hplain st;
    try reflexivity; try discriminate Hplain.
  - cbn [loads plain] in *.
    assert (Hitems : forall st, loadsItems (loads decodeJSONFitterSteps) l st = (Return l, st)).
    { clear st. induction IH as [|x l Hx _ IHl]; intros st; [reflexivity|].
      cbn [forallb] in Hplain. apply andb_prop in Hplain as [Hpx Hpl].
      cbn [loadsItems]. rewrite (bind_return _ _ _ _ _ (Hx Hpx st)).
      rewrite (bind_return _ _ _ _ _ (IHl Hpl st)). reflexivity. }
    rewrite (bind_return _ _ _ _ _ (Hitems st)). reflexivity.
  - cbn [loads plain] in *. apply andb_prop in Hplain as [Hdisc Hvalues].
    assert (Hmembers : forall st,
               loadsMembers (loads decodeJSONFitterSteps) d st = (Return d, st)).
    { clear st Hdisc. induction IH as [|[k x] d Hx _ IHd]; intros st; [reflexivity|].
      cbn [forallb snd] in Hvalues, Hx. apply andb_prop in Hvalues as [Hpx Hpd].
      cbn [loadsMembers]. rewrite (bind_return _ _ _ _ _ (Hx Hpx st)).
      rewrite (bind_return _ _ _ _ _ (IHd Hpd st)). reflexivity. }
    rewrite (bind_return _ _ _ _ _ (Hmembers st)).
    unfold decodeJSONFitterSteps. unfold hasDiscriminator in Hdisc.
    apply negb_true_iff in Hdisc. apply orb_false_elim in Hdisc as [Hdisc Hfit].
    apply orb_false_elim in Hdisc as [Halign Hconfig].
    rewrite Halign, Hconfig, Hfit. reflexivity.
Qed.

Lemma loadsMembers_plain (d : list (string * pyval)) :
  forallb (fun kv => plain (snd kv)) d = true ->
  forall st, loadsMembers (loads decodeJSONFitterSteps) d st = (Return d, st).
Proof.
  induction d as [|[k x] d IH]; intros Hplain st; [reflexivity|].
  cbn [forallb snd] in Hplain. apply andb_prop in Hplain as [Hx Hd].
  cbn [loadsMembers]. rewrite (bind_return _ _ _ _ _ (loads_plain x Hx st)).
  rewrite (bind_return _ _ _ _ _ (IH Hd st)). reflexivity.
Qed.

(** The decoder rebuilds a step from its own encoding. *)
Lemma decoder_encoded (s : FitterStep) :
  decodeJSONFitterSteps (encodeSettingsJSONDict s) = addFitterStep s.
Proof. destruct s as [|[g m r sc t]|]; reflexivity. Qed.

Lemma loads_step (s : FitterStep) (st : Fitter) :
  plainStep s = true ->
  loads decodeJSONFitterSteps (PDict (encodeSettingsJSONDict s)) st = addFitterStep s st.
Proof.
  intros Hplain. cbn [loads].
  assert (Hvalues : forallb (fun kv => plain (snd kv)) (encodeSettingsJSONDict s) = true).
  { destruct s as [|[g m r sc t]|]; try reflexivity.
    cbn in Hplain |- *. repeat (apply andb_prop in Hplain as [Hplain ?]).
    repeat (apply andb_true_intro; split); assumption || reflexivity. }
  rewrite (bind_return _ _ _ _ _ (loadsMembers_plain (encodeSettingsJSONDict s) Hvalues st)).
  now rewrite decoder_encoded.
Qed.

(** Decoding the encoded step list appends the steps, in order. *)
Lemma loadsItems_steps (steps : list FitterStep) :
  forallb plainStep steps = true ->
  forall st,
    loadsItems (loads decodeJSONFitterSteps) (PDict ∘ encodeSettingsJSONDict <$> steps) st
    = (Return (PStep <$> seq (length (_fitterSteps st)) (length steps)),
       setFitterSteps (_fitterSteps st ++ steps) st).
Proof.
  induction steps as [|s steps IH]; intros Hplain st.
  - cbn. unfold ret. rewrite app_nil_r. destruct st; reflexivity.
  - cbn [forallb] in Hplain. apply andb_prop in Hplain as [Hs Hsteps].
    cbn [fmap list_fmap loadsItems]. change ((PDict ∘ encodeSettingsJSONDict) s)
      with (PDict (encodeSettingsJSONDict s)).
    unfold bind at 1. rewrite (loads_step s st Hs). unfold addFitterStep.
    unfold bind at 1. fold (fmap (M := list) (PDict ∘ encodeSettingsJSONDict) steps).
    rewrite (IH Hsteps). unfold ret. cbn [_fitterSteps setFitterSteps length seq fmap list_fmap].
    rewrite length_app, <- app_assoc. cbn [length app]. rewrite Nat.add_1_r. reflexivity.
Qed.

End SettingsFacts.

(** C7.  For settings whose values are plain JSON values (names or null,
    numbers, booleans, lists of numbers) and whose first step is the initial
    config step, decoding what [encodeSettingsJSON] produces, into any
    fitter, returns and leaves that fitter with exactly these settings: the
    field names, marker group name and diagnostic level, and the steps in
    order with every field of every align step. *)
Theorem decode_encode_round_trip (ft ft0 : Settings.Fitter) :
  wellFormed ft ->
  Settings.decodeSettingsJSON (Settings.encodeSettingsJSON ft)
    Settings.decodeJSONFitterSteps ft0
  = (Return tt, ft).
Proof.
  intros (Hm & Hd & Hf & Hg & Hl & Hsteps & rest & Hfirst).
  unfold Settings.decodeSettingsJSON.
  unfold bind at 1. unfold get at 1. unfold bind at 1. unfold modify at 1.
  unfold Settings.encodeSettingsJSON. cbn [Settings.loads Settings.loadsMembers].
  unfold bind at 1. unfold bind at 1. unfold bind at 1.
  rewrite (loads_plain _ Hm). unfold bind at 1. unfold bind at 1.
  rewrite (loads_plain _ Hd). unfold bind at 1. unfold bind at 1.
  rewrite (loads_plain _ Hf). unfold bind at 1. unfold bind at 1.
  rewrite (loads_plain _ Hg). unfold bind at 1. unfold bind at 1.
  rewrite (loads_plain _ Hl). unfold bind at 1. unfold bind at 1. unfold bind at 1.
  rewrite (loadsItems_steps _ Hsteps).
  cbn [Settings._fitterSteps Settings.setFitterSteps app length].
  rewrite Hfirst. destruct ft as [m d f g l steps]. cbn in Hfirst. subst steps.
  reflexivity.
Qed.

(** Settings with the three kinds of step. *)
Definition exampleSettings : Settings.Fitter :=
  {| Settings._modelCoordinatesFieldName := Settings.PStr "coordinates";
     Settings._dataCoordinatesFieldName := Settings.PStr "data_coordinates";
     Settings._fibreFieldName := Settings.PNone;
     Settings._markerGroupName := Settings.PStr "marker";
     Settings._diagnosticLevel := Settings.PInt 1;
     Settings._fitterSteps :=
       [Settings.FitterStepConfig;
        Settings.FitterStepAlign
          {| Settings._alignGroups := Settings.PBool false;
             Settings._alignMarkers := Settings.PBool true;
             Settings._rotation :=
               Settings.PList [Settings.PFloat (1 # 2); Settings.PFloat 0; Settings.PFloat 0];
             Settings._scale := Settings.PFloat (3 # 2);
             Settings._translation :=
               Settings.PList [Settings.PFloat 1; Settings.PFloat 2; Settings.PFloat 3] |};
        Settings.FitterStepFit] |}.

(** A new fitter: no names, diagnostic level 0, the initial config step. *)
Definition newFitter : Settings.Fitter :=
  {| Settings._modelCoordinatesFieldName := Settings.PNone;
     Settings._dataCoordinatesFieldName := Settings.PNone;
     Settings._fibreFieldName := Settings.PNone;
     Settings._markerGroupName := Settings.PNone;
     Settings._diagnosticLevel := Settings.PInt 0;
     Settings._fitterSteps := [Settings.FitterStepConfig] |}.

(** The round trip at the example settings, decoded into a new fitter. *)
Lemma decode_encode_round_trip_witness :
  Settings.decodeSettingsJSON (Settings.encodeSettingsJSON exampleSettings)
    Settings.decodeJSONFitterSteps newFitter
  = (Return tt, exampleSettings).
Proof.
  apply (decode_encode_round_trip exampleSettings newFitter).
  repeat split; try reflexivity. eexists; reflexivity.
Defined.

(** C8 (as amended).  When the JSON text has been decoded without an
    exception, [decodeSettingsJSON] raises the "Missing initial config step"
    AssertionError exactly when the decoded step list is empty or its first
    element is not a config step; on that failure the step list is the one
    before the call and [decodeSettingsJSON] has assigned no other field, so
    that with a decoder that touches nothing but the step list the fitter is
    as it was before the call. *)
Theorem decode_missing_config_step
    (s : Settings.pyval)
    (decoder : list (string * Settings.pyval) -> M Settings.Fitter Settings.pyval)
    (ft : Settings.Fitter) (settings : Settings.pyval) (ft1 : Settings.Fitter) :
  Settings.loads decoder s (Settings.setFitterSteps [] ft) = (Return settings, ft1) ->
  let missing :=
    match Settings._fitterSteps ft1 with
    | [] => true
    | first :: _ => negb (Settings.isConfig first)
    end in
  let out := Settings.decodeSettingsJSON s decoder ft in
  (fst out = Raise (AssertionError "Missing initial config step") <-> missing = true)
  /\ (missing = true ->
      snd out = Settings.setFitterSteps (Settings._fitterSteps ft) ft1
      /\ forall steps1, ft1 = Settings.setFitterSteps steps1 ft -> snd out = ft).
Proof.
  intros Hloads missing out.
  assert (Hout : missing = true ->
                 out = (Raise (AssertionError "Missing initial config step"),
                        Settings.setFitterSteps (Settings._fitterSteps ft) ft1)).
  { intros Hmissing. subst out missing. unfold Settings.decodeSettingsJSON.
    unfold bind at 1. unfold get at 1. unfold bind at 1. unfold modify at 1.
    unfold bind at 1. rewrite Hloads. unfold bind at 1. unfold get at 1.
    destruct (Settings._fitterSteps ft1) as [|first rest]; [reflexivity|].
    apply negb_true_iff in Hmissing. rewrite Hmissing. reflexivity. }
  split; [split|].
  - intros Hraise. destruct missing eqn:Hmissing; [reflexivity|]. exfalso.
    subst out missing. revert Hraise. unfold Settings.decodeSettingsJSON.
    unfold bind at 1. unfold get at 1. unfold bind at 1. unfold modify at 1.
    unfold bind at 1. rewrite Hloads. unfold bind at 1. unfold get at 1.
    destruct (Settings._fitterSteps ft1) as [|first rest]; [discriminate Hmissing|].
    apply negb_false_iff in Hmissing. rewrite Hmissing.
    unfold bind, modify, Settings.liftResult, Settings.settingsGet, Settings.settingsItem,
      Settings.dictItem.
    destruct settings as [| | | | | |d|]; cbn; try discriminate.
    destruct (PyDict.dictGet "diagnosticLevel" d); cbn; discriminate.
  - intros Hmissing. now rewrite (Hout Hmissing).
  - intros Hmissing. rewrite (Hout Hmissing). cbn [snd]. split; [reflexivity|].
    intros steps1 ->. destruct ft; reflexivity.
Qed.

(** The theorem at a document whose only step is an align step, decoded
    into the example settings. *)
Lemma decode_missing_config_step_witness :
  let s := Settings.PDict
             [("diagnosticLevel", Settings.PInt 2);
              ("fitterSteps",
               Settings.PList [Settings.PDict [("_FitterStepAlign", Settings.PBool true)]])] in
  let out := Settings.decodeSettingsJSON s Settings.decodeJSONFitterSteps exampleSettings in
  fst out = Raise (AssertionError "Missing initial config step")
  /\ snd out = exampleSettings.
Proof.
  intros s out.
  pose proof (decode_missing_config_step s Settings.decodeJSONFitterSteps exampleSettings
                (Settings.PDict [("diagnosticLevel", Settings.PInt 2);
                                 ("fitterSteps", Settings.PList [Settings.PStep 0])])
                (Settings.setFitterSteps [Settings.FitterStepAlign Settings.newAlign]
                   exampleSettings) eq_refl) as H.
  cbv zeta in H. destruct H as [Hiff Hstate].
  split.
  - apply Hiff. reflexivity.
  - apply (proj2 (Hstate eq_refl) [Settings.FitterStepAlign Settings.newAlign]). reflexivity.
Defined.

(** C8 as stated fails.  A document whose first step is a config step but
    which has no "diagnosticLevel" makes [decodeSettingsJSON] raise a
    KeyError, and then the step list and the name fields have already been
    replaced. *)
Lemma decode_fails_with_config_step_counterexample :
  let s := Settings.PDict
             [("fitterSteps",
               Settings.PList [Settings.PDict [("_FitterStepConfig", Settings.PBool true)]])] in
  let out := Settings.decodeSettingsJSON s Settings.decodeJSONFitterSteps exampleSettings in
  fst out = Raise (KeyError "diagnosticLevel")
  /\ Settings._fitterSteps (snd out) = [Settings.FitterStepConfig]
  /\ Settings._fitterSteps (snd out) <> Settings._fitterSteps exampleSettings
  /\ Settings._modelCoordinatesFieldName (snd out) = Settings.PNone
  /\ Settings._modelCoordinatesFieldName exampleSettings = Settings.PStr "coordinates".
Proof. vm_compute. repeat split. discriminate. Qed.

(** * Further properties of the code *)

(** ** Step lookups, insertion and removal *)

Section StepListFacts.
Import Pipeline.

Definition isConfigStep (s : FitterStep) : bool := sameKind (kind s) Config.

(** The pipeline invariant: the first step is a config step. *)
Definition startsWithConfig (ft : Fitter) : Prop :=
  exists s rest, fitterSteps ft = s :: rest /\ kind s = Config.

(** The steps are distinct objects. *)
Definition distinctSteps (ft : Fitter) : Prop := NoDup (stepId <$> fitterSteps ft).

Lemma rev_seq_S (n : nat) : rev (seq 0 (S n)) = n :: rev (seq 0 n).
Proof. rewrite seq_S, rev_app_distr. reflexivity. Qed.

(** The backward scan below position [n] returns the nearest step that
    passes the test, or none when no step below [n] passes it. *)
Lemma scanBack_spec (test : FitterStep -> bool) (steps : list FitterStep) (n : nat) :
  n <= length steps ->
  (exists j s, scanBack test steps (rev (seq 0 n)) = Return (Some s)
               /\ j < n /\ steps !! j = Some s /\ test s = true
               /\ forall k s', j < k < n -> steps !! k = Some s' -> test s' = false)
  \/ (scanBack test steps (rev (seq 0 n)) = Return None
      /\ forall k s', k < n -> steps !! k = Some s' -> test s' = false).
Proof.
  induction n as [|n IH]; intros Hn.
  - right. split; [reflexivity|]. intros k s' Hk. lia.
  - rewrite rev_seq_S. cbn [scanBack].
    destruct (lookup_lt_is_Some_2 steps n) as [s Hs]; [lia|]. rewrite Hs.
    destruct (test s) eqn:Ht.
    + left. exists n, s. split; [reflexivity|]. split; [lia|].
      split; [exact Hs|]. split; [exact Ht|]. intros k s' Hk. lia.
    + destruct IH as [(j & s0 & Hscan & Hj & Hlook & Htest & Hbetween)|[Hscan Hnone]]; [lia| |].
      * left. exists j, s0. split; [exact Hscan|]. split; [lia|].
        split; [exact Hlook|]. split; [exact Htest|].
        intros k s' Hk Hlk. destruct (decide (k = n)) as [->|Hne].
        -- rewrite Hs in Hlk. injection Hlk as <-. exact Ht.
        -- apply (Hbetween k); [lia | exact Hlk].
      * right. split; [exact Hscan|]. intros k s' Hk Hlk.
        destruct (decide (k = n)) as [->|Hne].
        -- rewrite Hs in Hlk. injection Hlk as <-. exact Ht.
        -- apply (Hnone k); [lia | exact Hlk].
Qed.

Lemma index_lookup (id : nat) (steps : list FitterStep) (i : nat) :
  index id steps = Some i ->
  exists s, steps !! i = Some s /\ stepId s = id.
Proof.
  revert i. induction steps as [|s steps IH]; intros i; cbn [index]; [discriminate|].
  destruct (Nat.eqb_spec (stepId s) id) as [Heq|Hne].
  - intros [= <-]. exists s. split; [reflexivity | exact Heq].
  - destruct (index id steps) as [k|]; cbn; [|discriminate].
    intros [= <-]. apply (IH k eq_refl).
Qed.

End StepListFacts.

(** X1.  In a pipeline whose first step is a config step,
    [getActiveFitterStepConfig] never reaches its failing assertion: for
    every step of the pipeline it returns a config step at or before that
    step, and no step between the two is a config step. *)
Theorem getActiveFitterStepConfig_nearest
    (ft : Pipeline.Fitter) (refStep i : nat) :
  startsWithConfig ft ->
  Pipeline.index refStep (Pipeline.fitterSteps ft) = Some i ->
  exists j s,
    Pipeline.getActiveFitterStepConfig refStep ft = Return s
    /\ j <= i
    /\ Pipeline.fitterSteps ft !! j = Some s
    /\ Pipeline.kind s = Pipeline.Config
    /\ forall k s', j < k <= i -> Pipeline.fitterSteps ft !! k = Some s' ->
         Pipeline.kind s' <> Pipeline.Config.
Proof.
  intros (s0 & rest & Hsteps & Hkind) Hindex.
  pose proof (index_lt _ _ _ Hindex) as Hlt.
  unfold Pipeline.getActiveFitterStepConfig. rewrite Hindex.
  destruct (scanBack_spec isConfigStep (Pipeline.fitterSteps ft) (i + 1))
    as [(j & s & Hscan & Hj & Hlook & Htest & Hbetween)|[Hscan Hnone]]; [lia| |].
  - fold isConfigStep. rewrite Hscan. exists j, s.
    split; [reflexivity|]. split; [lia|]. split; [exact Hlook|].
    split; [unfold isConfigStep in Htest; destruct (Pipeline.kind s); try discriminate;
            reflexivity|].
    intros k s' Hk Hlk Hc. specialize (Hbetween k s' ltac:(lia) Hlk).
    unfold isConfigStep in Hbetween. rewrite Hc in Hbetween. discriminate Hbetween.
  - exfalso. specialize (Hnone 0 s0 ltac:(lia)). rewrite Hsteps in Hnone.
    specialize (Hnone eq_refl). unfold isConfigStep in Hnone. rewrite Hkind in Hnone.
    discriminate Hnone.
Qed.

Lemma getActiveFitterStepConfig_nearest_witness :
  let ft := {| Pipeline.fitterSteps :=
                 [Pipeline.mkStep 10 Pipeline.Config true; Pipeline.mkStep 11 Pipeline.Align true;
                  Pipeline.mkStep 12 Pipeline.Config false; Pipeline.mkStep 13 Pipeline.Fit false];
               Pipeline.log := [] |} in
  exists j s,
    Pipeline.getActiveFitterStepConfig 13 ft = Return s
    /\ j <= 3
    /\ Pipeline.fitterSteps ft !! j = Some s
    /\ Pipeline.kind s = Pipeline.Config
    /\ forall k s', j < k <= 3 -> Pipeline.fitterSteps ft !! k = Some s' ->
         Pipeline.kind s' <> Pipeline.Config.
Proof.
  intros ft. apply (getActiveFitterStepConfig_nearest ft 13 3).
  - eexists _, _. split; reflexivity.
  - reflexivity.
Defined.

(** X2.  [getInheritFitterStep] returns, for a step of the pipeline, the
    nearest earlier step of the same class, and None exactly when no earlier
    step has that class; for the first step it returns None. *)
Theorem getInheritFitterStep_nearest
    (ft : Pipeline.Fitter) (refStep i : nat) (r : Pipeline.FitterStep) :
  Pipeline.index refStep (Pipeline.fitterSteps ft) = Some i ->
  Pipeline.fitterSteps ft !! i = Some r ->
  (exists j s,
     Pipeline.getInheritFitterStep refStep ft = Return (Some s)
     /\ j < i
     /\ Pipeline.fitterSteps ft !! j = Some s
     /\ Pipeline.kind s = Pipeline.kind r
     /\ forall k s', j < k < i -> Pipeline.fitterSteps ft !! k = Some s' ->
          Pipeline.kind s' <> Pipeline.kind r)
  \/ (Pipeline.getInheritFitterStep refStep ft = Return None
      /\ forall k s', k < i -> Pipeline.fitterSteps ft !! k = Some s' ->
           Pipeline.kind s' <> Pipeline.kind r).
Proof.
  intros Hindex Hr. pose proof (index_lt _ _ _ Hindex) as Hlt.
  unfold Pipeline.getInheritFitterStep. rewrite Hindex, Hr.
  assert (Hsame : forall a b, Pipeline.sameKind a b = true <-> a = b)
    by (intros [] []; cbn; split; congruence).
  destruct (scanBack_spec (fun s => Pipeline.sameKind (Pipeline.kind s) (Pipeline.kind r))
              (Pipeline.fitterSteps ft) i)
    as [(j & s & Hscan & Hj & Hlook & Htest & Hbetween)|[Hscan Hnone]]; [lia| |].
  - left. exists j, s. rewrite Hscan. split; [reflexivity|]. split; [exact Hj|].
    split; [exact Hlook|]. split; [now apply Hsame|].
    intros k s' Hk Hlk Hc. apply Hsame in Hc.
      rewrite (Hbetween k s' Hk Hlk) in Hc. discriminate Hc.
  - right. rewrite Hscan. split; [reflexivity|].
    intros k s' Hk Hlk Hc. apply Hsame in Hc.
    rewrite (Hnone k s' Hk Hlk) in Hc. discriminate Hc.
Qed.

Lemma getInheritFitterStep_nearest_witness :
  let ft := {| Pipeline.fitterSteps :=
                 [Pipeline.mkStep 10 Pipeline.Config true; Pipeline.mkStep 11 Pipeline.Fit true;
                  Pipeline.mkStep 12 Pipeline.Align false; Pipeline.mkStep 13 Pipeline.Fit false];
               Pipeline.log := [] |} in
  (exists j s,
     Pipeline.getInheritFitterStep 13 ft = Return (Some s)
     /\ j < 3
     /\ Pipeline.fitterSteps ft !! j = Some s
     /\ Pipeline.kind s = Pipeline.Fit
     /\ forall k s', j < k < 3 -> Pipeline.fitterSteps ft !! k = Some s' ->
          Pipeline.kind s' <> Pipeline.Fit)
  \/ (Pipeline.getInheritFitterStep 13 ft = Return None
      /\ forall k s', k < 3 -> Pipeline.fitterSteps ft !! k = Some s' ->
           Pipeline.kind s' <> Pipeline.Fit).
Proof.
  intros ft.
  apply (getInheritFitterStep_nearest ft 13 3 (Pipeline.mkStep 13 Pipeline.Fit false));
    reflexivity.
Defined.

(** X3.  The active config of a step is the step itself when it is a config
    step, and otherwise the config step it inherits from; so
    [getActiveFitterStepConfig] fails exactly when the step is not a config
    step and [getInheritFitterStepConfig] finds none. *)
Theorem getActiveFitterStepConfig_is_self_or_inherited
    (ft : Pipeline.Fitter) (refStep i : nat) (r : Pipeline.FitterStep) :
  Pipeline.index refStep (Pipeline.fitterSteps ft) = Some i ->
  Pipeline.fitterSteps ft !! i = Some r ->
  Pipeline.getActiveFitterStepConfig refStep ft
  = if isConfigStep r then Return r
    else match Pipeline.getInheritFitterStepConfig refStep ft with
         | Return (Some s) => Return s
         | Return None =>
             Raise (AssertionError "getActiveFitterStepConfig.  Could not find config.")
         | Raise e => Raise e
         end.
Proof.
  intros Hindex Hr.
  unfold Pipeline.getActiveFitterStepConfig, Pipeline.getInheritFitterStepConfig.
  rewrite Hindex. rewrite Nat.add_1_r, rev_seq_S. cbn [Pipeline.scanBack].
  rewrite Hr. fold (isConfigStep r). destruct (isConfigStep r); reflexivity.
Qed.

Lemma getActiveFitterStepConfig_is_self_or_inherited_witness :
  let ft := {| Pipeline.fitterSteps :=
                 [Pipeline.mkStep 10 Pipeline.Config true; Pipeline.mkStep 11 Pipeline.Align true];
               Pipeline.log := [] |} in
  Pipeline.getActiveFitterStepConfig 11 ft
  = if isConfigStep (Pipeline.mkStep 11 Pipeline.Align true)
    then Return (Pipeline.mkStep 11 Pipeline.Align true)
    else match Pipeline.getInheritFitterStepConfig 11 ft with
         | Return (Some s) => Return s
         | Return None =>
             Raise (AssertionError "getActiveFitterStepConfig.  Could not find config.")
         | Raise e => Raise e
         end.
Proof.
  intros ft.
  apply (getActiveFitterStepConfig_is_self_or_inherited ft 11 1
           (Pipeline.mkStep 11 Pipeline.Align true)); reflexivity.
Defined.

Section StepEditFacts.
Import Pipeline.

Lemma index_zero (id : nat) (steps : list FitterStep) :
  index id steps = Some 0 ->
  exists s rest, steps = s :: rest /\ stepId s = id.
Proof.
  destruct steps as [|s rest]; cbn [index]; [discriminate|].
  destruct (Nat.eqb_spec (stepId s) id) as [Heq|Hne]; [eauto|].
  destruct (index id rest); cbn; discriminate.
Qed.

Lemma index_positive (id : nat) (s : FitterStep) (rest : list FitterStep) (i : nat) :
  index id (s :: rest) = Some i -> stepId s <> id -> 0 < i.
Proof.
  cbn [index]. destruct (Nat.eqb_spec (stepId s) id); [contradiction|].
  destruct (index id rest); cbn; [|discriminate]. intros [= <-] _. lia.
Qed.

(** The position of a step that is not among the steps before it. *)
Lemma index_middle (id : nat) (before after : list FitterStep) (s : FitterStep) :
  stepId s = id -> id ∉ (stepId <$> before) ->
  index id (before ++ s :: after) = Some (length before).
Proof.
  intros Hs. induction before as [|b before IH]; intros Hfresh; cbn [app index length].
  - rewrite Hs, Nat.eqb_refl. reflexivity.
  - cbn [fmap list_fmap] in Hfresh. apply not_elem_of_cons in Hfresh as [Hb Hrest].
    destruct (Nat.eqb_spec (stepId b) id); [congruence|].
    rewrite (IH Hrest). reflexivity.
Qed.

(** Removing a step that is not the first returns, with the step deleted. *)
Lemma removeFitterStep_deletes (ft : Fitter) (step i : nat) :
  index step (fitterSteps ft) = Some i -> 0 < i ->
  exists s,
    removeFitterStep step ft
    = (Return s, {| fitterSteps := delete i (fitterSteps ft); log := log ft |}).
Proof.
  intros Hindex Hpos. pose proof (index_lt _ _ _ Hindex) as Hlt.
  unfold removeFitterStep, getInitialFitterStepConfig.
  destruct (fitterSteps ft) as [|first rest] eqn:Hsteps; [cbn in Hlt; lia|].
  destruct (Nat.eqb_spec (stepId first) step) as [Heq|Hne].
  - exfalso. cbn [index] in Hindex. rewrite <- Heq, Nat.eqb_refl in Hindex.
    injection Hindex as <-. lia.
  - rewrite Hindex. cbv zeta.
    assert (Hlen : length (delete i (first :: rest)) = length (first :: rest) - 1)
      by (apply length_delete, lookup_lt_is_Some_2, Hlt).
    cbn [length] in Hlt, Hlen.
    match goal with |- context [delete i (first :: rest) !! ?k] =>
      destruct (lookup_lt_is_Some_2 (delete i (first :: rest)) k) as [s Hs]
    end.
    + rewrite Hlen. destruct (Nat.leb_spec (S (length rest) - 1) i); lia.
    + exists s. now rewrite Hs.
Qed.

End StepEditFacts.

(** X4.  [removeFitterStep] refuses the initial config step, leaving the
    pipeline as it is; any other step of the pipeline is taken out of the
    list, the first step stays first, and the step returned is the one that
    followed the removed step or, when it was the last, the one before it. *)
Theorem removeFitterStep_returns_neighbour
    (ft : Pipeline.Fitter) (step i : nat) :
  Pipeline.index step (Pipeline.fitterSteps ft) = Some i ->
  (i = 0 -> Pipeline.removeFitterStep step ft = (Raise (AssertionError ""), ft))
  /\ (0 < i ->
      exists s,
        Pipeline.removeFitterStep step ft
        = (Return s, {| Pipeline.fitterSteps := delete i (Pipeline.fitterSteps ft);
                        Pipeline.log := Pipeline.log ft |})
        /\ head (delete i (Pipeline.fitterSteps ft)) = head (Pipeline.fitterSteps ft)
        /\ length (delete i (Pipeline.fitterSteps ft)) = length (Pipeline.fitterSteps ft) - 1
        /\ Some s = if decide (i + 1 < length (Pipeline.fitterSteps ft))
                    then Pipeline.fitterSteps ft !! (i + 1)
                    else Pipeline.fitterSteps ft !! (i - 1)).
Proof.
  intros Hindex. pose proof (index_lt _ _ _ Hindex) as Hlt.
  unfold Pipeline.removeFitterStep, Pipeline.getInitialFitterStepConfig.
  destruct (Pipeline.fitterSteps ft) as [|first rest] eqn:Hsteps; [cbn in Hlt; lia|].
  split.
  - intros ->. destruct (index_zero _ _ Hindex) as (s & rest' & [= <- <-] & Hid).
    rewrite <- Hid, Nat.eqb_refl. reflexivity.
  - intros Hpos.
    destruct (Nat.eqb_spec (Pipeline.stepId first) step) as [Heq|Hne].
    + exfalso. cbn [Pipeline.index] in Hindex. rewrite <- Heq, Nat.eqb_refl in Hindex.
      injection Hindex as <-. lia.
    + rewrite Hindex.
      assert (Hlen : length (delete i (first :: rest)) = length (first :: rest) - 1)
        by (apply length_delete, lookup_lt_is_Some_2, Hlt).
      cbn [length] in Hlt, Hlen |- *. rewrite Hlen.
      destruct (Nat.leb_spec (S (length rest) - 1) i) as [Hlast|Hmid].
      * (* the removed step was the last *)
        assert (Hi : i = length rest) by lia. subst i.
        destruct (lookup_lt_is_Some_2 (first :: rest) (length rest - 0 - 1 + 0))
          as [s Hs]; [cbn; lia|].
        replace (length rest - 0 - 1 + 0) with (length rest - 1) in Hs by lia.
        exists s. rewrite list_lookup_delete_lt by lia.
        assert (Heq : S (length rest) - 1 - 1 = length rest - 1) by lia.
        rewrite Heq, Hs.
        split; [reflexivity|]. split; [now destruct (length rest)|].
        split; [lia|]. rewrite decide_False by lia. reflexivity.
      * destruct (lookup_lt_is_Some_2 (first :: rest) (S i)) as [s Hs]; [cbn; lia|].
        exists s. rewrite list_lookup_delete_ge by lia. rewrite Hs.
        split; [reflexivity|]. split; [now destruct i; [lia|]|].
        split; [lia|]. rewrite decide_True by lia. now rewrite Nat.add_1_r, Hs.
Qed.

Lemma removeFitterStep_returns_neighbour_witness :
  let ft := {| Pipeline.fitterSteps :=
                 [Pipeline.mkStep 10 Pipeline.Config true; Pipeline.mkStep 11 Pipeline.Align true;
                  Pipeline.mkStep 12 Pipeline.Fit false];
               Pipeline.log := [] |} in
  (2 = 0 -> Pipeline.removeFitterStep 12 ft = (Raise (AssertionError ""), ft))
  /\ (0 < 2 ->
      exists s,
        Pipeline.removeFitterStep 12 ft
        = (Return s, {| Pipeline.fitterSteps := delete 2 (Pipeline.fitterSteps ft);
                        Pipeline.log := Pipeline.log ft |})
        /\ head (delete 2 (Pipeline.fitterSteps ft)) = head (Pipeline.fitterSteps ft)
        /\ length (delete 2 (Pipeline.fitterSteps ft)) = length (Pipeline.fitterSteps ft) - 1
        /\ Some s = if decide (2 + 1 < length (Pipeline.fitterSteps ft))
                    then Pipeline.fitterSteps ft !! (2 + 1)
                    else Pipeline.fitterSteps ft !! (2 - 1)).
Proof.
  intros ft. apply (removeFitterStep_returns_neighbour ft 12 2). reflexivity.
Defined.

(** X5.  Removing a step right after adding it gives the pipeline back:
    for a new step (not yet in the pipeline) added to a non-empty pipeline,
    after a reference step or at the end, [removeFitterStep] of that step
    returns and the step list is the one before [addFitterStep]. *)
Theorem remove_after_add_restores
    (ft ft1 : Pipeline.Fitter) (s : Pipeline.FitterStep) (refStep : option nat) :
  Pipeline.fitterSteps ft <> [] ->
  Pipeline.stepId s ∉ (Pipeline.stepId <$> Pipeline.fitterSteps ft) ->
  Pipeline.addFitterStep s refStep ft = (Return tt, ft1) ->
  exists next, Pipeline.removeFitterStep (Pipeline.stepId s) ft1 = (Return next, ft).
Proof.
  intros Hne Hfresh Hadd.
  assert (Hsplit : exists before after,
             Pipeline.fitterSteps ft = before ++ after /\ before <> []
             /\ ft1 = {| Pipeline.fitterSteps := before ++ s :: after;
                         Pipeline.log := Pipeline.log ft |}).
  { unfold Pipeline.addFitterStep in Hadd.
    rewrite bool_decide_eq_false_2 in Hadd by exact Hfresh. destruct refStep as [r|].
    - destruct (Pipeline.index r (Pipeline.fitterSteps ft)) as [i|] eqn:Hi; [|discriminate].
      injection Hadd as <-. pose proof (index_lt _ _ _ Hi) as Hlt.
      exists (take (i + 1) (Pipeline.fitterSteps ft)), (drop (i + 1) (Pipeline.fitterSteps ft)).
      split; [now rewrite take_drop|]. split; [|reflexivity].
      intros Hnil. apply (f_equal length) in Hnil. rewrite length_take in Hnil.
      cbn in Hnil. lia.
    - injection Hadd as <-. exists (Pipeline.fitterSteps ft), [].
      split; [now rewrite app_nil_r|]. split; [exact Hne | reflexivity]. }
  destruct Hsplit as (before & after & Hsteps & Hbefore & ->).
  rewrite Hsteps in Hfresh. rewrite fmap_app in Hfresh.
  apply not_elem_of_app in Hfresh as [Hfresh _].
  destruct (removeFitterStep_deletes
              {| Pipeline.fitterSteps := before ++ s :: after; Pipeline.log := Pipeline.log ft |}
              (Pipeline.stepId s) (length before)) as (next & Hrun).
  { cbn. now apply index_middle. }
  { destruct before; [contradiction | cbn; lia]. }
  exists next. rewrite Hrun. cbn [Pipeline.fitterSteps Pipeline.log].
  rewrite delete_middle, <- Hsteps. destruct ft; reflexivity.
Qed.

Lemma remove_after_add_restores_witness :
  let ft := {| Pipeline.fitterSteps :=
                 [Pipeline.mkStep 10 Pipeline.Config true; Pipeline.mkStep 11 Pipeline.Align true];
               Pipeline.log := [] |} in
  let s := Pipeline.mkStep 12 Pipeline.Fit false in
  exists next,
    Pipeline.removeFitterStep 12
      {| Pipeline.fitterSteps := [Pipeline.mkStep 10 Pipeline.Config true; s;
                                  Pipeline.mkStep 11 Pipeline.Align true];
         Pipeline.log := [] |}
    = (Return next, ft).
Proof.
  intros ft s.
  apply (remove_after_add_restores ft _ s (Some 10)).
  - discriminate.
  - cbn. intros H. repeat (apply elem_of_cons in H as [H|H]; [discriminate H|]).
    now apply not_elem_of_nil in H.
  - reflexivity.
Defined.

(** ** Running twice, and what [run] keeps *)

Section RunFacts.
Import Pipeline.

(** The config step has run and the steps that have run form an initial
    segment: the state after [load] and after every [run] since. *)
Definition loadedState (ft : Fitter) : Prop :=
  hasRunAt ft 0 = true /\ runsAreInitial ft.

Lemma index_ids (id : nat) (l1 l2 : list FitterStep) :
  stepId <$> l1 = stepId <$> l2 -> index id l1 = index id l2.
Proof.
  revert l2. induction l1 as [|a l1 IH]; intros [|b l2] Hids; try discriminate; [reflexivity|].
  cbn in Hids. injection Hids as Hab Hrest. cbn [index]. rewrite Hab.
  now rewrite (IH l2 Hrest).
Qed.

Lemma endIndexOf_ids (ft ft' : Fitter) (endStep : option nat) :
  stepId <$> fitterSteps ft' = stepId <$> fitterSteps ft ->
  endIndexOf ft' endStep = endIndexOf ft endStep.
Proof.
  intros Hids. unfold endIndexOf. destruct endStep as [id|]; [now apply index_ids|].
  assert (Hlast : stepId <$> last (fitterSteps ft') = stepId <$> last (fitterSteps ft))
    by (rewrite <- !fmap_last; now rewrite Hids).
  destruct (last (fitterSteps ft')) as [s'|], (last (fitterSteps ft)) as [s|];
    try discriminate; [|reflexivity].
  cbn in Hlast. injection Hlast as ->. now apply index_ids.
Qed.

End RunFacts.

(** X6.  Pipeline caching: in a pipeline whose steps that have run form an
    initial segment, when [run] up to a step other than the first returns,
    running up to the same step again performs no reload and runs no step:
    it returns False and the fitter is as the first run left it. *)
Theorem run_twice_runs_nothing
    (loadOutcome : list Pipeline.Event -> option exn)
    (stepOutcome : Pipeline.FitterStep -> list Pipeline.Event -> option exn)
    (ft : Pipeline.Fitter) (endStep : option nat) (stem : option string) (K : nat)
    (reloaded : bool) (ft1 : Pipeline.Fitter) :
  runsAreInitial ft ->
  endIndexOf ft endStep = Some K ->
  0 < K ->
  Pipeline.run loadOutcome stepOutcome endStep stem ft = (Return reloaded, ft1) ->
  Pipeline.run loadOutcome stepOutcome endStep stem ft1 = (Return false, ft1).
Proof.
  intros Hinit Hend Hpos Hrun. pose proof (endIndexOf_lt _ _ _ Hend) as Hlt.
  destruct (run_flags _ _ ft endStep stem K reloaded ft1 Hend Hrun)
    as (_ & Hlen & Hids & Hflags).
  assert (Hend1 : endIndexOf ft1 endStep = Some K)
    by (rewrite (endIndexOf_ids ft ft1 endStep Hids); exact Hend).
  rewrite (run_unfold _ _ _ _ _ _ Hend1).
  assert (Hdone : forall i, 1 <= i < 1 + K -> Pipeline.hasRunAt ft1 i = true).
  { intros i Hi. rewrite Hflags. destruct (Pipeline.reloadNeeded ft K).
    - apply bool_decide_eq_true_2. lia.
    - destruct (Nat.eqb_spec K 0); [lia|].
      rewrite bool_decide_eq_true_2 by lia. reflexivity. }
  assert (Hnext : Pipeline.hasRunAt ft1 (K + 1) = false).
  { rewrite Hflags. destruct (Pipeline.reloadNeeded ft K) eqn:Hreload.
    - apply bool_decide_eq_false_2. lia.
    - destruct (Nat.eqb_spec K 0); [lia|].
      rewrite bool_decide_eq_false_2 by lia. cbn [orb].
      destruct (Pipeline.hasRunAt ft (K + 1)) eqn:Hrun1; [|reflexivity].
      exfalso. unfold Pipeline.reloadNeeded in Hreload.
      rewrite Hrun1, (Hinit K (K + 1) ltac:(lia) Hrun1) in Hreload.
      cbn [andb] in Hreload. rewrite andb_true_r in Hreload.
      apply Nat.ltb_ge in Hreload.
      rewrite hasRunAt_ge in Hrun1 by lia. discriminate Hrun1. }
  unfold Pipeline.reloadNeeded. rewrite Hnext, andb_false_r.
  destruct (Nat.eqb_spec K 0); [lia|].
  rewrite (bind_return _ _ _ _ _ (run_pending_noop stepOutcome stem K 1 ft1 Hdone)).
  reflexivity.
Qed.

(** The theorem where no step fails, and where the first run does return. *)
Lemma run_twice_runs_nothing_witness :
  let loads := fun _ : list Pipeline.Event => @None exn in
  let runs := fun (_ : Pipeline.FitterStep) (_ : list Pipeline.Event) => @None exn in
  let ft := {| Pipeline.fitterSteps :=
                 [Pipeline.mkStep 10 Pipeline.Config true; Pipeline.mkStep 11 Pipeline.Align false;
                  Pipeline.mkStep 12 Pipeline.Fit false];
               Pipeline.log := [] |} in
  let ft1 := snd (Pipeline.run loads runs (Some 12) None ft) in
  Pipeline.hasRun <$> Pipeline.fitterSteps ft1 = [true; true; true]
  /\ Pipeline.run loads runs (Some 12) None ft1 = (Return false, ft1).
Proof.
  intros loads runs ft ft1. split; [reflexivity|].
  apply (run_twice_runs_nothing loads runs ft (Some 12) None 2 false ft1).
  - intros i j Hij Hj. destruct j as [|[|[|j]]]; try discriminate Hj.
    assert (i = 0) as -> by lia. reflexivity.
  - reflexivity.
  - lia.
  - reflexivity.
Defined.

(** X7.  [run] keeps the loaded state and the steps: when [run] up to any
    step of a loaded pipeline returns, the config step has run, the steps
    that have run again form an initial segment, the target has run, and the
    pipeline holds the same step objects in the same order. *)
Theorem run_keeps_loaded_state
    (loadOutcome : list Pipeline.Event -> option exn)
    (stepOutcome : Pipeline.FitterStep -> list Pipeline.Event -> option exn)
    (ft : Pipeline.Fitter) (endStep : option nat) (stem : option string) (K : nat)
    (reloaded : bool) (ft1 : Pipeline.Fitter) :
  loadedState ft ->
  endIndexOf ft endStep = Some K ->
  Pipeline.run loadOutcome stepOutcome endStep stem ft = (Return reloaded, ft1) ->
  loadedState ft1
  /\ Pipeline.stepId <$> Pipeline.fitterSteps ft1 = Pipeline.stepId <$> Pipeline.fitterSteps ft
  /\ Pipeline.hasRunAt ft1 K = true.
Proof.
  intros [Hzero Hinit] Hend Hrun. pose proof (endIndexOf_lt _ _ _ Hend) as Hlt.
  destruct (run_flags _ _ ft endStep stem K reloaded ft1 Hend Hrun)
    as (_ & Hlen & Hids & Hflags).
  split; [|split; [exact Hids|]].
  - split.
    + rewrite Hflags. destruct (Pipeline.reloadNeeded ft K).
      * apply bool_decide_eq_true_2. lia.
      * rewrite Hzero. destruct (Nat.eqb K 0); apply orb_true_r.
    + intros i j Hij. rewrite !Hflags. destruct (Pipeline.reloadNeeded ft K).
      * intros Hj. apply bool_decide_eq_true in Hj. apply bool_decide_eq_true_2. lia.
      * destruct (Nat.eqb_spec K 0).
        -- intros Hj. apply orb_true_iff in Hj as [Hj|Hj].
           ++ apply bool_decide_eq_true in Hj. subst j.
              assert (i = 0) as -> by lia. now rewrite Hzero, orb_true_r.
           ++ rewrite (Hinit i j Hij Hj). apply orb_true_r.
        -- intros Hj. apply orb_true_iff in Hj as [Hj|Hj].
           ++ apply bool_decide_eq_true in Hj.
              destruct (decide (i = 0)) as [->|Hi]; [now rewrite Hzero, orb_true_r|].
              rewrite bool_decide_eq_true_2 by lia. reflexivity.
           ++ rewrite (Hinit i j Hij Hj). apply orb_true_r.
  - rewrite Hflags. destruct (Pipeline.reloadNeeded ft K).
    + apply bool_decide_eq_true_2. lia.
    + destruct (Nat.eqb_spec K 0) as [->|Hnz].
      * now rewrite Hzero, orb_true_r.
      * rewrite bool_decide_eq_true_2 by lia. reflexivity.
Qed.

(** The theorem at a run that reloads: the target is in the middle of a
    pipeline whose steps have all run. *)
Lemma run_keeps_loaded_state_witness :
  let loads := fun _ : list Pipeline.Event => @None exn in
  let runs := fun (_ : Pipeline.FitterStep) (_ : list Pipeline.Event) => @None exn in
  let ft := {| Pipeline.fitterSteps :=
                 [Pipeline.mkStep 10 Pipeline.Config true; Pipeline.mkStep 11 Pipeline.Align true;
                  Pipeline.mkStep 12 Pipeline.Fit true];
               Pipeline.log := [] |} in
  let ft1 := snd (Pipeline.run loads runs (Some 11) None ft) in
  fst (Pipeline.run loads runs (Some 11) None ft) = Return true
  /\ loadedState ft1
  /\ Pipeline.stepId <$> Pipeline.fitterSteps ft1 = Pipeline.stepId <$> Pipeline.fitterSteps ft
  /\ Pipeline.hasRunAt ft1 1 = true.
Proof.
  intros loads runs ft ft1. split; [reflexivity|].
  apply (run_keeps_loaded_state loads runs ft (Some 11) None 1 true ft1).
  - split; [reflexivity|].
    intros i j Hij Hj. destruct j as [|[|[|j]]]; try discriminate Hj;
      destruct i as [|[|[|i]]]; try lia; reflexivity.
  - reflexivity.
  - reflexivity.
Defined.

(** ** More on the subsampling loop *)

Section SamplingMore.
Import Sampling.
Context {F : Type} {ops : FloatOps F} {Node Location : Type}.

(** The accepted nodes at which the mesh search finds an element, with the
    location found. *)
Definition located (eval : Node -> option Location) (nodes : list Node)
    : list (Node * Location) :=
  omap (fun node => pair node <$> eval node) nodes.

Lemma located_app (eval : Node -> option Location) (l1 l2 : list Node) :
  located eval (l1 ++ l2) = located eval l1 ++ located eval l2.
Proof. unfold located. apply omap_app. Qed.

Lemma visit_projected (eval : Node -> option Location) (p : F) (st : LoopState)
    (node : Node) :
  projected st = located eval (accepted st) ->
  projected (visit eval p st node) = located eval (accepted (visit eval p st node)).
Proof.
  intros Hinv. unfold visit.
  destruct (fle fone (fadd (dataProportionCounter st) p)); cbn [projected accepted].
  - rewrite located_app, <- Hinv. unfold located. cbn.
    destruct (eval node); cbn; [reflexivity | now rewrite app_nil_r].
  - exact Hinv.
Qed.

Lemma loop_projected (eval : Node -> option Location) (p : F) (nodes : list Node)
    (st : LoopState) :
  projected st = located eval (accepted st) ->
  let st' := fold_left (visit eval p) nodes st in
  projected st' = located eval (accepted st')
  /\ exists chosen, accepted st' = accepted st ++ chosen /\ sublist chosen nodes.
Proof.
  revert st. induction nodes as [|node nodes IH]; intros st Hinv.
  - cbn. split; [exact Hinv|]. exists []. split; [now rewrite app_nil_r | constructor].
  - cbn [fold_left]. cbv zeta.
    destruct (IH (visit eval p st node) (visit_projected eval p st node Hinv))
      as (Hproj & chosen & Hacc & Hsub).
    split; [exact Hproj|]. cbv zeta in Hacc. rewrite Hacc.
    unfold visit. destruct (fle fone (fadd (dataProportionCounter st) p)); cbn [accepted].
    + exists (node :: chosen). split; [now rewrite <- app_assoc|]. now constructor.
    + exists chosen. split; [reflexivity|]. now constructor.
Qed.

End SamplingMore.

(** The loop at the ends of the range of proportions, for the rationals. *)
Section SamplingExtremes.
Import Sampling.
Context {Node Location : Type}.

(** With a proportion of one or more every pass accepts. *)
Lemma loop_accepts_all (eval : Node -> option Location) (p : Q) (nodes : list Node)
    (st : LoopState) :
  (1 <= p)%Q -> (0 <= dataProportionCounter st)%Q ->
  accepted (fold_left (visit eval p) nodes st) = accepted st ++ nodes.
Proof.
  intros Hp. revert st. induction nodes as [|node nodes IH]; intros st Hc.
  - cbn. now rewrite app_nil_r.
  - cbn [fold_left].
    assert (Hyes : Qle_bool 1 (dataProportionCounter st + p) = true)
      by (apply Qle_bool_iff; lra).
    rewrite IH.
    + unfold visit. cbn [fle fone fadd fsub QFloat]. rewrite Hyes.
      cbn [accepted]. now rewrite <- app_assoc.
    + unfold visit. cbn [fle fone fadd fsub QFloat]. rewrite Hyes.
      cbn [dataProportionCounter]. lra.
Qed.

(** With a proportion of zero or less no pass accepts. *)
Lemma loop_accepts_none (eval : Node -> option Location) (p : Q) (nodes : list Node)
    (st : LoopState) :
  (p <= 0)%Q -> (dataProportionCounter st < 1)%Q ->
  accepted (fold_left (visit eval p) nodes st) = accepted st.
Proof.
  intros Hp. revert st. induction nodes as [|node nodes IH]; intros st Hc; [reflexivity|].
  cbn [fold_left].
  assert (Hno : Qle_bool 1 (dataProportionCounter st + p) = false).
  { destruct (Qle_bool 1 (dataProportionCounter st + p)) eqn:H; [|reflexivity].
    apply Qle_bool_iff in H. lra. }
  rewrite IH; unfold visit; cbn [fle fone fadd fsub QFloat]; rewrite Hno;
    cbn [accepted dataProportionCounter]; [reflexivity | lra].
Qed.

End SamplingExtremes.

(** X8.  For every proportion, whatever the float arithmetic, the nodes
    given a projection are exactly the accepted nodes at which the mesh
    search finds an element, in order and with the location found; and the
    accepted nodes are a subsequence of the data points: none is accepted
    twice or out of order. *)
Theorem projected_are_located_accepted {F : Type} {ops : FloatOps F}
    {Node Location : Type}
    (evaluateMeshLocation : Node -> option Location) (p : F) (nodes : list Node) :
  let st := Sampling.projectLoop evaluateMeshLocation p nodes in
  Sampling.projected st = located evaluateMeshLocation (Sampling.accepted st)
  /\ sublist (Sampling.accepted st) nodes.
Proof.
  cbv zeta. unfold Sampling.projectLoop.
  destruct (loop_projected evaluateMeshLocation p nodes Sampling.initialState eq_refl)
    as (Hproj & chosen & Hacc & Hsub).
  cbv zeta in Hproj, Hacc. split; [exact Hproj|].
  rewrite Hacc. exact Hsub.
Qed.

(** X9.  The subsampling is even: for [0 < p <= 1], among any run of [m]
    consecutive data points, wherever it starts, the number accepted
    differs from [m p] by at most one plus the rounding errors of [m]
    additions, for every float arithmetic that rounds a sum of at most 2
    with an error of at most [u]. *)
Theorem sampling_is_even {F : Type} {ops : FloatOps F} {Node Location : Type}
    (toQ : F -> Q) (finite : F -> Prop) (u : Q)
    (evaluateMeshLocation : Node -> option Location) (p : F)
    (before window : list Node) :
  floatModel toQ finite u ->
  finite p -> (0 < toQ p)%Q -> (toQ p <= 1)%Q ->
  exists chosen,
    Sampling.accepted (Sampling.projectLoop evaluateMeshLocation p (before ++ window))
    = Sampling.accepted (Sampling.projectLoop evaluateMeshLocation p before) ++ chosen
    /\ sublist chosen window
    /\ (inject_Z (Z.of_nat (length window)) * toQ p
        - 1 - inject_Z (Z.of_nat (length window)) * u
        <= inject_Z (Z.of_nat (length chosen)))%Q
    /\ (inject_Z (Z.of_nat (length chosen))
        <= inject_Z (Z.of_nat (length window)) * toQ p
           + 1 + inject_Z (Z.of_nat (length window)) * u)%Q.
Proof.
  intros Hmodel Hfin Hp0 Hp1. unfold Sampling.projectLoop. rewrite fold_left_app.
  pose proof (half_value _ _ _ Hmodel) as Hhalf.
  destruct (loop_count toQ finite u Hmodel evaluateMeshLocation p Hfin Hp0 Hp1 before
              Sampling.initialState)
    as (Hfin1 & Ha & Hb & _);
    cbn [Sampling.dataProportionCounter Sampling.initialState];
    [exact (half_finite _ _ _ Hmodel) | lra | lra |].
  cbv zeta in Hfin1, Ha, Hb.
  set (st := fold_left _ before Sampling.initialState) in *.
  destruct (loop_count toQ finite u Hmodel evaluateMeshLocation p Hfin Hp0 Hp1 window
              st Hfin1 Ha Hb)
    as (_ & Hc & Hd & chosen & Hacc & Hsub & Hlo & Hhi).
  cbv zeta in Hc, Hd, Hacc, Hlo, Hhi.
  exists chosen. split; [exact Hacc|]. split; [exact Hsub|]. split; lra.
Qed.

(** The theorem for the arithmetic in eighths, at [p = 3/8] on the four
    points after the first three. *)
Lemma sampling_is_even_witness :
  exists chosen,
    Sampling.accepted (@Sampling.projectLoop Z eighths nat nat (fun n => Some n) 3%Z
                         (seq 0 3 ++ seq 3 4))
    = Sampling.accepted (@Sampling.projectLoop Z eighths nat nat (fun n => Some n) 3%Z
                           (seq 0 3))
      ++ chosen
    /\ sublist chosen (seq 3 4)
    /\ (inject_Z (Z.of_nat (length (seq 3 4))) * eighthsValue 3
        - 1 - inject_Z (Z.of_nat (length (seq 3 4))) * (1 # 8)
        <= inject_Z (Z.of_nat (length chosen)))%Q
    /\ (inject_Z (Z.of_nat (length chosen))
        <= inject_Z (Z.of_nat (length (seq 3 4))) * eighthsValue 3
           + 1 + inject_Z (Z.of_nat (length (seq 3 4))) * (1 # 8))%Q.
Proof.
  apply (@sampling_is_even Z eighths nat nat eighthsValue (fun _ => True) (1 # 8)
           (fun n => Some n) 3%Z (seq 0 3) (seq 3 4) eighths_floatModel I);
    reflexivity || (intros H; discriminate H).
Defined.

(** X10.  Outside the range of proportions: with a proportion of 1 or more
    every data point is accepted, and with a proportion of 0 or less none
    is.  The proportion is a rational and the counter is computed without
    rounding. *)
Theorem sampling_extreme_proportions {Node Location : Type}
    (evaluateMeshLocation : Node -> option Location) (p : Q) (nodes : list Node) :
  ((1 <= p)%Q ->
   Sampling.accepted (Sampling.projectLoop evaluateMeshLocation p nodes) = nodes)
  /\ ((p <= 0)%Q ->
      Sampling.accepted (Sampling.projectLoop evaluateMeshLocation p nodes) = []).
Proof.
  unfold Sampling.projectLoop. split; intros Hp.
  - rewrite loop_accepts_all; [reflexivity | exact Hp |].
    cbn [Sampling.dataProportionCounter Sampling.initialState fhalf QFloat]. lra.
  - rewrite loop_accepts_none; [reflexivity | exact Hp |].
    cbn [Sampling.dataProportionCounter Sampling.initialState fhalf QFloat]. lra.
Qed.

Lemma sampling_extreme_proportions_witness :
  Sampling.accepted (Sampling.projectLoop (fun n : nat => Some n) 2%Q (seq 0 5)) = seq 0 5
  /\ Sampling.accepted (Sampling.projectLoop (fun n : nat => Some n) 0%Q (seq 0 5)) = [].
Proof.
  split.
  - apply (sampling_extreme_proportions (fun n : nat => Some n) 2%Q (seq 0 5)).
    intros H; discriminate H.
  - apply (sampling_extreme_proportions (fun n : nat => Some n) 0%Q (seq 0 5)).
    intros H; discriminate H.
Defined.

(** ** More on penalty assignment *)

(** X11.  Penalty assignment is idempotent: when a call of
    [assignDeformationPenalties] returns, a second call with the same fit
    step returns the same three groups and leaves the fitter, with its
    penalty fields and active groups, exactly as the first call left it. *)
Theorem assignDeformationPenalties_idempotent
    (fit : Penalty.FitterStepFit) (ft ft1 : Penalty.Fitter)
    (active : gset nat * gset nat * gset nat) :
  Penalty.assignDeformationPenalties fit ft = (Return active, ft1) ->
  Penalty.assignDeformationPenalties fit ft1 = (Return active, ft1).
Proof.
  unfold Penalty.assignDeformationPenalties.
  destruct (Penalty.getHighestDimensionMesh ft) as [[dimension elements]|] eqn:Hmesh;
    [|discriminate].
  destruct (Penalty.penaltyFields ft) as [pf|] eqn:Hpf; [|discriminate].
  set (sc := if Nat.eqb dimension 3 then 9 else 4).
  set (cc := if Nat.eqb dimension 3 then 27 else 8).
  set (groups := Penalty.buildGroups fit sc cc (Penalty.groupList ft)).
  destruct (assign_elements groups elements
              (fun e => resolve_default_last fit sc cc (Penalty.groupList ft) e)
              (Penalty.removeAllElements pf))
    as (pf1 & Hrun & Hsf & Hcf & Hsa & Hca & Hda).
  rewrite Hrun. intros [= <- <-].
  assert (Hmesh1 : Penalty.getHighestDimensionMesh (Penalty.setPenaltyFields ft pf1)
                   = Some (dimension, elements)) by exact Hmesh.
  rewrite Hmesh1. cbn [Penalty.penaltyFields Penalty.setPenaltyFields Penalty.groupList].
  fold sc cc groups.
  destruct (assign_elements groups elements
              (fun e => resolve_default_last fit sc cc (Penalty.groupList ft) e)
              (Penalty.removeAllElements pf1))
    as (pf2 & Hrun2 & Hsf2 & Hcf2 & Hsa2 & Hca2 & Hda2).
  rewrite Hrun2.
  cbn [Penalty.removeAllElements Penalty.strainPenaltyField Penalty.curvaturePenaltyField
         Penalty.strainActiveMeshGroup Penalty.curvatureActiveMeshGroup
         Penalty.deformActiveMeshGroup] in Hsf, Hcf, Hsa, Hca, Hda, Hsf2, Hcf2, Hsa2, Hca2, Hda2.
  assert (Heq : pf2 = pf1).
  { destruct pf1 as [s1 c1 d1 a1 k1], pf2 as [s2 c2 d2 a2 k2].
    cbn [Penalty.strainPenaltyField Penalty.curvaturePenaltyField
           Penalty.strainActiveMeshGroup Penalty.curvatureActiveMeshGroup
           Penalty.deformActiveMeshGroup] in *.
    f_equal.
    - apply map_eq. intros e. rewrite Hsf2, Hsf. now destruct (bool_decide _).
    - apply map_eq. intros e. rewrite Hcf2, Hcf. now destruct (bool_decide _).
    - apply set_eq. intros e. rewrite Hda2, Hda. reflexivity.
    - apply set_eq. intros e. rewrite Hsa2, Hsa. reflexivity.
    - apply set_eq. intros e. rewrite Hca2, Hca. reflexivity. }
  rewrite Heq. destruct ft; reflexivity.
Qed.

Lemma assignDeformationPenalties_idempotent_witness :
  Penalty.assignDeformationPenalties exampleFit
    (snd (Penalty.assignDeformationPenalties exampleFit exampleModel))
  = Penalty.assignDeformationPenalties exampleFit exampleModel.
Proof.
  destruct (Penalty.assignDeformationPenalties exampleFit exampleModel)
    as [[active|e] ft1] eqn:Hrun.
  - cbn [snd]. exact (assignDeformationPenalties_idempotent exampleFit exampleModel ft1
                        active Hrun).
  - exfalso. vm_compute in Hrun. discriminate Hrun.
Defined.

(** X12.  [assignDeformationPenalties] returns exactly when the model has a
    mesh with elements and the penalty fields are defined; when it raises,
    the fitter is as it was before the call. *)
Theorem assignDeformationPenalties_returns_iff
    (fit : Penalty.FitterStepFit) (ft : Penalty.Fitter) :
  (is_raise (fst (Penalty.assignDeformationPenalties fit ft)) = false
   <-> is_Some (Penalty.getHighestDimensionMesh ft) /\ is_Some (Penalty.penaltyFields ft))
  /\ (is_raise (fst (Penalty.assignDeformationPenalties fit ft)) = true ->
      snd (Penalty.assignDeformationPenalties fit ft) = ft).
Proof.
  unfold Penalty.assignDeformationPenalties.
  destruct (Penalty.getHighestDimensionMesh ft) as [[dimension elements]|] eqn:Hmesh.
  - destruct (Penalty.penaltyFields ft) as [pf|] eqn:Hpf.
    + set (sc := if Nat.eqb dimension 3 then 9 else 4).
      set (cc := if Nat.eqb dimension 3 then 27 else 8).
      destruct (assign_elements (Penalty.buildGroups fit sc cc (Penalty.groupList ft)) elements
                  (fun e => resolve_default_last fit sc cc (Penalty.groupList ft) e)
                  (Penalty.removeAllElements pf)) as (pf1 & Hrun & _).
      rewrite Hrun. cbn. split; [|discriminate]. split; [eauto | reflexivity].
    + cbn. split; [|reflexivity]. split; [discriminate|].
      intros [_ [x Hx]]. discriminate Hx.
  - cbn. split; [|reflexivity]. split; [discriminate|].
    intros [[x Hx] _]. discriminate Hx.
Qed.

Lemma assignDeformationPenalties_returns_iff_witness :
  let ft := {| Penalty.mesh := [[1; 2]; []; []]; Penalty.groupList := [];
               Penalty.penaltyFields := None; Penalty.diagnosticLevel := 0 |} in
  is_raise (fst (Penalty.assignDeformationPenalties exampleFit ft)) = true
  /\ snd (Penalty.assignDeformationPenalties exampleFit ft) = ft.
Proof.
  intros ft. split; [reflexivity|].
  apply (proj2 (assignDeformationPenalties_returns_iff exampleFit ft)). reflexivity.
Defined.

(** ** More on automatic matching *)

Section MatchingFacts.
Import PyDict Align.
Context {Vec : Type}.

(** The name under which a marker is matched. *)
Definition matchNameOf (name : string) : string := casefold (strip name).

(** A name of ASCII characters only.  On such names [strip] and [casefold]
    above are Python's [str.strip] and [str.casefold]; on others Python
    also strips Unicode white space and folds letters outside A-Z. *)
Definition asciiOnly (name : string) : bool :=
  forallb (fun c => nat_of_ascii c <? 128) (list_ascii_of_string name).

Lemma findData_name (matchName : string) (d : list (string * Vec)) (dataName : string)
    (x : Vec) :
  findData matchName d = Some (dataName, x) -> matchNameOf dataName = matchName.
Proof.
  induction d as [|[k v] d IH]; cbn [findData]; [discriminate|].
  destruct (String.eqb_spec (casefold (strip k)) matchName) as [Heq|Hne].
  - intros [= <- <-]. exact Heq.
  - exact IH.
Qed.

(** Popping a data marker does not change what other names find. *)
Lemma findData_pop (matchName key : string) (d : list (string * Vec)) :
  matchNameOf key <> matchName ->
  findData matchName (dictPop key d) = findData matchName d.
Proof.
  intros Hne. induction d as [|[k v] d IH]; [reflexivity|].
  cbn [dictPop findData].
  destruct (String.eqb_spec k key) as [->|Hk].
  - destruct (String.eqb_spec (casefold (strip key)) matchName) as [Heq|_];
      [contradiction | reflexivity].
  - cbn [findData]. destruct (String.eqb (casefold (strip k)) matchName);
      [reflexivity | exact IH].
Qed.

(** The marker loop with and without diagnostics builds the same map when
    no two model markers are matched under the same name. *)
Lemma matchMarker_levels (mm : list (string * Vec)) :
  NoDup (matchNameOf <$> (fst <$> mm)) ->
  forall st1 st0 : MatchState Vec,
    pointMap st1 = pointMap st0 ->
    (forall name, name ∈ (matchNameOf <$> (fst <$> mm)) ->
       findData name (remainingData st1) = findData name (remainingData st0)) ->
    pointMap (fold_left (matchMarker true) mm st1)
    = pointMap (fold_left (matchMarker false) mm st0).
Proof.
  induction mm as [|[modelName modelx] mm IH]; intros Hnodup st1 st0 Hpm Hfind;
    [exact Hpm|].
  cbn [fmap list_fmap fst] in Hnodup, Hfind. apply NoDup_cons in Hnodup as [Hfresh Hnodup].
  cbn [fold_left]. apply (IH Hnodup).
  - unfold matchMarker. fold (matchNameOf modelName).
    rewrite (Hfind (matchNameOf modelName)) by apply list_elem_of_here.
    destruct (findData (matchNameOf modelName) (remainingData st0)) as [[dataName datax]|];
      cbn [pointMap]; now rewrite Hpm.
  - intros name Hname.
    assert (Hother : name <> matchNameOf modelName) by (intros ->; contradiction).
    unfold matchMarker. fold (matchNameOf modelName).
    pose proof (Hfind (matchNameOf modelName) (list_elem_of_here _ _)) as Hhead.
    rewrite Hhead.
    destruct (findData (matchNameOf modelName) (remainingData st0))
      as [[dataName datax]|] eqn:Hfound; cbn [remainingData].
    + rewrite findData_pop.
      * apply Hfind. now apply list_elem_of_further.
      * rewrite (findData_name _ _ _ _ Hfound). congruence.
    + apply Hfind. now apply list_elem_of_further.
Qed.

End MatchingFacts.

(** X13.  For markers with ASCII names: when no two model markers have the
    same name up to case and surrounding white space, the correspondence map
    built by the automatic matching is the same at every diagnostic level
    (and the matching fails at one level exactly when it fails at the other,
    with the same error). *)
Theorem point_map_same_at_all_levels {Vec : Type}
    (alignGroups alignMarkers : bool) (level1 level2 : Z) (inp : Align.AlignInputs Vec) :
  (forall mm, Align.modelMarkers inp = Some mm ->
              Forall (fun name => asciiOnly name = true) (fst <$> mm)) ->
  (forall dm, Align.dataMarkers inp = Some dm ->
              Forall (fun name => asciiOnly name = true) (fst <$> dm)) ->
  (forall mm, Align.modelMarkers inp = Some mm ->
              NoDup (matchNameOf <$> (fst <$> mm))) ->
  match Align.buildPointMap alignGroups alignMarkers level1 inp,
        Align.buildPointMap alignGroups alignMarkers level2 inp with
  | Return (pointMap1, _), Return (pointMap2, _) => pointMap1 = pointMap2
  | Raise e1, Raise e2 => e1 = e2
  | _, _ => False
  end.
Proof.
  intros _ _ Hnames. unfold Align.buildPointMap.
  destruct alignMarkers; [|reflexivity].
  destruct (Align.markerGroup inp); cbn [negb]; [|reflexivity].
  destruct (Align.modelMarkers inp) as [mm|]; [|reflexivity].
  destruct (Align.dataMarkers inp) as [dm|]; [|reflexivity].
  specialize (Hnames mm eq_refl).
  set (pm := if alignGroups then Align.addGroups (Align.groups inp) [] else []).
  pose proof (matchMarker_levels mm Hnames
                {| Align.pointMap := pm; Align.remainingData := dm; Align.printed := [] |}
                {| Align.pointMap := pm; Align.remainingData := dm; Align.printed := [] |}
                eq_refl (fun _ _ => eq_refl)) as Hlevels.
  destruct (0 <? level1)%Z, (0 <? level2)%Z; congruence.
Qed.

Lemma point_map_same_at_all_levels_witness :
  let inp := {| Align.groups := [];
                Align.markerGroup := true;
                Align.modelMarkers := Some [("Apex", 1); ("base", 2)];
                Align.dataMarkers := Some [("apex ", 10); ("BASE", 20); ("tip", 30)] |} in
  match Align.buildPointMap false true 0 inp, Align.buildPointMap false true 1 inp with
  | Return (pointMap1, _), Return (pointMap2, _) => pointMap1 = pointMap2
  | Raise e1, Raise e2 => e1 = e2
  | _, _ => False
  end.
Proof.
  intros inp. apply (point_map_same_at_all_levels false true 0 1 inp).
  - intros mm [= <-]. repeat constructor.
  - intros dm [= <-]. repeat constructor.
  - intros mm [= <-]. apply (bool_decide_unpack _). vm_compute. exact I.
Defined.

(** ** More on the alignment solver *)

Section SeedFacts.
Import AlignSolver.
Context {F : Type} {ops : FloatOps F} {zinc : Zinc F}.

(** Subtracting a float from itself gives a zero, and dividing by it
    raises. *)
Definition selfDifferenceIsZero : Prop :=
  forall a b : F, fdiv b (fsub a a) = None.

Lemma pymin_same (a : F) : (forall x : F, flt x x = false) -> pymin a a = a.
Proof. intros Hirr. unfold pymin. now rewrite Hirr. Qed.

Lemma pymax_same (a : F) : (forall x : F, flt x x = false) -> pymax a a = a.
Proof. intros Hirr. unfold pymax. now rewrite Hirr. Qed.

(** When every model point is [m], the bounding box of the model stays the
    single point [m]. *)
Lemma accumulate_same_model (m : Vec3) (points : list (Vec3 * Vec3)) :
  (forall x : F, flt x x = false) ->
  Forall (fun p => fst p = m) points ->
  forall s, modelMin s = m -> modelMax s = m ->
    modelMin (fold_left accumulate points s) = m
    /\ modelMax (fold_left accumulate points s) = m.
Proof.
  intros Hirr Hall. induction Hall as [|[model data] points Hp _ IH]; intros s Hmin Hmax.
  - split; assumption.
  - cbn [fold_left]. cbn [fst] in Hp. subst model. apply IH.
    + cbn [accumulate modelMin]. rewrite Hmin. destruct m as [[m0 m1] m2].
      cbn [min3]. now rewrite !pymin_same.
    + cbn [accumulate modelMax]. rewrite Hmax. destruct m as [[m0 m1] m2].
      cbn [max3]. now rewrite !pymax_same.
Qed.

Lemma maxOf_self_difference (m : Vec3) (b : F) :
  selfDifferenceIsZero -> fdiv b (maxOf (sub m m)) = None.
Proof.
  intros Hzero. destruct m as [[m0 m1] m2]. cbn [sub maxOf]. unfold pymax.
  destruct (flt (fsub m0 m0) (fsub m1 m1));
    destruct (flt _ (fsub m2 m2)); apply Hzero.
Qed.

(** The invariant of the search loops that also records the order: the
    retained evaluation is strictly better than all made before it. *)
Definition searchOrderInvariant (st : SearchState F) : Prop :=
  match best st with
  | None => evaluated st = []
  | Some b =>
      exists before after,
        evaluated st = before ++ b :: after
        /\ Forall (fun e => flt (objectiveValue b) (objectiveValue e) = true) before
        /\ Forall (fun e => flt (objectiveValue e) (objectiveValue b) = false) after
  end.

(** [<] on floats that are not NaN: if [a < b] then every [c] is above [a]
    or below [b]. *)
Definition cotransitive (lt : F -> F -> bool) : Prop :=
  forall a b c, lt a b = true -> lt a c = true \/ lt c b = true.

Lemma searchStep_order (points : list (Vec3 * Vec3)) (seed : Seed F)
    (st : SearchState F) (xyz : nat * nat * nat) :
  strictOrder flt -> cotransitive flt ->
  searchOrderInvariant st -> searchOrderInvariant (searchStep points seed st xyz).
Proof.
  intros [Hirr Htrans] Hco. unfold searchOrderInvariant, searchStep. cbn [best evaluated].
  set (e := evaluateAt points seed xyz).
  destruct (best st) as [b|].
  - intros (before & after & Hev & Hbefore & Hafter). rewrite Hev.
    destruct (flt (objectiveValue e) (objectiveValue b)) eqn:Hlt.
    + exists (before ++ b :: after), []. split; [reflexivity|]. split; [|constructor].
      apply Forall_app. split; [|constructor; [exact Hlt|]].
      * eapply Forall_impl; [exact Hbefore|]. cbv beta. intros x Hx.
        exact (Htrans _ _ _ Hlt Hx).
      * eapply Forall_impl; [exact Hafter|]. cbv beta. intros x Hx.
        destruct (Hco _ _ (objectiveValue x) Hlt) as [H|H]; [exact H | congruence].
    + exists before, (after ++ [e]). split; [now rewrite <- app_assoc|].
      split; [exact Hbefore|]. apply Forall_app.
      split; [exact Hafter | constructor; [exact Hlt | constructor]].
  - intros ->. exists [], []. split; [reflexivity|]. split; constructor.
Qed.

Lemma search_order (points : list (Vec3 * Vec3)) (seed : Seed F)
    (indices : list (nat * nat * nat)) (st : SearchState F) :
  strictOrder flt -> cotransitive flt ->
  searchOrderInvariant st ->
  searchOrderInvariant (fold_left (searchStep points seed) indices st).
Proof.
  intros Hord Hco. revert st. induction indices as [|xyz indices IH]; intros st Hinv.
  - exact Hinv.
  - cbn [fold_left]. apply IH. now apply searchStep_order.
Qed.

End SeedFacts.

(** X14.  A degenerate model bounding box is fatal: when all model points of
    at least three correspondences coincide, [_optimiseAlignment] raises
    ZeroDivisionError (the greatest model span is a zero) and the step keeps
    its parameters. *)
Theorem optimiseAlignment_degenerate_model
    {F : Type} {ops : FloatOps F} {zinc : AlignSolver.Zinc F}
    (pointMap : list (string * (AlignSolver.Vec3 * AlignSolver.Vec3)))
    (m : AlignSolver.Vec3) (step : AlignSolver.FitterStepAlign F) :
  (forall x : F, flt x x = false) ->
  selfDifferenceIsZero ->
  3 <= length pointMap ->
  Forall (fun entry => fst (snd entry) = m) pointMap ->
  AlignSolver._optimiseAlignment pointMap step = (Raise ZeroDivisionError, step).
Proof.
  intros Hirr Hzero Hlen Hall.
  unfold AlignSolver._optimiseAlignment.
  destruct (Nat.ltb_spec (length pointMap) 3); [lia|].
  assert (Hpoints : Forall (fun p => fst p = m) (snd <$> pointMap)).
  { clear -Hall. induction Hall as [|entry pointMap He _ IH]; cbn; constructor; assumption. }
  assert (Hseed : AlignSolver.computeSeed (snd <$> pointMap) = Raise ZeroDivisionError).
  { unfold AlignSolver.computeSeed.
    destruct (snd <$> pointMap) as [|[model0 data0] points] eqn:Hp.
    - apply (f_equal length) in Hp. rewrite length_fmap in Hp. cbn in Hp. lia.
    - assert (Hm0 : model0 = m)
        by (pose proof Hpoints as H0; apply Forall_cons in H0 as [H0 _]; exact H0).
      subst model0.
      destruct (accumulate_same_model m ((m, data0) :: points) Hirr Hpoints
                  {| AlignSolver.modelsum := (fzero, fzero, fzero);
                     AlignSolver.datasum := (fzero, fzero, fzero);
                     AlignSolver.modelMin := m; AlignSolver.modelMax := m;
                     AlignSolver.dataMin := data0; AlignSolver.dataMax := data0 |}
                  eq_refl eq_refl) as [Hmin Hmax].
      destruct (fdiv fone (ofNat (length ((m, data0) :: points)))); [|reflexivity].
      rewrite Hmin, Hmax. now rewrite maxOf_self_difference. }
  now rewrite Hseed.
Qed.

Lemma QFloat_selfDifferenceIsZero : @selfDifferenceIsZero Q QFloat.
Proof.
  intros a b. cbn. destruct (Qeq_bool (a - a) 0) eqn:H; [reflexivity|].
  apply Qeq_bool_neq in H. exfalso. apply H. ring.
Qed.

Lemma optimiseAlignment_degenerate_model_witness :
  let pointMap := [("a", ((1, 2, 3), (0, 1, 0))); ("b", ((1, 2, 3), (-2, 0, 0)));
                   ("c", ((1, 2, 3), (0, 0, 3)))]%Q in
  let step := AlignSolver.mkAlign false true (0, 0, 0)%Q 1%Q (0, 0, 0)%Q in
  @AlignSolver._optimiseAlignment Q QFloat exampleZinc pointMap step
  = (Raise ZeroDivisionError, step).
Proof.
  intros pointMap step.
  apply (@optimiseAlignment_degenerate_model Q QFloat exampleZinc pointMap (1, 2, 3)%Q step).
  - exact (proj1 QFloat_strictOrder).
  - exact QFloat_selfDifferenceIsZero.
  - cbn. lia.
  - repeat constructor.
Defined.

(** X15.  Ties go to the earliest candidate: when [<] is a strict order
    that is cotransitive (floats without NaN), the evaluation retained by
    the search is strictly better than every evaluation made before it, and
    none made after it is better. *)
Theorem rotation_search_keeps_first_minimum
    {F : Type} {ops : FloatOps F} {zinc : AlignSolver.Zinc F}
    (points : list (AlignSolver.Vec3 * AlignSolver.Vec3)) (seed : AlignSolver.Seed F) :
  strictOrder flt -> cotransitive flt ->
  exists b before after,
    AlignSolver.best (AlignSolver.search points seed) = Some b
    /\ AlignSolver.evaluated (AlignSolver.search points seed) = before ++ b :: after
    /\ Forall (fun e => flt (AlignSolver.objectiveValue b) (AlignSolver.objectiveValue e) = true)
         before
    /\ Forall (fun e => flt (AlignSolver.objectiveValue e) (AlignSolver.objectiveValue b) = false)
         after.
Proof.
  intros Hord Hco.
  pose proof (search_order points seed AlignSolver.grid
                {| AlignSolver.best := None; AlignSolver.evaluated := [] |} Hord Hco eq_refl)
    as Hinv.
  pose proof (search_loop points seed AlignSolver.grid
                {| AlignSolver.best := None; AlignSolver.evaluated := [] |} Hord eq_refl)
    as Hloop.
  cbv zeta in Hloop. destruct Hloop as [_ Hev].
  unfold AlignSolver.search. unfold searchOrderInvariant in Hinv.
  set (st := fold_left _ _ _) in *.
  destruct (AlignSolver.best st) as [b|].
  - destruct Hinv as (before & after & Hlist & Hbefore & Hafter).
    exists b, before, after. repeat split; assumption.
  - exfalso. rewrite Hinv in Hev.
    change (AlignSolver.evaluated {| AlignSolver.best := None; AlignSolver.evaluated := [] |})
      with (@nil (AlignSolver.Evaluation F)) in Hev.
    rewrite app_nil_l in Hev. apply (f_equal length) in Hev.
    rewrite length_fmap in Hev. change (length AlignSolver.grid) with 24 in Hev.
    discriminate Hev.
Qed.

Lemma QFloat_cotransitive : cotransitive (@flt Q QFloat).
Proof.
  intros a b c. cbn. rewrite !negb_true_iff. intros Hab.
  destruct (Qle_bool c a) eqn:Hca; [|left; reflexivity].
  right. destruct (Qle_bool b c) eqn:Hbc; [|reflexivity]. exfalso.
  apply Qle_bool_iff in Hca, Hbc.
  assert (Hba : (b <= a)%Q) by lra. apply Qle_bool_iff in Hba. congruence.
Qed.

Lemma rotation_search_keeps_first_minimum_witness :
  exists b before after,
    AlignSolver.best (@AlignSolver.search Q QFloat exampleZinc examplePoints exampleSeed) = Some b
    /\ AlignSolver.evaluated (@AlignSolver.search Q QFloat exampleZinc examplePoints exampleSeed)
       = before ++ b :: after
    /\ Forall (fun e => @flt Q QFloat (AlignSolver.objectiveValue b)
                          (AlignSolver.objectiveValue e) = true) before
    /\ Forall (fun e => @flt Q QFloat (AlignSolver.objectiveValue e)
                          (AlignSolver.objectiveValue b) = false) after.
Proof.
  apply (@rotation_search_keeps_first_minimum Q QFloat exampleZinc examplePoints exampleSeed).
  - exact QFloat_strictOrder.
  - exact QFloat_cotransitive.
Defined.

(** ** More on settings persistence *)

Section DecodeFacts.
Import PyDict Settings.

Lemma dictGet_absent {V : Type} (k : string) (d : list (string * V)) :
  k ∉ (fst <$> d) -> dictGet k d = None.
Proof.
  induction d as [|[k0 v0] d IH]; intros Hk; [reflexivity|].
  cbn [fmap list_fmap fst] in Hk. apply not_elem_of_cons in Hk as [Hne Hrest].
  cbn [dictGet]. destruct (String.eqb_spec k0 k); [congruence | now apply IH].
Qed.

(** [d.update(other)] for a dict [other]: its entries win, the rest of [d]
    stays. *)
Lemma dictGet_dictUpdate {V : Type} (k : string) (other d : list (string * V)) :
  NoDup (fst <$> other) ->
  dictGet k (dictUpdate d other)
  = match dictGet k other with
    | Some v => Some v
    | None => dictGet k d
    end.
Proof.
  unfold dictUpdate. revert d. induction other as [|[k' v'] other IH]; intros d Hnodup;
    [reflexivity|].
  cbn [fmap list_fmap fst] in Hnodup. apply NoDup_cons in Hnodup as [Hfresh Hnodup].
  cbn [fold_left fst snd dictGet]. rewrite (IH _ Hnodup), dictGet_dictSet.
  destruct (String.eqb_spec k' k) as [->|Hne]; [|reflexivity].
  now rewrite (dictGet_absent k other Hfresh).
Qed.

(** The value a decoded align step takes for one key. *)
Definition decodedField (key : string) (current : pyval) (dctIn : list (string * pyval))
    : pyval :=
  default current (dictGet key dctIn).

Lemma dictItem_decoded (a : AlignSettings) (key : string) (current : pyval)
    (dctIn : list (string * pyval)) :
  NoDup (fst <$> dctIn) ->
  dictGet key (encodeSettingsJSONDict (FitterStepAlign a)) = Some current ->
  dictItem key (dictUpdate (encodeSettingsJSONDict (FitterStepAlign a)) dctIn)
  = Return (decodedField key current dctIn).
Proof.
  intros Hnodup Hcurrent. unfold dictItem, decodedField.
  rewrite (dictGet_dictUpdate key dctIn _ Hnodup), Hcurrent.
  destruct (dictGet key dctIn); reflexivity.
Qed.

End DecodeFacts.

(** X16.  Decoding an align step from a JSON object fails exactly when the
    call of the base class method does, with its exception; otherwise it
    takes each of alignGroups, alignMarkers, rotation, scale and translation
    from the object when the key is there and keeps the step's current value
    when it is not: no key of the object is required by the align step
    itself. *)
Theorem decodeAlign_defaults_missing_keys
    (baseDecodeSettingsJSONDict : list (string * Settings.pyval) -> option exn)
    (a : Settings.AlignSettings) (dctIn : list (string * Settings.pyval)) :
  NoDup (fst <$> dctIn) ->
  Settings.decodeSettingsJSONDict baseDecodeSettingsJSONDict a dctIn
  = match baseDecodeSettingsJSONDict dctIn with
    | Some e => Raise e
    | None =>
        Return {| Settings._alignGroups :=
                    decodedField "alignGroups" (Settings._alignGroups a) dctIn;
                  Settings._alignMarkers :=
                    decodedField "alignMarkers" (Settings._alignMarkers a) dctIn;
                  Settings._rotation := decodedField "rotation" (Settings._rotation a) dctIn;
                  Settings._scale := decodedField "scale" (Settings._scale a) dctIn;
                  Settings._translation :=
                    decodedField "translation" (Settings._translation a) dctIn |}
    end.
Proof.
  intros Hnodup. unfold Settings.decodeSettingsJSONDict.
  destruct (baseDecodeSettingsJSONDict dctIn); [reflexivity|].
  unfold Settings.decodeAlign.
  rewrite (dictItem_decoded a "alignGroups" (Settings._alignGroups a) dctIn Hnodup eq_refl).
  rewrite (dictItem_decoded a "alignMarkers" (Settings._alignMarkers a) dctIn Hnodup eq_refl).
  rewrite (dictItem_decoded a "rotation" (Settings._rotation a) dctIn Hnodup eq_refl).
  rewrite (dictItem_decoded a "scale" (Settings._scale a) dctIn Hnodup eq_refl).
  rewrite (dictItem_decoded a "translation" (Settings._translation a) dctIn Hnodup eq_refl).
  reflexivity.
Qed.

(** The theorem for a base class method that asserts the type key of the
    step, at a record that has it and gives the scale only. *)
Lemma decodeAlign_defaults_missing_keys_witness :
  let base := fun dctIn : list (string * Settings.pyval) =>
                if PyDict.dictHas "_FitterStepAlign" dctIn then None
                else Some (AssertionError "") in
  Settings.decodeSettingsJSONDict base Settings.newAlign
    [("_FitterStepAlign", Settings.PBool true); ("scale", Settings.PFloat 2)]
  = Return {| Settings._alignGroups := Settings.PBool false;
              Settings._alignMarkers := Settings.PBool false;
              Settings._rotation :=
                Settings.PList [Settings.PFloat 0; Settings.PFloat 0; Settings.PFloat 0];
              Settings._scale := Settings.PFloat 2;
              Settings._translation :=
                Settings.PList [Settings.PFloat 0; Settings.PFloat 0; Settings.PFloat 0] |}.
Proof.
  intros base.
  rewrite (decodeAlign_defaults_missing_keys base Settings.newAlign
             [("_FitterStepAlign", Settings.PBool true); ("scale", Settings.PFloat 2)]).
  - reflexivity.
  - apply (bool_decide_unpack _). vm_compute. exact I.
Defined.

(** X17.  [decodeSettingsJSON] keeps the initial config step: when the JSON
    text has been decoded without an exception, then however the call ends
    (it returns, the config step is missing, a key is missing, the document
    is not an object), a fitter whose first step was a config step before
    the call has a config step first after it. *)
Theorem decodeSettingsJSON_keeps_initial_config
    (s : Settings.pyval)
    (decoder : list (string * Settings.pyval) -> M Settings.Fitter Settings.pyval)
    (ft : Settings.Fitter) (settings : Settings.pyval) (ft1 : Settings.Fitter) :
  Settings.loads decoder s (Settings.setFitterSteps [] ft) = (Return settings, ft1) ->
  (exists first rest, Settings._fitterSteps ft = first :: rest
                      /\ Settings.isConfig first = true) ->
  exists first rest,
    Settings._fitterSteps (snd (Settings.decodeSettingsJSON s decoder ft)) = first :: rest
    /\ Settings.isConfig first = true.
Proof.
  intros Hloads (first0 & rest0 & Hsteps0 & Hconfig0).
  unfold Settings.decodeSettingsJSON.
  unfold bind at 1. unfold get at 1. unfold bind at 1. unfold modify at 1.
  unfold bind at 1. rewrite Hloads. unfold bind at 1. unfold get at 1.
  destruct (Settings._fitterSteps ft1) as [|first rest] eqn:Hsteps1.
  - cbn. rewrite Hsteps0. eauto.
  - destruct (Settings.isConfig first) eqn:Hconfig.
    + unfold bind, modify, Settings.liftResult, Settings.settingsGet, Settings.settingsItem,
        Settings.dictItem.
      destruct settings as [| | | | | |d|]; cbn; rewrite ?Hsteps1; eauto.
      destruct (PyDict.dictGet "diagnosticLevel" d); cbn; rewrite ?Hsteps1; eauto.
    + cbn. rewrite Hsteps0. eauto.
Qed.

Lemma decodeSettingsJSON_keeps_initial_config_witness :
  let s := Settings.PDict
             [("fitterSteps",
               Settings.PList [Settings.PDict [("_FitterStepConfig", Settings.PBool true)]])] in
  exists first rest,
    Settings._fitterSteps
      (snd (Settings.decodeSettingsJSON s Settings.decodeJSONFitterSteps exampleSettings))
    = first :: rest
    /\ Settings.isConfig first = true.
Proof.
  intros s.
  apply (decodeSettingsJSON_keeps_initial_config s Settings.decodeJSONFitterSteps
           exampleSettings
           (Settings.PDict [("fitterSteps", Settings.PList [Settings.PStep 0])])
           (Settings.setFitterSteps [Settings.FitterStepConfig] exampleSettings)).
  - reflexivity.
  - eexists _, _. split; reflexivity.
Defined.

(** What [decodeSettingsJSON] does once the JSON text is decoded and the
    first decoded step is a config step. *)
Lemma decode_with_config_step
    (s : Settings.pyval)
    (decoder : list (string * Settings.pyval) -> M Settings.Fitter Settings.pyval)
    (ft : Settings.Fitter) (settings : Settings.pyval) (ft1 : Settings.Fitter)
    (first : Settings.FitterStep) (rest : list Settings.FitterStep) :
  Settings.loads decoder s (Settings.setFitterSteps [] ft) = (Return settings, ft1) ->
  Settings._fitterSteps ft1 = first :: rest ->
  Settings.isConfig first = true ->
  Settings.decodeSettingsJSON s decoder ft
  = match settings with
    | Settings.PDict d =>
        let named level :=
          {| Settings._modelCoordinatesFieldName :=
               default Settings.PNone (PyDict.dictGet "modelCoordinatesField" d);
             Settings._dataCoordinatesFieldName :=
               default Settings.PNone (PyDict.dictGet "dataCoordinatesField" d);
             Settings._fibreFieldName :=
               default Settings.PNone (PyDict.dictGet "fibreField" d);
             Settings._markerGroupName :=
               default Settings.PNone (PyDict.dictGet "markerGroup" d);
             Settings._diagnosticLevel := level;
             Settings._fitterSteps := first :: rest |} in
        match PyDict.dictGet "diagnosticLevel" d with
        | Some level => (Return tt, named level)
        | None => (Raise (KeyError "diagnosticLevel"), named (Settings._diagnosticLevel ft1))
        end
    | _ => (Raise (AttributeError "object has no attribute 'get'"), ft1)
    end.
Proof.
  intros Hloads Hsteps1 Hconfig.
  unfold Settings.decodeSettingsJSON.
  unfold bind at 1. unfold get at 1. unfold bind at 1. unfold modify at 1.
  unfold bind at 1. rewrite Hloads. unfold bind at 1. unfold get at 1.
  rewrite Hsteps1, Hconfig.
  unfold bind, modify, Settings.liftResult, Settings.settingsGet, Settings.settingsItem,
    Settings.dictItem.
  destruct settings as [| | | | | |d|]; cbn; try reflexivity.
  destruct (PyDict.dictGet "diagnosticLevel" d); cbn; rewrite ?Hsteps1; reflexivity.
Qed.

(** X18.  Optional and required keys: when the JSON text, which repeats no
    key, has been decoded into a value [settings] and the first decoded step
    is a config step,
    [decodeSettingsJSON] returns exactly when [settings] is an object with
    the key "diagnosticLevel"; the four names are then taken from the object
    and are None for the keys it lacks, and the steps are the decoded
    ones. *)
Theorem decodeSettingsJSON_returns_iff_diagnostic_level
    (s : Settings.pyval)
    (decoder : list (string * Settings.pyval) -> M Settings.Fitter Settings.pyval)
    (ft : Settings.Fitter) (settings : Settings.pyval) (ft1 : Settings.Fitter)
    (first : Settings.FitterStep) (rest : list Settings.FitterStep) :
  Settings.distinctKeys s = true ->
  Settings.loads decoder s (Settings.setFitterSteps [] ft) = (Return settings, ft1) ->
  Settings._fitterSteps ft1 = first :: rest ->
  Settings.isConfig first = true ->
  (fst (Settings.decodeSettingsJSON s decoder ft) = Return tt
   <-> exists d level, settings = Settings.PDict d
                       /\ PyDict.dictGet "diagnosticLevel" d = Some level)
  /\ forall d level,
       settings = Settings.PDict d ->
       PyDict.dictGet "diagnosticLevel" d = Some level ->
       snd (Settings.decodeSettingsJSON s decoder ft)
       = {| Settings._modelCoordinatesFieldName :=
              default Settings.PNone (PyDict.dictGet "modelCoordinatesField" d);
            Settings._dataCoordinatesFieldName :=
              default Settings.PNone (PyDict.dictGet "dataCoordinatesField" d);
            Settings._fibreFieldName := default Settings.PNone (PyDict.dictGet "fibreField" d);
            Settings._markerGroupName :=
              default Settings.PNone (PyDict.dictGet "markerGroup" d);
            Settings._diagnosticLevel := level;
            Settings._fitterSteps := first :: rest |}.
Proof.
  intros _ Hloads Hsteps1 Hconfig.
  rewrite (decode_with_config_step s decoder ft settings ft1 first rest Hloads Hsteps1 Hconfig).
  destruct settings as [| | | | | |d|]; cbn [fst snd];
    try (split; [split; [discriminate | intros (d0 & l0 & H0 & _); discriminate H0]
                | intros d0 l0 H0; discriminate H0]).
  cbv zeta. destruct (PyDict.dictGet "diagnosticLevel" d) as [level|] eqn:Hlevel; cbn [fst snd].
  - split; [split; [eauto | reflexivity]|].
    intros d0 l0 [= <-] Hl0. rewrite Hlevel in Hl0. injection Hl0 as <-. reflexivity.
  - split; [split; [discriminate|]|].
    + intros (d0 & l0 & [= <-] & Hl0). rewrite Hlevel in Hl0. discriminate Hl0.
    + intros d0 l0 [= <-] Hl0. rewrite Hlevel in Hl0. discriminate Hl0.
Qed.

Lemma decodeSettingsJSON_returns_iff_diagnostic_level_witness :
  let s := Settings.PDict
             [("markerGroup", Settings.PStr "marker");
              ("diagnosticLevel", Settings.PInt 2);
              ("fitterSteps",
               Settings.PList [Settings.PDict [("_FitterStepConfig", Settings.PBool true)]])] in
  Settings.decodeSettingsJSON s Settings.decodeJSONFitterSteps exampleSettings
  = (Return tt,
     {| Settings._modelCoordinatesFieldName := Settings.PNone;
        Settings._dataCoordinatesFieldName := Settings.PNone;
        Settings._fibreFieldName := Settings.PNone;
        Settings._markerGroupName := Settings.PStr "marker";
        Settings._diagnosticLevel := Settings.PInt 2;
        Settings._fitterSteps := [Settings.FitterStepConfig] |}).
Proof.
  intros s.
  pose proof (decodeSettingsJSON_returns_iff_diagnostic_level s Settings.decodeJSONFitterSteps
                exampleSettings
                (Settings.PDict [("markerGroup", Settings.PStr "marker");
                                 ("diagnosticLevel", Settings.PInt 2);
                                 ("fitterSteps", Settings.PList [Settings.PStep 0])])
                (Settings.setFitterSteps [Settings.FitterStepConfig] exampleSettings)
                Settings.FitterStepConfig [] eq_refl eq_refl eq_refl eq_refl)
    as [Hreturns Hstate].
  apply injective_projections.
  - apply Hreturns. eexists _, _. split; reflexivity.
  - apply (Hstate _ (Settings.PInt 2) eq_refl eq_refl).
Defined.

(** ** More on the export *)

(** X19.  [writeModel] makes the recorded name the field's name: whenever the
    fitter holds a model coordinates field of the region and no other field
    has the recorded model coordinates field name, the field has that name
    after [writeModel], also when it was named differently before the call
    (as after [decodeSettingsJSON] changed the recorded name), and every
    other field keeps its name. *)
Theorem writeModel_sets_recorded_name
    (regionWrite : gmap nat string -> ModelExport.WriteRequest -> bool)
    (modelFileName : string) (ft : ModelExport.Fitter) (field : nat) (name : string) :
  Settings._modelCoordinatesFieldName (ModelExport.settings ft) = Settings.PStr name ->
  ModelExport._modelCoordinatesField ft = Some field ->
  nameFree (ModelExport.fieldNames ft) field name ->
  let ft' := snd (ModelExport.writeModel regionWrite modelFileName ft) in
  ModelExport.fieldNames ft' !! field = Some name
  /\ forall g, g <> field ->
       ModelExport.fieldNames ft' !! g = ModelExport.fieldNames ft !! g.
Proof.
  intros Hrecorded Hfield Hfree. cbv zeta.
  unfold ModelExport.writeModel. rewrite Hrecorded, Hfield.
  set (names1 := ModelExport.setName field ("fitted " +:+ name) (ModelExport.fieldNames ft)).
  assert (Hothers : forall g, g <> field -> names1 !! g = ModelExport.fieldNames ft !! g).
  { intros g Hg. subst names1. unfold ModelExport.setName.
    destruct (ModelExport.nameInUse _ _ _); [reflexivity|].
    now rewrite lookup_insert_ne by congruence. }
  assert (Hfree1 : nameFree names1 field name).
  { intros g Hg. destruct (decide (g = field)) as [->|Hne]; [reflexivity|].
    rewrite (Hothers g Hne) in Hg. now apply Hfree. }
  assert (Hset : ModelExport.setName field name names1 = <[field := name]> names1).
  { unfold ModelExport.setName. now rewrite (nameInUse_false names1 field name Hfree1). }
  destruct (regionWrite names1 _); cbn [snd ModelExport.fieldNames]; rewrite Hset;
    (split; [apply lookup_insert_eq|]);
    intros g Hg; rewrite lookup_insert_ne by congruence; now apply Hothers.
Qed.

Lemma writeModel_sets_recorded_name_witness :
  let ft :=
    {| ModelExport.settings :=
         Settings.mkFitter (Settings.PStr "coordinates") Settings.PNone Settings.PNone
           Settings.PNone (Settings.PInt 0) [Settings.FitterStepConfig];
       ModelExport._modelCoordinatesField := Some 1;
       ModelExport.fieldNames := <[1 := "geometry"]> (<[2 := "fibres"]> ∅);
       ModelExport.written := [] |} in
  let ft' := snd (ModelExport.writeModel (fun _ _ => true) "fit1.exf" ft) in
  ModelExport.fieldNames ft' !! 1 = Some "coordinates"
  /\ forall g, g <> 1 ->
       ModelExport.fieldNames ft' !! g = ModelExport.fieldNames ft !! g.
Proof.
  intros ft.
  apply (writeModel_sets_recorded_name (fun _ _ => true) "fit1.exf" ft 1 "coordinates").
  - reflexivity.
  - reflexivity.
  - intros g Hg. destruct (decide (g = 1)) as [->|Hne]; [reflexivity|].
    subst ft. cbn [ModelExport.fieldNames] in Hg.
    rewrite lookup_insert_ne in Hg by congruence.
    destruct (decide (g = 2)) as [->|Hne2].
    + rewrite lookup_insert_eq in Hg. discriminate Hg.
    + rewrite lookup_insert_ne in Hg by congruence. rewrite lookup_empty in Hg. discriminate Hg.
Defined.

(** ** Offsetting the datapoint identifiers *)

Section IdentifierFacts.
Import DataIdentifiers.
Local Open Scope Z_scope.

Lemma maximum_bound (l : list Z) (x : Z) :
  x ∈ l -> x <= getMaximumNodeIdentifier l.
Proof.
  induction l as [|y l IH]; intros Hx; [now apply not_elem_of_nil in Hx|].
  cbn [getMaximumNodeIdentifier fold_right]. fold (getMaximumNodeIdentifier l).
  apply elem_of_cons in Hx as [->|Hx]; [lia|]. specialize (IH Hx). lia.
Qed.

(** Five tests are enough: the offset is a power of ten from 100000 to
    1000000000 that bounds both maxima, or the assertion fails. *)
Lemma offsetLoop_spec (a b : Z) :
  a <= 1000000000 -> b <= 1000000000 ->
  exists offset,
    offsetLoop 5 a b 100000 = Some (Return offset)
    /\ offset ∈ [100000; 1000000; 10000000; 100000000; 1000000000]
    /\ a <= offset /\ b <= offset.
Proof.
  intros Ha Hb. unfold offsetLoop.
  repeat match goal with
         | |- context [(?x <? ?y)] => destruct (Z.ltb_spec x y); cbn [orb]
         end;
    try lia;
    eexists; (split; [reflexivity|]); (split; [|lia]);
    repeat (first [apply list_elem_of_here | apply list_elem_of_further]).
Qed.

Lemma insertSorted_last (x : Z) (l : list Z) :
  Forall (fun y => y < x) l -> insertSorted x l = l ++ [x].
Proof.
  induction 1 as [|y l Hy _ IH]; [reflexivity|].
  cbn [insertSorted app]. destruct (Z.ltb_spec x y); [lia|]. now rewrite IH.
Qed.

(** The loop on a list made of [small] identifiers still to offset, in
    increasing order, followed by identifiers that stay. *)
Lemma shiftLoop_spec (offset : Z) (small : list Z) :
  StronglySorted Z.lt small ->
  Forall (fun x => 1 <= x < offset) small ->
  forall (rest : list Z) (fuel : nat),
    (length small < fuel)%nat ->
    small ++ rest <> [] ->
    Forall (fun r => offset <= r) rest ->
    Forall (fun r => Forall (fun x => r < x + offset) small) rest ->
    shiftLoop fuel offset (small ++ rest)
    = Some (Return (rest ++ ((fun x => x + offset) <$> small))).
Proof.
  intros Hsorted Hsmall. induction Hsorted as [|s small Hsorted IH Hs];
    intros rest fuel Hfuel Hne Hrest Hbelow.
  - destruct fuel as [|fuel]; [cbn in Hfuel; lia|]. cbn [app shiftLoop].
    destruct rest as [|r rest]; [contradiction|].
    apply Forall_cons in Hrest as [Hr _]. destruct (Z.leb_spec offset r); [|lia].
    now rewrite app_nil_r.
  - destruct fuel as [|fuel]; [cbn in Hfuel; lia|]. cbn [app shiftLoop].
    apply Forall_cons in Hsmall as [Hs1 Hsmall].
    destruct (Z.leb_spec offset s); [lia|].
    assert (Hall : Forall (fun y => y < s + offset) (small ++ rest)).
    { apply Forall_app. split.
      - eapply Forall_impl; [exact Hsmall|]. cbv beta. lia.
      - eapply Forall_impl; [exact Hbelow|]. cbv beta. intros r Hr.
        now apply Forall_cons in Hr as [Hr _]. }
    rewrite bool_decide_eq_false_2.
    2: { intros Hin. rewrite Forall_forall in Hall. specialize (Hall _ Hin). lia. }
    rewrite (insertSorted_last _ _ Hall), <- app_assoc.
    rewrite (IH Hsmall (rest ++ [s + offset]) fuel).
    + now rewrite <- app_assoc.
    + cbn [length] in Hfuel. lia.
    + destruct small; [destruct rest|]; discriminate.
    + apply Forall_app. split; [exact Hrest | constructor; [lia | constructor]].
    + apply Forall_app. split.
      * eapply Forall_impl; [exact Hbelow|]. cbv beta. intros r Hr.
        now apply Forall_cons in Hr as [_ Hr].
      * constructor; [|constructor].
        eapply Forall_impl; [exact Hs|]. cbv beta. lia.
Qed.

(** A list in increasing order is its part below a bound followed by its
    part from the bound on. *)
Lemma sorted_split (offset : Z) (l : list Z) :
  StronglySorted Z.lt l ->
  l = List.filter (fun x => x <? offset) l ++ List.filter (fun x => offset <=? x) l.
Proof.
  induction 1 as [|x l Hsorted IH Hx]; [reflexivity|].
  cbn [List.filter]. destruct (Z.ltb_spec x offset), (Z.leb_spec offset x); try lia.
  - cbn [app]. now rewrite <- IH.
  - assert (Hnone : List.filter (fun y => y <? offset) l = []).
    { clear -Hx H. induction Hx as [|y l Hy _ IH]; [reflexivity|].
      cbn [List.filter]. destruct (Z.ltb_spec y offset); [lia | exact IH]. }
    rewrite Hnone in IH |- *. cbn [app] in IH |- *. now rewrite <- IH.
Qed.

End IdentifierFacts.

(** X20.  Offsetting the datapoint identifiers of a data file that has both
    nodes and datapoints: when the identifiers are positive and at most
    1000000000 and the datapoints come in increasing identifier order, the
    loops terminate without a failed assertion; the offset chosen is a
    power of ten between 100000 and 1000000000 that no identifier exceeds;
    every datapoint identifier below the offset has the offset added, one
    equal to the offset is left as it is; and afterwards every datapoint
    identifier is at least the offset and every node identifier at most the
    offset. *)
Theorem datapoint_identifiers_are_offset (nodes datapoints : list Z) :
  datapoints <> [] ->
  StronglySorted Z.lt datapoints ->
  Forall (fun x => (1 <= x <= 1000000000)%Z) datapoints ->
  Forall (fun x => (1 <= x <= 1000000000)%Z) nodes ->
  exists offset,
    DataIdentifiers.offsetDatapoints nodes datapoints
    = Some (Return (offset,
                    List.filter (fun x => (offset <=? x)%Z) datapoints
                    ++ ((fun x => (x + offset)%Z)
                          <$> List.filter (fun x => (x <? offset)%Z) datapoints)))
    /\ offset ∈ [100000; 1000000; 10000000; 100000000; 1000000000]%Z
    /\ Forall (fun x => (x <= offset)%Z) datapoints
    /\ Forall (fun x => (x <= offset)%Z) nodes
    /\ Forall (fun x => (offset <= x)%Z)
         (List.filter (fun x => (offset <=? x)%Z) datapoints
          ++ ((fun x => (x + offset)%Z)
                <$> List.filter (fun x => (x <? offset)%Z) datapoints)).
Proof.
  intros Hne Hsorted Hdata Hnodes.
  assert (Hmax : forall l, Forall (fun x => (1 <= x <= 1000000000)%Z) l ->
                           (Z.max 0 (DataIdentifiers.getMaximumNodeIdentifier l)
                            <= 1000000000)%Z).
  { intros l Hl. induction Hl as [|x l Hx _ IH]; cbn; [lia|].
    fold (DataIdentifiers.getMaximumNodeIdentifier l). lia. }
  unfold DataIdentifiers.offsetDatapoints.
  destruct (offsetLoop_spec _ _ (Hmax _ Hdata) (Hmax _ Hnodes))
    as (offset & Hloop & Hmember & Hboundd & Hboundn).
  rewrite Hloop.
  assert (Hd : Forall (fun x => (x <= offset)%Z) datapoints).
  { apply Forall_forall. intros x Hx.
    pose proof (maximum_bound datapoints x Hx). lia. }
  assert (Hn : Forall (fun x => (x <= offset)%Z) nodes).
  { apply Forall_forall. intros x Hx. pose proof (maximum_bound nodes x Hx). lia. }
  set (small := List.filter (fun x => (x <? offset)%Z) datapoints).
  set (big := List.filter (fun x => (offset <=? x)%Z) datapoints).
  assert (Hsplit : datapoints = small ++ big) by (apply sorted_split; exact Hsorted).
  assert (Hsmall : Forall (fun x => (1 <= x < offset)%Z) small).
  { apply Forall_forall. intros x Hx. apply list_elem_of_In, filter_In in Hx as [Hx Hlt].
    apply Z.ltb_lt in Hlt. rewrite Forall_forall in Hdata.
    specialize (Hdata x (proj2 (list_elem_of_In _ _) Hx)). lia. }
  assert (Hbig : Forall (fun r => (offset <= r <= offset)%Z) big).
  { apply Forall_forall. intros x Hx. apply list_elem_of_In, filter_In in Hx as [Hx Hle].
    apply Z.leb_le in Hle. rewrite Forall_forall in Hd.
    specialize (Hd x (proj2 (list_elem_of_In _ _) Hx)). lia. }
  assert (Hsortedsmall : StronglySorted Z.lt small).
  { rewrite Hsplit in Hsorted. clear -Hsorted.
    induction small as [|x small IH]; [constructor|].
    cbn [app] in Hsorted. apply StronglySorted_inv in Hsorted as [Hs Hx].
    constructor; [now apply IH|]. now apply Forall_app in Hx as [Hx _]. }
  replace (DataIdentifiers.shiftLoop (length datapoints + 1) offset datapoints)
    with (DataIdentifiers.shiftLoop (length datapoints + 1) offset (small ++ big))
    by (now rewrite <- Hsplit).
  rewrite (shiftLoop_spec offset small Hsortedsmall Hsmall big).
  - exists offset. split; [reflexivity|]. split; [exact Hmember|].
    split; [exact Hd|]. split; [exact Hn|].
    apply Forall_app. split.
    + eapply Forall_impl; [exact Hbig|]. cbv beta. lia.
    + apply Forall_fmap. eapply Forall_impl; [exact Hsmall|]. cbv beta. cbn. lia.
  - rewrite Hsplit, length_app. lia.
  - now rewrite <- Hsplit.
  - eapply Forall_impl; [exact Hbig|]. cbv beta. lia.
  - eapply Forall_impl; [exact Hbig|]. cbv beta. intros r Hr.
    eapply Forall_impl; [exact Hsmall|]. cbv beta. lia.
Qed.

Lemma datapoint_identifiers_are_offset_witness :
  DataIdentifiers.offsetDatapoints [1; 2; 100000]%Z [1; 7; 100000]%Z
  = Some (Return (100000, [100000; 100001; 100007])%Z).
Proof.
  destruct (datapoint_identifiers_are_offset [1; 2; 100000]%Z [1; 7; 100000]%Z)
    as (offset & Hrun & _).
  - discriminate.
  - repeat constructor.
  - repeat constructor; cbn; intros H; discriminate H.
  - repeat constructor; cbn; intros H; discriminate H.
  - rewrite Hrun. vm_compute in Hrun. injection Hrun as <- _. reflexivity.
Defined.

(** ** Renaming of the data groups *)

Section RenamingFacts.
Import GroupNames.

(** No two fields of the data region have names that are equal up to case
    and surrounding white space. *)
Definition matchNamesDistinct (fieldNames : gmap nat string) : Prop :=
  forall f g a b, fieldNames !! f = Some a -> fieldNames !! g = Some b ->
                  matchNameOf a = matchNameOf b -> f = g.

(** The name a data group has after its turn in the loop when the renaming
    is not refused. *)
Definition renamed (modelGroupNames : list string) (dataGroupName : string) : string :=
  match findModelGroup dataGroupName modelGroupNames with
  | Rename modelGroupName => modelGroupName
  | _ => dataGroupName
  end.

Lemma findModelGroup_found (dataGroupName : string) (modelGroupNames : list string)
    (m : string) :
  m ∈ modelGroupNames -> matchNameOf m = matchNameOf dataGroupName ->
  renamed modelGroupNames dataGroupName ∈ modelGroupNames.
Proof.
  unfold renamed.
  induction modelGroupNames as [|k rest IH]; intros Hin Hm.
  - now apply elem_of_nil in Hin.
  - cbn [findModelGroup].
    destruct (String.eqb_spec k dataGroupName) as [->|Hne]; [apply list_elem_of_here|].
    destruct (String.eqb_spec (Align.casefold (Align.strip k))
                (Align.casefold (Align.strip dataGroupName))) as [Heq|Hneq].
    + apply list_elem_of_here.
    + apply elem_of_cons in Hin as [->|Hin]; [now elim Hneq|].
      apply list_elem_of_further. now apply IH.
Qed.

Lemma renamed_matchName (modelGroupNames : list string) (dataGroupName : string) :
  matchNameOf (renamed modelGroupNames dataGroupName)
  = matchNameOf dataGroupName.
Proof.
  unfold renamed.
  induction modelGroupNames as [|k rest IH]; cbn [findModelGroup]; [reflexivity|].
  destruct (String.eqb_spec k dataGroupName) as [->|Hne]; [reflexivity|].
  destruct (String.eqb_spec (Align.casefold (Align.strip k))
              (Align.casefold (Align.strip dataGroupName))) as [Heq|Hneq];
    [exact Heq | exact IH].
Qed.

Lemma renamed_unmatched (modelGroupNames : list string) (dataGroupName : string) :
  (forall m, m ∈ modelGroupNames ->
             matchNameOf m <> matchNameOf dataGroupName) ->
  renamed modelGroupNames dataGroupName = dataGroupName.
Proof.
  intros Hnone. unfold renamed.
  destruct (findModelGroup dataGroupName modelGroupNames) as [| m |] eqn:Hfind;
    [reflexivity| |reflexivity].
  exfalso.
  assert (Hin : renamed modelGroupNames dataGroupName ∈ modelGroupNames
                -> False).
  { intros Hin. apply (Hnone _ Hin), renamed_matchName. }
  apply Hin. unfold renamed. rewrite Hfind.
  clear Hin Hnone. induction modelGroupNames as [|k rest IH]; [discriminate|].
  cbn [findModelGroup] in Hfind.
  destruct (String.eqb k dataGroupName); [discriminate|].
  destruct (String.eqb (Align.casefold (Align.strip k))
              (Align.casefold (Align.strip dataGroupName))).
  - injection Hfind as ->. apply list_elem_of_here.
  - apply list_elem_of_further, IH, Hfind.
Qed.

(** With distinct match names no renaming is refused: a turn of the loop
    replaces the group's name by [renamed]. *)
Lemma renameGroup_names (modelGroupNames : list string) (writeDiagnostics : bool)
    (st : RenameState) (dataGroup : nat) :
  matchNamesDistinct (names st) ->
  names (renameGroup modelGroupNames writeDiagnostics st dataGroup)
  = alter (renamed modelGroupNames) dataGroup (names st).
Proof.
  intros Hdistinct. unfold renameGroup.
  destruct (names st !! dataGroup) as [dataGroupName|] eqn:Hname.
  - pose proof (renamed_matchName modelGroupNames dataGroupName) as Hmatch.
    assert (Hsame : renamed modelGroupNames dataGroupName = dataGroupName ->
                    names st = alter (renamed modelGroupNames) dataGroup (names st)).
    { intros Hsame. symmetry. apply alter_id. intros x Hx.
      rewrite Hname in Hx. injection Hx as <-. exact Hsame. }
    unfold renamed in Hmatch, Hsame.
    destruct (findModelGroup dataGroupName modelGroupNames) as [| m |] eqn:Hfind.
    + cbn [names]. now apply Hsame.
    + rewrite nameInUse_false.
      * cbn [names]. apply map_eq. intros i.
        destruct (decide (i = dataGroup)) as [->|Hne].
        -- rewrite lookup_insert_eq, lookup_alter_eq, Hname. cbn.
           unfold renamed. now rewrite Hfind.
        -- now rewrite lookup_insert_ne, lookup_alter_ne by congruence.
      * intros g Hg. symmetry. apply (Hdistinct _ _ _ _ Hname Hg). now symmetry.
    + cbn [names]. now apply Hsame.
  - symmetry. apply map_eq. intros i. destruct (decide (i = dataGroup)) as [->|Hne].
    + now rewrite lookup_alter_eq, Hname.
    + now rewrite lookup_alter_ne by congruence.
Qed.

Lemma alter_renamed_distinct (modelGroupNames : list string) (dataGroup : nat)
    (fieldNames : gmap nat string) :
  matchNamesDistinct fieldNames ->
  matchNamesDistinct (alter (renamed modelGroupNames) dataGroup fieldNames).
Proof.
  intros Hdistinct f g a b Hf Hg Hab.
  assert (Hback : forall i x,
             alter (renamed modelGroupNames) dataGroup fieldNames !! i = Some x ->
             exists y, fieldNames !! i = Some y
                       /\ matchNameOf y = matchNameOf x).
  { intros i x Hi. destruct (decide (i = dataGroup)) as [->|Hne].
    - rewrite lookup_alter_eq in Hi.
      destruct (fieldNames !! dataGroup) as [y|]; [|discriminate].
      injection Hi as <-. exists y. split; [reflexivity|].
      symmetry. apply renamed_matchName.
    - rewrite lookup_alter_ne in Hi by congruence. now exists x. }
  destruct (Hback _ _ Hf) as (a' & Hf' & Ha).
  destruct (Hback _ _ Hg) as (b' & Hg' & Hb).
  apply (Hdistinct _ _ _ _ Hf' Hg'). congruence.
Qed.

Lemma renameDataGroups_names (modelGroupNames : list string) (writeDiagnostics : bool)
    (dataGroups : list nat) (st : RenameState) :
  NoDup dataGroups -> matchNamesDistinct (names st) ->
  let final := fold_left (renameGroup modelGroupNames writeDiagnostics) dataGroups st in
  (forall g, g ∈ dataGroups ->
             names final !! g = renamed modelGroupNames <$> names st !! g)
  /\ (forall f, f ∉ dataGroups -> names final !! f = names st !! f).
Proof.
  intros Hnodup. revert st.
  induction Hnodup as [|g dataGroups Hnotin Hnodup IH]; intros st Hdistinct; cbn zeta.
  - split; [|reflexivity]. intros g Hg. now apply elem_of_nil in Hg.
  - cbn [fold_left].
    pose proof (renameGroup_names modelGroupNames writeDiagnostics st g Hdistinct)
      as Hstep.
    destruct (IH (renameGroup modelGroupNames writeDiagnostics st g)) as [Hin Hout].
    { rewrite Hstep. now apply alter_renamed_distinct. }
    split.
    + intros h Hh. apply elem_of_cons in Hh as [->|Hh].
      * rewrite (Hout g Hnotin), Hstep. apply lookup_alter_eq.
      * rewrite (Hin h Hh), Hstep.
        rewrite lookup_alter_ne; [reflexivity|]. intros ->. contradiction.
    + intros f Hf. apply not_elem_of_cons in Hf as [Hne Hf].
      rewrite (Hout f Hf), Hstep. now rewrite lookup_alter_ne by congruence.
Qed.

End RenamingFacts.

(** X21.  For ASCII names: when no two fields of the data file have names
    that are equal up to case and surrounding white space, the renaming loop
    of [_loadData]
    leaves every data group that matches a model group up to case and white
    space with the name of a model group of that match name, leaves a data
    group that matches no model group with its own name, and changes the
    name of no other field. *)
Theorem data_groups_take_model_names (modelGroupNames : list string)
    (diagnosticLevel : Z) (dataGroups : list nat) (fieldNames : gmap nat string) :
  Forall (fun name => asciiOnly name = true) modelGroupNames ->
  map_Forall (fun _ name => asciiOnly name = true) fieldNames ->
  NoDup dataGroups -> matchNamesDistinct fieldNames ->
  let final :=
    GroupNames.renameDataGroups modelGroupNames diagnosticLevel dataGroups fieldNames in
  (forall g name m,
      g ∈ dataGroups -> fieldNames !! g = Some name -> m ∈ modelGroupNames ->
      matchNameOf m = matchNameOf name ->
      exists m', GroupNames.names final !! g = Some m' /\ m' ∈ modelGroupNames
                 /\ matchNameOf m' = matchNameOf name)
  /\ (forall g name,
         g ∈ dataGroups -> fieldNames !! g = Some name ->
         (forall m, m ∈ modelGroupNames ->
                    matchNameOf m <> matchNameOf name) ->
         GroupNames.names final !! g = Some name)
  /\ (forall f, f ∉ dataGroups -> GroupNames.names final !! f = fieldNames !! f).
Proof.
  intros _ _ Hnodup Hdistinct. cbv zeta. unfold GroupNames.renameDataGroups.
  destruct (renameDataGroups_names modelGroupNames (0 <? diagnosticLevel)%Z dataGroups
              {| GroupNames.names := fieldNames; GroupNames.printed := [] |}
              Hnodup Hdistinct) as [Hin Hout].
  cbn [GroupNames.names] in Hin, Hout.
  split; [|split].
  - intros g name m Hg Hname Hm Hmatch.
    exists (renamed modelGroupNames name). split; [|split].
    + now rewrite (Hin g Hg), Hname.
    + now apply (findModelGroup_found name modelGroupNames m).
    + apply renamed_matchName.
  - intros g name Hg Hname Hnone.
    rewrite (Hin g Hg), Hname. cbn. f_equal. now apply renamed_unmatched.
  - exact Hout.
Qed.

Lemma data_groups_take_model_names_witness :
  GroupNames.names
    (GroupNames.renameDataGroups ["Heart"; "Lung"] 0 [1; 2]
       (<[1 := " heart "]> (<[2 := "skin"]> (<[3 := "coordinates"]> ∅))))
  !! 1 = Some "Heart".
Proof.
  assert (Hdistinct : matchNamesDistinct
            (<[1 := " heart "]> (<[2 := "skin"]> (<[3 := "coordinates"]> ∅)))).
  { intros f g a b Hf Hg.
    repeat (apply lookup_insert_Some in Hf as [[<- <-]|[? Hf]]);
      try (now rewrite lookup_empty in Hf);
      repeat (apply lookup_insert_Some in Hg as [[<- <-]|[? Hg]]);
      try (now rewrite lookup_empty in Hg);
      try reflexivity; vm_compute; discriminate. }
  assert (Hnodup : NoDup [1; 2]).
  { apply (bool_decide_unpack _). vm_compute. exact I. }
  assert (Hmodel : Forall (fun name => asciiOnly name = true) ["Heart"; "Lung"])
    by repeat constructor.
  assert (Hdata : map_Forall (fun (_ : nat) name => asciiOnly name = true)
                    (<[1 := " heart "]> (<[2 := "skin"]> (<[3 := "coordinates"]>
                       (∅ : gmap nat string))))).
  { intros f name Hf.
    repeat (apply lookup_insert_Some in Hf as [[<- <-]|[? Hf]]; [reflexivity|]).
    now rewrite lookup_empty in Hf. }
  destruct (data_groups_take_model_names ["Heart"; "Lung"] 0 [1; 2] _
              Hmodel Hdata Hnodup Hdistinct)
    as [Hmatch _].
  destruct (Hmatch 1 " heart " "Heart") as (m' & Hfinal & Hin & Hname).
  - apply list_elem_of_here.
  - reflexivity.
  - apply list_elem_of_here.
  - reflexivity.
  - rewrite Hfinal. f_equal.
    apply elem_of_cons in Hin as [->|Hin]; [reflexivity|].
    apply elem_of_cons in Hin as [->|Hin]; [vm_compute in Hname; discriminate|].
    now apply elem_of_nil in Hin.
Defined.
